(** * pytube.request: chunked range fetching, sequential segments, size lookup

    A shallow embedding of [src/pytube/request.py].  The functions of the
    module ([_execute_request], [stream], [seq_stream], [head], [filesize],
    [seq_filesize]) are written as Rocq functions over an explicit [World]
    that stands for everything outside the module: the network behind
    [urlopen] and the generator behind [random.choice].  A generator is run
    to completion and described by the ordered list of things it does: the
    requests it issues, the chunks it yields and the errors it logs.

    Python [int] is [Z], [bytes] is [list byte], [str] is [string] (code
    points below 256, which is what [http.client] produces for headers). *)

From Stdlib Require Import ZArith List String Ascii Bool Lia.
From Stdlib Require Import Strings.Byte DecimalString DecimalZ DecimalN.
Import ListNotations.
Open Scope string_scope.
Open Scope list_scope.
Open Scope Z_scope.

(* ------------------------------------------------------------------ *)
(** * Python values used by the module *)

Definition bytes := list byte.

(** [len(b)] *)
Definition len (b : bytes) : Z := Z.of_nat (List.length b).

(** [str(n)] and the [{n}] of an f-string, for an [int]. *)
Definition str_of_int (n : Z) : string := NilZero.string_of_int (Z.to_int n).

(** ** [int(s)] on a [str], base 10

    A [string] stands for a [str] of code points below 256, which is what
    [http.client] makes of header fields.  Surrounding whitespace is
    dropped, one sign is allowed, the digits may be grouped by single
    underscores, and a numeral of more than 4300 digits is refused (the
    default of [sys.get_int_max_str_digits()]).  Anything else is a
    [ValueError], here [None]. *)

(** What [int] drops around a numeral: the six ASCII whitespace
    characters, and of the others below 256 the spaces U+0085 and U+00A0.
    The separators U+001C to U+001F are whitespace for [str.strip] but
    not for [int]. *)
Definition is_space (c : ascii) : bool :=
  let n := Z.of_nat (nat_of_ascii c) in
  ((9 <=? n) && (n <=? 13)) || (n =? 32) || (n =? 133) || (n =? 160).

Definition digit_of_ascii (c : ascii) : option Z :=
  let n := Z.of_nat (nat_of_ascii c) in
  if (48 <=? n) && (n <=? 57) then Some (n - 48) else None.

Fixpoint lstrip (s : list ascii) : list ascii :=
  match s with
  | c :: rest => if is_space c then lstrip rest else s
  | [] => []
  end.

Definition strip (s : list ascii) : list ascii :=
  rev (lstrip (rev (lstrip s))).

(** [prev] tells whether the character just read was a digit: an
    underscore is accepted only between two digits. *)
Fixpoint parse_digits (acc : Z) (prev : bool) (s : list ascii) : option Z :=
  match s with
  | [] => if prev then Some acc else None
  | c :: rest =>
      match digit_of_ascii c with
      | Some d => parse_digits (acc * 10 + d) true rest
      | None =>
          if Ascii.eqb c "_" && prev then parse_digits acc false rest
          else None
      end
  end.

Definition is_digit_char (c : ascii) : bool :=
  match digit_of_ascii c with
  | Some _ => true
  | None => false
  end.

Definition count_digits (s : list ascii) : Z :=
  Z.of_nat (List.length (filter is_digit_char s)).

Definition int_max_str_digits : Z := 4300.

(** The numeral without its sign: well formed, and not longer than the
    limit; underscores do not count. *)
Definition unsigned_int (body : list ascii) : option Z :=
  match parse_digits 0 false body with
  | Some n => if int_max_str_digits <? count_digits body then None else Some n
  | None => None
  end.

(** A string without its surrounding whitespace and its sign. *)
Definition unsigned_part (s : string) : list ascii :=
  match strip (list_ascii_of_string s) with
  | c :: rest =>
      if Ascii.eqb c "-" || Ascii.eqb c "+" then rest else c :: rest
  | [] => []
  end.

Definition int_of_str (s : string) : option Z :=
  match strip (list_ascii_of_string s) with
  | c :: rest =>
      if Ascii.eqb c "-" then option_map Z.opp (unsigned_int rest)
      else if Ascii.eqb c "+" then unsigned_int rest
      else unsigned_int (c :: rest)
  | [] => None
  end.

(** ** [repr(s)], for the text of the errors of [int]

    The quote is the single one unless the string has single quotes and
    no double quote; the quote and the backslash are escaped, so are tab,
    newline and carriage return, and a character that is not printable is
    written [\xNN]. *)

Definition single_quote : ascii := "039".
Definition double_quote : ascii := "034".
Definition backslash : ascii := "092".

Definition hex_digit (n : nat) : ascii :=
  nth n (list_ascii_of_string "0123456789abcdef") "0"%char.

(** [c.isprintable()] for a code point below 256. *)
Definition printable (c : ascii) : bool :=
  let n := nat_of_ascii c in
  (((32 <=? n) && (n <=? 126)) || ((161 <=? n) && negb (n =? 173)))%nat.

Definition repr_char (quote c : ascii) : string :=
  if Ascii.eqb c quote || Ascii.eqb c backslash then
    String backslash (String c "")
  else if Ascii.eqb c "009" then String backslash "t"
  else if Ascii.eqb c "010" then String backslash "n"
  else if Ascii.eqb c "013" then String backslash "r"
  else if printable c then String c ""
  else
    let n := nat_of_ascii c in
    String backslash
      (String "x" (String (hex_digit (n / 16)) (String (hex_digit (n mod 16))
                                                   ""))).

Definition repr (s : string) : string :=
  let l := list_ascii_of_string s in
  let quote :=
    if existsb (Ascii.eqb single_quote) l
       && negb (existsb (Ascii.eqb double_quote) l)
    then double_quote else single_quote in
  (String quote (String.concat "" (map (repr_char quote) l))
   ++ String quote "")%string.

(** The run of digits and underscores a string starts with. *)
Fixpoint take_numeral (s : list ascii) : list ascii :=
  match s with
  | c :: rest =>
      if is_digit_char c || Ascii.eqb c "_" then c :: take_numeral rest
      else []
  | [] => []
  end.

(** The characters of a decimal numeral. *)
Definition digit_chars (d : Decimal.uint) : list ascii :=
  list_ascii_of_string (NilEmpty.string_of_uint d).

(** ** [s.lower()] *)

Definition lower_ascii (c : ascii) : ascii :=
  let n := nat_of_ascii c in
  if ((65 <=? n) && (n <=? 90))%nat
     || ((192 <=? n) && (n <=? 222) && negb (n =? 215))%nat
  then ascii_of_nat (n + 32) else c.

Fixpoint lower (s : string) : string :=
  match s with
  | EmptyString => EmptyString
  | String c rest => String (lower_ascii c) (lower rest)
  end.

(** [s.startswith(p)] is [String.prefix p s]. *)

(** ** Dictionaries

    A [dict] keeps its keys in insertion order and [urlencode] reads them
    in that order, so a dictionary is an association list with distinct
    keys.  [dict_set d k v] is [d[k] = v]: an existing key keeps its
    place, a new key goes last. *)

Definition dict := list (string * string).

Fixpoint dict_set (d : dict) (k v : string) : dict :=
  match d with
  | [] => [(k, v)]
  | (k', v') :: rest =>
      if String.eqb k' k then (k, v) :: rest
      else (k', v') :: dict_set rest k v
  end.

Fixpoint dict_get (d : dict) (k : string) : option string :=
  match d with
  | [] => None
  | (k', v) :: rest => if String.eqb k' k then Some v else dict_get rest k
  end.

(** [dict(pairs)] and [d.update(pairs)] *)
Definition dict_update (d : dict) (pairs : list (string * string)) : dict :=
  fold_left (fun acc kv => dict_set acc (fst kv) (snd kv)) pairs d.

Definition dict_of_pairs (pairs : list (string * string)) : dict :=
  dict_update [] pairs.

(** ** Byte strings *)

Definition cons_first (c : byte) (ls : list bytes) : list bytes :=
  match ls with
  | l :: ls' => (c :: l) :: ls'
  | [] => [[c]]
  end.

(** [s.split(b'\r\n')]: the pieces between the occurrences of CR LF, read
    from the left; a string without CR LF is its own only piece. *)
Fixpoint split_crlf (s : bytes) : list bytes :=
  match s with
  | [] => [[]]
  | c :: rest =>
      match rest with
      | d :: rest' =>
          if Byte.eqb c x0d && Byte.eqb d x0a then [] :: split_crlf rest'
          else cons_first c (split_crlf rest)
      | [] => [[c]]
      end
  end.

Definition crlf : bytes := [x0d; x0a].

(** [b'\r\n'.join(lines)] *)
Fixpoint join_crlf (lines : list bytes) : bytes :=
  match lines with
  | [] => []
  | [l] => l
  | l :: ls => l ++ crlf ++ join_crlf ls
  end.

Definition is_digit (b : byte) : bool :=
  let n := Z.of_N (Byte.to_N b) in (48 <=? n) && (n <=? 57).

(** [int(ds)] for a run of ASCII digits. *)
Definition int_of_digits (ds : bytes) : Z :=
  fold_left (fun acc b => acc * 10 + (Z.of_N (Byte.to_N b) - 48)) ds 0.

Fixpoint take_digits (s : bytes) : bytes :=
  match s with
  | b :: rest => if is_digit b then b :: take_digits rest else []
  | [] => []
  end.

Fixpoint strip_prefix (p s : bytes) : option bytes :=
  match p, s with
  | [], _ => Some s
  | a :: p', b :: s' => if Byte.eqb a b then strip_prefix p' s' else None
  | _ :: _, [] => None
  end.

(** The regular expression [b'Segment-Count: (\\d+)'] of [seq_stream] and
    [seq_filesize]: a literal, then one or more ASCII digits, captured. *)
Definition segment_regex : bytes := list_byte_of_string "Segment-Count: (\d+)".
Definition segment_literal : bytes := list_byte_of_string "Segment-Count: ".

(** [re.compile(segment_regex).search(line)], giving [match.group(1)]:
    the leftmost place where the literal is followed by a digit, and the
    longest run of digits there. *)
Fixpoint segment_count_search (line : bytes) : option bytes :=
  match line with
  | [] => None
  | _ :: rest =>
      match strip_prefix segment_literal line with
      | Some after =>
          match take_digits after with
          | [] => segment_count_search rest
          | ds => Some ds
          end
      | None => segment_count_search rest
      end
  end.

(* ------------------------------------------------------------------ *)
(** * Exceptions, requests, responses *)

(** The [reason] of a [URLError]: a [socket.timeout], or anything
    else. *)
Inductive url_reason :=
| socket_timeout
| other_reason (msg : string).

(** [TimeoutError] is [socket.timeout] raised as it is, not as the
    reason of a [URLError]. *)

Inductive exn :=
| URLError (reason : url_reason)
| IncompleteRead
| StopIteration
| KeyError (key : string)
| IndexError
| ValueError (msg : string)
| TypeError (msg : string)
| UnboundLocalError (name : string)
| MaxRetriesExceeded
| RegexMatchError (caller : string) (pattern : bytes)
| OtherException (name : string)
| RuntimeError (msg : string)
| TimeoutError.

(** The [ValueError] of [int(s)] for a string it refuses.  A well-formed
    run of more than 4300 digits at the head of the numeral is reported
    as such, whatever follows it; every other string is an invalid
    literal, shown by the first 200 characters of its [repr]. *)
Definition int_error (s : string) : exn :=
  let numeral := take_numeral (unsigned_part s) in
  match parse_digits 0 false numeral with
  | Some _ =>
      if int_max_str_digits <? count_digits numeral then
        ValueError
          ("Exceeds the limit (4300 digits) for integer string conversion: value has "
           ++ str_of_int (count_digits numeral)
           ++ " digits; use sys.set_int_max_str_digits() to increase the limit")
      else
        ValueError
          ("invalid literal for int() with base 10: "
           ++ substring 0 200 (repr s))
  | None =>
      ValueError
        ("invalid literal for int() with base 10: "
         ++ substring 0 200 (repr s))
  end.

(** An exception that leaves the body of a generator: [StopIteration]
    comes out as [RuntimeError], every other one as it is. *)
Definition generator_raise (e : exn) : exn :=
  match e with
  | StopIteration => RuntimeError "generator raised StopIteration"
  | _ => e
  end.

Inductive result (A : Type) :=
| Ok (a : A)
| Raise (e : exn).
Arguments Ok {A} a.
Arguments Raise {A} e.

(** The [timeout] argument is handed to [urlopen] untouched. *)
Inductive timeout_t :=
| GLOBAL_DEFAULT_TIMEOUT
| Timeout (seconds : Z).

(** The [data] argument of a request: [bytes], or another object.  Of
    another object [_execute_request] uses two things, which stand for it
    here: [bool(data)], and what [bytes(json.dumps(data),
    encoding="utf-8")] evaluates to, a value or the exception raised. *)
Inductive payload :=
| Bytes (b : bytes)
| Object (truthy : bool) (dumped : result bytes).

(** What [urlopen(Request(url, headers=..., method=..., data=...),
    timeout=...)] is given: the arguments as [_execute_request] passes
    them, before [Request] and [urlopen] make anything of them. *)
Record Request := {
  req_url : string;
  req_method : option string;
  req_headers : dict;
  req_data : option payload;
  req_timeout : timeout_t
}.

(** What [urlopen] gives back.  [resp_headers] are the header fields in
    the order received; [resp_reads] are the results of the successive
    calls of [response.read()], after which every call returns [b''].
    [http.client] delivers the whole body in the first call; a test double
    may hand over several pieces and then raise [StopIteration]. *)
Record Response := {
  resp_headers : list (string * string);
  resp_reads : list (result bytes)
}.

(** [response.info()[name]]: the field is found without regard to case,
    the first one wins, and an absent field gives [None] (no [KeyError]). *)
Fixpoint message_get (hs : list (string * string)) (name : string)
  : option string :=
  match hs with
  | [] => None
  | (k, v) :: rest =>
      if String.eqb (lower k) (lower name) then Some v
      else message_get rest name
  end.

(** Which call of [_execute_request] issued a request: the chunk request
    and the size probe of [stream], the GET of [seq_filesize], and [head].
    The label is carried for reading traces only. *)
Inductive call_site := SiteChunk | SiteProbe | SiteSegment0 | SiteHead.

Inductive event :=
| EvRequest (site : call_site) (r : Request)
| EvYield (chunk : bytes) (downloaded : Z)
| EvLog (e : exn).

(** How a run ends: with a value ([tt] for a generator that is exhausted),
    with an exception, or cut short because the model's fuel ran out. *)
Inductive outcome (A : Type) :=
| Returned (a : A)
| Raised (e : exn)
| OutOfFuel.
Arguments Returned {A} a.
Arguments Raised {A} e.
Arguments OutOfFuel {A}.

Definition default_range_size : Z := 9437184.

Definition user_agents : list string := [
  "Mozilla/5.0 (Windows NT 10.0; Win64; x64) AppleWebKit/537.36 (KHTML, like Gecko) Chrome/91.0.4472.124 Safari/537.36";
  "Mozilla/5.0 (Macintosh; Intel Mac OS X 10_15_7) AppleWebKit/605.1.15 (KHTML, like Gecko) Version/14.1.1 Safari/605.1.15";
  "Mozilla/5.0 (X11; Linux x86_64) AppleWebKit/537.36 (KHTML, like Gecko) Chrome/92.0.4515.107 Safari/537.36";
  "Mozilla/5.0 (Windows NT 10.0; Win64; x64; rv:90.0) Gecko/20100101 Firefox/90.0";
  "Mozilla/5.0 (iPhone; CPU iPhone OS 14_6 like Mac OS X) AppleWebKit/605.1.15 (KHTML, like Gecko) Version/14.0 Mobile/15E148 Safari/604.1";
  "Mozilla/5.0 (Windows NT 6.3; WOW64; Trident/7.0; rv:11.0) like Gecko";
  "Mozilla/5.0 (Windows NT 6.1) AppleWebKit/537.36 (KHTML, like Gecko) Chrome/45.0.2454.85 Safari/537.36";
  "Mozilla/5.0 (Windows NT 6.1; Trident/7.0; rv:11.0) like Gecko";
  "Mozilla/5.0 (Windows NT 10.0; WOW64; rv:40.0) Gecko/20100101 Firefox/40.0";
  "Mozilla/5.0 (Macintosh; Intel Mac OS X 10_10_4) AppleWebKit/600.7.12 (KHTML, like Gecko) Version/8.0.7 Safari/600.7.12";
  "Mozilla/5.0 (Macintosh; Intel Mac OS X 10_10_5) AppleWebKit/537.36 (KHTML, like Gecko) Chrome/45.0.2454.85 Safari/537.36";
  "Mozilla/5.0 (Macintosh; Intel Mac OS X 10.10; rv:40.0) Gecko/20100101 Firefox/40.0";
  "Mozilla/5.0 (Macintosh; Intel Mac OS X 10_9_5) AppleWebKit/600.8.9 (KHTML, like Gecko) Version/7.1.8 Safari/537.85.17";
  "Mozilla/5.0 (iPad; CPU OS 8_4 like Mac OS X) AppleWebKit/600.1.4 (KHTML, like Gecko) Version/8.0 Mobile/12H143 Safari/600.1.4";
  "Mozilla/5.0 (iPad; CPU OS 8_3 like Mac OS X) AppleWebKit/600.1.4 (KHTML, like Gecko) Version/8.0 Mobile/12F69 Safari/600.1.4";
  "Mozilla/5.0 (Windows NT 6.1; rv:40.0) Gecko/20100101 Firefox/40.0";
  "Mozilla/5.0 (compatible; MSIE 10.0; Windows NT 6.1; WOW64; Trident/6.0)";
  "Mozilla/5.0 (compatible; MSIE 9.0; Windows NT 6.1; WOW64; Trident/5.0)";
  "Mozilla/5.0 (Windows NT 6.3; WOW64; Trident/7.0; Touch; rv:11.0) like Gecko"
].

(* ------------------------------------------------------------------ *)
(** * What the module is run against *)

(** [urllib.parse.urlsplit(url)] *)
Record SplitResult := {
  scheme : string;
  netloc : string;
  path : string;
  query : string;
  fragment : string
}.

(** Everything the module calls but does not define.  A [World] is the
    state of the outside; a call reads it and leaves a new one.
    [urlopen w r] stands for [urlopen(Request(...), timeout=...)] as a
    whole, the making of the [Request] included: what [Request] does with
    its arguments (it capitalises header names, and raises [ValueError]
    for a URL without a scheme) is the transport's, like everything after
    it.  [range_size] is the value the module global [default_range_size]
    has while a generator runs: [9437184] unless it has been rebound. *)
Class Environment := {
  World : Type;
  choice : World -> list string -> string * World;
  urlopen : World -> Request -> result Response * World;
  urlsplit : string -> SplitResult;
  parse_qsl : string -> list (string * string);
  quote_plus : string -> string;
  range_size : Z
}.

Section Module.
Context {E : Environment}.

(** [parse.urlencode(querys)] for a dictionary of strings. *)
Definition urlencode (querys : dict) : string :=
  String.concat "&"
    (map (fun kv => quote_plus (fst kv) ++ "=" ++ quote_plus (snd kv))%string
       querys).

(** Lines 54-55: a [data] that is true and not [bytes] is replaced by
    its JSON text, encoded; [None], [bytes] and an object that is false
    stay as they are. *)
Definition encode_data (data : option payload) : result (option payload) :=
  match data with
  | Some (Object true (Ok b)) => Ok (Some (Bytes b))
  | Some (Object true (Raise e)) => Raise e
  | _ => Ok data
  end.

(** [_execute_request] *)
Definition _execute_request (site : call_site) (w : World) (url : string)
    (method : option string) (headers : dict) (data : option payload)
    (timeout : timeout_t) : list event * World * result Response :=
  let '(agent, w1) := choice w user_agents in
  let base_headers :=
    dict_update [("User-Agent", agent); ("accept-language", "en-US,en")]
      headers in
  match encode_data data with
  | Ok data =>
      if String.prefix "http" (lower url) then
        let request := {| req_url := url; req_method := method;
                          req_headers := base_headers; req_data := data;
                          req_timeout := timeout |} in
        let '(r, w2) := urlopen w1 request in
        ([EvRequest site request], w2, r)
      else ([], w1, Raise (ValueError "Invalid URL"))
  | Raise e => ([], w1, Raise e)
  end.

(** ** [stream] *)

Inductive loop_exit :=
| Break (response : Response)
| Throw (e : exn)
| Exhausted.

Inductive drain_exit :=
| DrainBreak
| DrainReturn
| DrainRaise (e : exn).

Definition range_url (url : string) (downloaded stop_pos : Z) : string :=
  (url ++ "&range=" ++ str_of_int downloaded ++ "-" ++ str_of_int stop_pos)
  %string.

Definition probe_url (url : string) : string :=
  (url ++ "&range=0-99999999999")%string.

Definition caught_by_probe (e : exn) : bool :=
  match e with
  | KeyError _ | IndexError | ValueError _ => true
  | _ => false
  end.

(** What a run is: what it did, the world it left, how it ended. *)
Definition run (A : Type) : Type := list event * World * outcome A.

Definition prepend {X : Type} (evs : list event)
    (r : list event * World * X) : list event * World * X :=
  let '(evs', w, x) := r in (evs ++ evs', w, x).

Section Stream.
Variable url : string.
Variable timeout : timeout_t.
Variable max_retries : Z.

(** The inner [while True] of lines 172-195.  One unit of [fuel] is one
    turn of the loop. *)
Fixpoint request_loop (fuel : nat) (w : World) (downloaded stop_pos tries : Z)
  : list event * World * loop_exit :=
  match fuel with
  | O => ([], w, Exhausted)
  | S fuel' =>
      if tries >=? 1 + max_retries then ([], w, Throw MaxRetriesExceeded)
      else
        match _execute_request SiteChunk w (range_url url downloaded stop_pos)
                (Some "GET") [] None timeout with
        | (evs, w1, Ok response) => (evs, w1, Break response)
        | (evs, w1, Raise (URLError socket_timeout))
        | (evs, w1, Raise IncompleteRead) =>
            let '(evs', w2, x) :=
              request_loop fuel' w1 downloaded stop_pos (tries + 1) in
            (evs ++ evs', w2, x)
        | (evs, w1, Raise e) => (evs, w1, Throw e)
        end
  end.

(** Fuel that the inner loop cannot use up. *)
Definition request_fuel : nat := S (Z.to_nat (1 + max_retries)).

(** Lines 197-207: the size probe, gated on [file_size] still being the
    placeholder. *)
Definition size_probe (w : World) (file_size : Z)
  : list event * World * result Z :=
  if file_size =? range_size then
    match _execute_request SiteProbe w (probe_url url) (Some "GET") [] None
            timeout with
    | (evs, w1, Ok resp) =>
        match message_get (resp_headers resp) "Content-Length" with
        | Some content_range =>
            match int_of_str content_range with
            | Some n => (evs, w1, Ok n)
            | None =>
                (evs ++ [EvLog (int_error content_range)], w1,
                 Ok file_size)
            end
        | None =>
            (evs, w1,
             Raise (TypeError "int() argument must be a string, a bytes-like object or a real number, not 'NoneType'"))
        end
    | (evs, w1, Raise e) =>
        if caught_by_probe e then (evs ++ [EvLog e], w1, Ok file_size)
        else (evs, w1, Raise e)
    end
  else ([], w, Ok file_size).

(** Lines 208-218: read until an empty read, yielding every piece. *)
Fixpoint drain (reads : list (result bytes)) (downloaded : Z)
  : list event * Z * drain_exit :=
  match reads with
  | [] => ([], downloaded, DrainBreak)
  | Raise StopIteration :: _ => ([], downloaded, DrainReturn)
  | Raise e :: _ => ([], downloaded, DrainRaise e)
  | Ok [] :: _ => ([], downloaded, DrainBreak)
  | Ok chunk :: rest =>
      let downloaded' := downloaded + len chunk in
      let '(evs, d, x) := drain rest downloaded' in
      (EvYield chunk downloaded' :: evs, d, x)
  end.

(** Lines 197-218, the part of a turn of the outer loop that follows the
    request: the probe, the reads, and, through [again], the next turn. *)
Definition after_request (again : World -> Z -> Z -> run unit) (w1 : World)
    (file_size downloaded : Z) (response : Response) : run unit :=
  match size_probe w1 file_size with
  | (evs2, w2, Ok file_size') =>
      match drain (resp_reads response) downloaded with
      | (evs3, downloaded', DrainBreak) =>
          prepend (evs2 ++ evs3) (again w2 file_size' downloaded')
      | (evs3, _, DrainReturn) => (evs2 ++ evs3, w2, Returned tt)
      | (evs3, _, DrainRaise e) =>
          (evs2 ++ evs3, w2, Raised (generator_raise e))
      end
  | (evs2, w2, Raise e) => (evs2, w2, Raised (generator_raise e))
  end.

(** The outer [while downloaded < file_size].  One unit of [fuel] is one
    test of the loop condition.  ([range_header] of line 168 is computed
    and never used; the window travels in the URL.)  [stream] is a
    generator: what its body raises comes out through
    [generator_raise]. *)
Fixpoint stream_loop (fuel : nat) (w : World) (file_size downloaded : Z)
  : run unit :=
  match fuel with
  | O => ([], w, OutOfFuel)
  | S fuel' =>
      if downloaded <? file_size then
        let stop_pos := Z.min (downloaded + range_size) file_size - 1 in
        match request_loop request_fuel w downloaded stop_pos 0 with
        | (evs1, w1, Break response) =>
            prepend evs1
              (after_request (stream_loop fuel') w1 file_size downloaded
                 response)
        | (evs1, w1, Throw e) => (evs1, w1, Raised (generator_raise e))
        | (evs1, w1, Exhausted) => (evs1, w1, OutOfFuel)
        end
      else ([], w, Returned tt)
  end.

Definition stream (fuel : nat) (w : World) : run unit :=
  stream_loop fuel w range_size 0.

End Stream.

(** ** [seq_stream] *)

(** The bytes a run has yielded, in order. *)
Definition yielded (evs : list event) : bytes :=
  flat_map (fun e => match e with EvYield chunk _ => chunk | _ => [] end) evs.

Definition base_url_of (url : string) : string :=
  let split_url := urlsplit url in
  (scheme split_url ++ "://" ++ netloc split_url ++ "/" ++ path split_url
   ++ "?")%string.

Definition querys_of (url : string) : dict :=
  dict_of_pairs (parse_qsl (query (urlsplit url))).

(** The body of [for line in stream_info] in [seq_stream]: a matching
    line assigns [segment_count], and the loop goes on. *)
Definition scan_line (segment_count : option Z) (line : bytes) : option Z :=
  match segment_count_search line with
  | Some digits => Some (int_of_digits digits)
  | None => segment_count
  end.

(** [segment_count] after the loop; [None] when it was never assigned. *)
Definition scan_segment_count (segment_data : bytes) : option Z :=
  fold_left scan_line (split_crlf segment_data) None.

(** [while seq_num <= segment_count] of [seq_stream].  [turns] pays for
    the tests of the loop condition, [fuel] for each [stream].
    ([seq_stream] is a generator as well; what [stream] raises is never
    [StopIteration], lemma [stream_never_stop_iteration], so it comes out
    of [seq_stream] as it is.) *)
Fixpoint seq_loop (turns fuel : nat) (w : World) (base_url : string)
    (querys : dict) (timeout : timeout_t) (max_retries : Z)
    (seq_num segment_count : Z) : run unit :=
  match turns with
  | O => ([], w, OutOfFuel)
  | S turns' =>
      if seq_num <=? segment_count then
        let querys' := dict_set querys "sq" (str_of_int seq_num) in
        let url := (base_url ++ urlencode querys')%string in
        match stream url timeout max_retries fuel w with
        | (evs, w1, Returned _) =>
            let '(evs', w2, o) :=
              seq_loop turns' fuel w1 base_url querys' timeout max_retries
                (seq_num + 1) segment_count in
            (evs ++ evs', w2, o)
        | (evs, w1, o) => (evs, w1, o)
        end
      else ([], w, Returned tt)
  end.

Definition seq_stream (fuel : nat) (w : World) (url : string)
    (timeout : timeout_t) (max_retries : Z)
  : run unit :=
  let base_url := base_url_of url in
  let querys := dict_set (querys_of url) "sq" (str_of_int 0) in
  let url0 := (base_url ++ urlencode querys)%string in
  match stream url0 timeout max_retries fuel w with
  | (evs0, w1, Returned _) =>
      let segment_data := yielded evs0 in
      match scan_segment_count segment_data with
      | Some segment_count =>
          let '(evs, w2, o) :=
            seq_loop (S (Z.to_nat segment_count)) fuel w1 base_url querys
              timeout max_retries 1 segment_count in
          (evs0 ++ evs, w2, o)
      | None => (evs0, w1, Raised (UnboundLocalError "segment_count"))
      end
  | (evs0, w1, o) => (evs0, w1, o)
  end.

(** The URL of segment [seq_num]: the base URL and the query with [sq]
    set. *)
Definition segment_url (url : string) (seq_num : Z) : string :=
  (base_url_of url
   ++ urlencode (dict_set (querys_of url) "sq" (str_of_int seq_num)))%string.

(** ** [head], [filesize], [seq_filesize] *)

Definition head (w : World) (url : string)
  : list event * World * result dict :=
  match _execute_request SiteHead w url (Some "HEAD") [] None
          GLOBAL_DEFAULT_TIMEOUT with
  | (evs, w1, Ok response) =>
      (evs, w1,
       Ok (dict_of_pairs
             (map (fun kv => (lower (fst kv), snd kv))
                (resp_headers response))))
  | (evs, w1, Raise e) => (evs, w1, Raise e)
  end.

(** [int(head(url)['content-length'])] *)
Definition head_content_length (w : World) (url : string)
  : list event * World * result Z :=
  match head w url with
  | (evs, w1, Ok headers) =>
      match dict_get headers "content-length" with
      | Some v =>
          match int_of_str v with
          | Some n => (evs, w1, Ok n)
          | None =>
              (evs, w1, Raise (int_error v))
          end
      | None => (evs, w1, Raise (KeyError "content-length"))
      end
  | (evs, w1, Raise e) => (evs, w1, Raise e)
  end.

(** The function under [@lru_cache()] in [filesize]. *)
Definition filesize_wrapped (w : World) (url : string)
  : run Z :=
  match head_content_length w url with
  | (evs, w1, Ok n) => (evs, w1, Returned n)
  | (evs, w1, Raise e) => (evs, w1, Raised e)
  end.

(** Modelled from the spec: [pytube.helpers.regex_search] is imported by
    the module and not among the sources at hand.  It searches [string]
    for [pattern] and returns the requested group of the first match, or
    raises [RegexMatchError].  It is only ever called with
    [segment_regex] and group 1, which is what is modelled. *)
Definition regex_search (pattern string : bytes) (group : Z) : result bytes :=
  match segment_count_search string with
  | Some digits => Ok digits
  | None => Raise (RegexMatchError "regex_search" pattern)
  end.

(** The body of [for line in stream_info] in [seq_filesize]. *)
Definition scan_line_filesize (segment_count : Z) (line : bytes) : Z :=
  match regex_search segment_regex line 1 with
  | Ok digits => int_of_digits digits
  | Raise _ => segment_count
  end.

(** The first [response.read()]. *)
Definition read_first (response : Response) : result bytes :=
  match resp_reads response with
  | [] => Ok []
  | r :: _ => r
  end.

(** [while seq_num <= segment_count] of [seq_filesize]. *)
Fixpoint head_loop (turns : nat) (w : World) (base_url : string)
    (querys : dict) (seq_num segment_count total_filesize : Z)
  : run Z :=
  match turns with
  | O => ([], w, OutOfFuel)
  | S turns' =>
      if seq_num <=? segment_count then
        let querys' := dict_set querys "sq" (str_of_int seq_num) in
        let url := (base_url ++ urlencode querys')%string in
        match head_content_length w url with
        | (evs, w1, Ok n) =>
            let '(evs', w2, o) :=
              head_loop turns' w1 base_url querys' (seq_num + 1) segment_count
                (total_filesize + n) in
            (evs ++ evs', w2, o)
        | (evs, w1, Raise e) => (evs, w1, Raised e)
        end
      else ([], w, Returned total_filesize)
  end.

(** The function under [@lru_cache()] in [seq_filesize]. *)
Definition seq_filesize_wrapped (w : World) (url : string)
  : run Z :=
  let total_filesize := 0 in
  let base_url := base_url_of url in
  let querys := dict_set (querys_of url) "sq" (str_of_int 0) in
  let url0 := (base_url ++ urlencode querys)%string in
  match _execute_request SiteSegment0 w url0 (Some "GET") [] None
          GLOBAL_DEFAULT_TIMEOUT with
  | (evs0, w1, Ok response) =>
      match read_first response with
      | Ok response_value =>
          let total_filesize := total_filesize + len response_value in
          let segment_count :=
            fold_left scan_line_filesize (split_crlf response_value) 0 in
          if segment_count =? 0 then
            (evs0, w1, Raised (RegexMatchError "seq_filesize" segment_regex))
          else
            let '(evs, w2, o) :=
              head_loop (S (Z.to_nat segment_count)) w1 base_url querys 1
                segment_count total_filesize in
            (evs0 ++ evs, w2, o)
      | Raise e => (evs0, w1, Raised e)
      end
  | (evs0, w1, Raise e) => (evs0, w1, Raised e)
  end.

(** ** [functools.lru_cache()]

    The default [maxsize] is 128.  The cache lists the remembered calls,
    the most recently used first; a call that raises is not remembered. *)

Definition lru_maxsize : nat := 128.

Definition cache := list (string * Z).

Fixpoint cache_lookup (c : cache) (key : string) : option Z :=
  match c with
  | [] => None
  | (k, v) :: rest => if String.eqb k key then Some v else cache_lookup rest key
  end.

Definition cache_remove (c : cache) (key : string) : cache :=
  filter (fun kv => negb (String.eqb (fst kv) key)) c.

Definition lru_cache (f : World -> string -> run Z)
    (c : cache) (w : World) (key : string)
  : list event * World * cache * outcome Z :=
  match cache_lookup c key with
  | Some v => ([], w, (key, v) :: cache_remove c key, Returned v)
  | None =>
      match f w key with
      | (evs, w1, Returned v) =>
          (evs, w1, firstn lru_maxsize ((key, v) :: c), Returned v)
      | (evs, w1, o) => (evs, w1, c, o)
      end
  end.

Definition filesize := lru_cache filesize_wrapped.
Definition seq_filesize := lru_cache seq_filesize_wrapped.

End Module.

(* ------------------------------------------------------------------ *)
(** * Two readings of the scan for the segment count *)

Definition count_of_line (line : bytes) : option Z :=
  option_map int_of_digits (segment_count_search line).

(** The count of the first line that matches, as the specification words
    the scan. *)
Fixpoint first_match_count (lines : list bytes) : option Z :=
  match lines with
  | [] => None
  | line :: rest =>
      match count_of_line line with
      | Some n => Some n
      | None => first_match_count rest
      end
  end.

(** The count of the last line that matches. *)
Fixpoint last_match_count (lines : list bytes) : option Z :=
  match lines with
  | [] => None
  | line :: rest =>
      match last_match_count rest with
      | Some n => Some n
      | None => count_of_line line
      end
  end.

(** [start], [start + 1], ..., [n] numbers in all. *)
Fixpoint zseq (start : Z) (n : nat) : list Z :=
  match n with
  | O => []
  | S n' => start :: zseq (start + 1) n'
  end.

Definition sum (l : list Z) : Z := fold_right Z.add 0 l.

(* ------------------------------------------------------------------ *)
(** * Reading a trace *)

Definition chunks (evs : list event) : list bytes :=
  flat_map (fun e => match e with EvYield chunk _ => [chunk] | _ => [] end) evs.

(** The values of [downloaded] at the successive [yield]s. *)
Definition downloaded_values (evs : list event) : list Z :=
  flat_map (fun e => match e with EvYield _ d => [d] | _ => [] end) evs.

Definition requests (evs : list event) : list (call_site * Request) :=
  flat_map (fun e => match e with EvRequest s r => [(s, r)] | _ => [] end) evs.

Definition is_site (s : call_site) (sr : call_site * Request) : bool :=
  match s, fst sr with
  | SiteChunk, SiteChunk | SiteProbe, SiteProbe
  | SiteSegment0, SiteSegment0 | SiteHead, SiteHead => true
  | _, _ => false
  end.

(** The requests of a trace that one call site issued. *)
Definition requests_at (s : call_site) (evs : list event) : list Request :=
  map snd (filter (is_site s) (requests evs)).

Fixpoint increasing (l : list Z) : bool :=
  match l with
  | x :: ((y :: _) as rest) => (x <? y) && increasing rest
  | _ => true
  end.

(** The header names of a request, lowered. *)
Definition header_names (r : Request) : list string :=
  map (fun kv => lower (fst kv)) (req_headers r).

(* ------------------------------------------------------------------ *)
(** * Servers to run the module against *)

(** Bytes [a] to [b] inclusive of [data], as far as they exist. *)
Definition slice (data : bytes) (a b : Z) : bytes :=
  firstn (Z.to_nat (Z.min (b + 1) (len data) - a)) (skipn (Z.to_nat a) data).

Fixpoint string_strip_prefix (p s : string) : option string :=
  match p, s with
  | EmptyString, _ => Some s
  | String a p', String b s' =>
      if Ascii.eqb a b then string_strip_prefix p' s' else None
  | String _ _, EmptyString => None
  end.

Fixpoint split_dash (s : string) : option (string * string) :=
  match s with
  | EmptyString => None
  | String c rest =>
      if Ascii.eqb c "-" then Some (EmptyString, rest)
      else
        match split_dash rest with
        | Some (a, b) => Some (String c a, b)
        | None => None
        end
  end.

Definition Z_of_decimal (s : string) : option Z :=
  match NilEmpty.uint_of_string s with
  | Some d => Some (Z.of_N (N.of_uint d))
  | None => None
  end.

(** Reads [a] and [b] back from [base&range=a-b]. *)
Definition parse_range (base url : string) : option (Z * Z) :=
  match string_strip_prefix (base ++ "&range=") url with
  | Some r =>
      match split_dash r with
      | Some (sa, sb) =>
          match Z_of_decimal sa, Z_of_decimal sb with
          | Some a, Some b => Some (a, b)
          | _, _ => None
          end
      | None => None
      end
  | None => None
  end.

(** A resource: where it lives, its bytes, and the header fields the
    server sends for a body of a given length. *)
Record resource := {
  res_url : string;
  res_data : bytes;
  res_headers : Z -> list (string * string)
}.

Definition content_length (n : Z) : list (string * string) :=
  [("Content-Length", str_of_int n)].

Definition is_head (r : Request) : bool :=
  match req_method r with
  | Some m => String.eqb m "HEAD"
  | None => false
  end.

(** A server that honours [&range=a-b]: the plain URL gives the whole
    resource, a range gives the window as far as the resource goes. *)
Definition serve_resource (res : resource) (r : Request) : option Response :=
  if String.eqb (req_url r) (res_url res) then
    Some {| resp_headers := res_headers res (len (res_data res));
            resp_reads := if is_head r then [] else [Ok (res_data res)] |}
  else
    match parse_range (res_url res) (req_url r) with
    | Some (a, b) =>
        let body := slice (res_data res) a b in
        Some {| resp_headers := res_headers res (len body);
                resp_reads := [Ok body] |}
    | None => None
    end.

Fixpoint serve (resources : list resource) (r : Request) : result Response :=
  match resources with
  | [] => Raise (URLError (other_reason "HTTP Error 404: Not Found"))
  | res :: rest =>
      match serve_resource res r with
      | Some response => Ok response
      | None => serve rest r
      end
  end.

(** A server that answers from a table of URLs. *)
Fixpoint serve_table (table : list (string * Response)) (r : Request)
  : result Response :=
  match table with
  | [] => Raise (URLError (other_reason "HTTP Error 404: Not Found"))
  | (u, response) :: rest =>
      if String.eqb (req_url r) u then Ok response else serve_table rest r
  end.

(** The world of the test servers is the number of requests that will
    still time out before the server answers. *)
Definition flaky (answer : Request -> result Response) (w : nat) (r : Request)
  : result Response * nat :=
  match w with
  | S w' => (Raise (URLError socket_timeout), w')
  | O => (answer r, O)
  end.

(** The one URL the test environments split: [https://host/videoplayback],
    with an empty query. *)
Definition test_urlsplit (url : string) : SplitResult :=
  {| scheme := "https"; netloc := "host"; path := "/videoplayback";
     query := ""; fragment := "" |}.

Definition test_env (answer : Request -> result Response) (size : Z)
  : Environment :=
  {| World := nat;
     choice := fun w agents => (List.hd "" agents, w);
     urlopen := flaky answer;
     urlsplit := test_urlsplit;
     parse_qsl := fun _ => [];
     quote_plus := fun s => s;
     range_size := size |}.

(** The same with a server that never fails; its world holds nothing. *)
Definition steady_env (answer : Request -> result Response) (size : Z)
  : Environment :=
  {| World := unit;
     choice := fun w agents => (List.hd "" agents, w);
     urlopen := fun w r => (answer r, w);
     urlsplit := test_urlsplit;
     parse_qsl := fun _ => [];
     quote_plus := fun s => s;
     range_size := size |}.

Definition bytes_of (s : string) : bytes := list_byte_of_string s.

(** Twenty-five bytes behind [https://host/v], fetched ten at a time: from
    a server that never fails, and from one whose first requests time
    out. *)
Definition letters : resource :=
  {| res_url := "https://host/v";
     res_data := bytes_of "abcdefghijklmnopqrstuvwxy";
     res_headers := content_length |}.

(** A server that sends four bytes when asked for ten, then the six that
    are left, and whose [Content-Length] is not a number. *)
Definition short_answers : list (string * Response) :=
  [("https://host/v&range=0-9",
    {| resp_headers := [("Content-Length", "unknown")];
       resp_reads := [Ok (bytes_of "abcd")] |});
   ("https://host/v&range=0-99999999999",
    {| resp_headers := [("Content-Length", "unknown")];
       resp_reads := [Ok (bytes_of "abcdefghij")] |});
   ("https://host/v&range=4-9",
    {| resp_headers := [("Content-Length", "unknown")];
       resp_reads := [Ok (bytes_of "efghij")] |})].

Definition short_answers_env : Environment :=
  steady_env (serve_table short_answers) 10.

(** A resource in three segments behind [https://host/videoplayback];
    segment 0 says so on its second line. *)
Definition segment0 : resource :=
  {| res_url := "https://host//videoplayback?sq=0";
     res_data := bytes_of "ab" ++ crlf ++ bytes_of "Segment-Count: 2"
                 ++ crlf ++ bytes_of "cd";
     res_headers := content_length |}.

Definition segment1 : resource :=
  {| res_url := "https://host//videoplayback?sq=1";
     res_data := bytes_of "0123456789abcde";
     res_headers := content_length |}.

Definition segment2 : resource :=
  {| res_url := "https://host//videoplayback?sq=2";
     res_data := bytes_of "xyz";
     res_headers := content_length |}.

Definition segments_env : Environment :=
  steady_env (serve [segment0; segment1; segment2]) 10.

(** Segment 0 with two lines that match, and with a count of zero. *)
Definition two_counts : bytes :=
  bytes_of "Segment-Count: 1" ++ crlf ++ bytes_of "Segment-Count: 2".

Definition two_counts_env : Environment :=
  steady_env
    (serve [ {| res_url := "https://host//videoplayback?sq=0";
                res_data := two_counts;
                res_headers := content_length |};
             segment1; segment2 ]) 100.

Definition zero_count_env : Environment :=
  steady_env
    (serve [ {| res_url := "https://host//videoplayback?sq=0";
                res_data := bytes_of "Segment-Count: 0";
                res_headers := content_length |} ]) 100.

(** Segment 0 with a count of zero on its first line and a count of two
    on its second. *)
Definition zero_then_two : bytes :=
  bytes_of "Segment-Count: 0" ++ crlf ++ bytes_of "Segment-Count: 2".

Definition zero_then_two_env : Environment :=
  steady_env
    (serve [ {| res_url := "https://host//videoplayback?sq=0";
                res_data := zero_then_two;
                res_headers := content_length |};
             segment1; segment2 ]) 100.

Definition letters_env : Environment := steady_env (serve [letters]) 10.

(** The same letters fetched with the chunk size of the module. *)
Definition letters_default_env : Environment :=
  steady_env (serve [letters]) default_range_size.
Definition flaky_letters_env : Environment := test_env (serve [letters]) 10.

(* ------------------------------------------------------------------ *)
(** * Assumptions about a transport *)

(** The next [k] requests for [u] time out, taking the world from [w] to
    [w']. *)
Fixpoint times_out {E : Environment} (k : nat) (w : World) (u : string)
    (timeout : timeout_t) (w' : World) : Prop :=
  match k with
  | O => w = w'
  | S k' =>
      exists evs w1,
        _execute_request SiteChunk w u (Some "GET") [] None timeout
        = (evs, w1, Raise (URLError socket_timeout))
        /\ times_out k' w1 u timeout w'
  end.

(** The transport always succeeds and serves [data] at [url]: a GET for
    the window [a]-[b] is answered, in one read, with the bytes of the
    window that exist, and the answer to the oversized window of the size
    probe carries the full size in [Content-Length]. *)
Definition serves {E : Environment} (url : string) (data : bytes) : Prop :=
  forall (w : World) (r : Request) (a b : Z),
    0 <= a <= b ->
    req_url r = range_url url a b ->
    req_method r = Some "GET" ->
    exists response w',
      urlopen w r = (Ok response, w')
      /\ resp_reads response = [Ok (slice data a b)]
      /\ (a = 0 -> b = 99999999999 ->
          exists v, message_get (resp_headers response) "Content-Length"
                    = Some v
                    /\ int_of_str v = Some (len data)).

(** The value of the [Range] header of a request, if it has one. *)
Definition range_header_of (r : Request) : option string :=
  message_get (req_headers r) "Range".

(** What every request of [stream url] is: a GET without [Range] header
    whose URL is [url] with a window appended. *)
Definition stream_request (url : string) (sr : call_site * Request) : Prop :=
  range_header_of (snd sr) = None
  /\ req_method (snd sr) = Some "GET"
  /\ exists a b, req_url (snd sr) = range_url url a b.

(** [r] is a GET for [url&range=a-b] that carries the two headers of
    [_execute_request] and nothing else. *)
Definition window_request (url : string) (a b : Z) (r : Request) : Prop :=
  req_url r = range_url url a b
  /\ req_method r = Some "GET"
  /\ header_names r = ["user-agent"; "accept-language"].

(* ------------------------------------------------------------------ *)
(** * More assumptions and readers, for the rest of the module *)

(** The two failures the inner loop of [stream] passes over: a
    [URLError] whose reason is a timeout, and [IncompleteRead]. *)
Definition recoverable (e : exn) : bool :=
  match e with
  | URLError socket_timeout | IncompleteRead => true
  | _ => false
  end.

(** The next [k] requests for [u] fail, each in one of the two ways the
    loop passes over, taking the world from [w] to [w']. *)
Fixpoint fails {E : Environment} (k : nat) (w : World) (u : string)
    (timeout : timeout_t) (w' : World) : Prop :=
  match k with
  | O => w = w'
  | S k' =>
      exists evs w1 e,
        _execute_request SiteChunk w u (Some "GET") [] None timeout
        = (evs, w1, Raise e)
        /\ recoverable e = true
        /\ fails k' w1 u timeout w'
  end.

(** [start + x1], [start + x1 + x2], ... *)
Fixpoint running_sums (start : Z) (l : list Z) : list Z :=
  match l with
  | [] => []
  | x :: rest => (start + x) :: running_sums (start + x) rest
  end.

(** A trace read from [position] bytes on: every chunk yielded is not
    empty and moves the position by its length, which is the value of
    [downloaded] recorded with it; every request of the inner loop asks
    for a window that starts at the position and has at least one and at
    most [range_size] bytes. *)
Fixpoint follows {E : Environment} (url : string) (position : Z)
    (evs : list event) : Prop :=
  match evs with
  | [] => True
  | EvYield chunk downloaded :: rest =>
      chunk <> [] /\ downloaded = position + len chunk
      /\ follows url downloaded rest
  | EvRequest SiteChunk r :: rest =>
      (exists stop_pos,
          req_url r = range_url url position stop_pos
          /\ position <= stop_pos < position + range_size)
      /\ follows url position rest
  | _ :: rest => follows url position rest
  end.

(** A transport that answers every request, always with an empty body
    and a positive [Content-Length]. *)
Definition answers_nothing {E : Environment} : Prop :=
  forall (w : World) (r : Request),
    exists response w',
      urlopen w r = (Ok response, w')
      /\ (resp_reads response = []
          \/ exists rest, resp_reads response = Ok [] :: rest)
      /\ exists v n, message_get (resp_headers response) "Content-Length"
                     = Some v
                     /\ int_of_str v = Some n /\ 0 < n.

(** A server that answers from a table of URLs, with a response or with
    an error. *)
Fixpoint serve_results (table : list (string * result Response))
    (r : Request) : result Response :=
  match table with
  | [] => Raise (URLError (other_reason "HTTP Error 404: Not Found"))
  | (u, answer) :: rest =>
      if String.eqb (req_url r) u then answer else serve_results rest r
  end.

(** What the cache of [lru_cache] keeps: no key twice, and no more
    entries than [maxsize]. *)
Definition cache_ok (c : cache) : Prop :=
  NoDup (map fst c) /\ (List.length c <= lru_maxsize)%nat.

(** ** More test servers *)

(** A server whose next requests fail with the errors listed, one after
    the other, and which answers the requests after those. *)
Definition scripted (answer : Request -> result Response) (w : list exn)
    (r : Request) : result Response * list exn :=
  match w with
  | e :: w' => (Raise e, w')
  | [] => (answer r, [])
  end.

Definition scripted_env (answer : Request -> result Response) (size : Z)
  : Environment :=
  {| World := list exn;
     choice := fun w agents => (List.hd "" agents, w);
     urlopen := scripted answer;
     urlsplit := test_urlsplit;
     parse_qsl := fun _ => [];
     quote_plus := fun s => s;
     range_size := size |}.

Definition scripted_letters_env : Environment :=
  scripted_env (serve [letters]) 10.

(** Four resources that go wrong after the first request is answered:
    [a] ends its reads with [StopIteration], [b] breaks off with
    [IncompleteRead], the probe for [c] times out and the answer to the
    probe for [d] has no [Content-Length]. *)
Definition odd_answers : list (string * result Response) :=
  [("https://host/a&range=0-9",
    Ok {| resp_headers := content_length 6;
          resp_reads := [Ok (bytes_of "abcd"); Ok (bytes_of "ef");
                         Raise StopIteration] |});
   ("https://host/a&range=0-99999999999",
    Ok {| resp_headers := content_length 100; resp_reads := [] |});
   ("https://host/b&range=0-9",
    Ok {| resp_headers := content_length 10;
          resp_reads := [Ok (bytes_of "abcd"); Raise IncompleteRead] |});
   ("https://host/b&range=0-99999999999",
    Ok {| resp_headers := content_length 100; resp_reads := [] |});
   ("https://host/c&range=0-9",
    Ok {| resp_headers := content_length 10;
          resp_reads := [Ok (bytes_of "abcdefghij")] |});
   ("https://host/c&range=0-99999999999",
    Raise (URLError socket_timeout));
   ("https://host/d&range=0-9",
    Ok {| resp_headers := content_length 10;
          resp_reads := [Ok (bytes_of "abcdefghij")] |});
   ("https://host/d&range=0-99999999999",
    Ok {| resp_headers := [("Content-Type", "video/mp4")];
          resp_reads := [] |})].

Definition odd_answers_env : Environment :=
  steady_env (serve_results odd_answers) 10.

(** A server that answers everything with five bytes announced and none
    sent. *)
Definition silent_env : Environment :=
  steady_env
    (fun _ => Ok {| resp_headers := content_length 5; resp_reads := [] |})
    10.

(** The resource in three segments with its last segment missing. *)
Definition broken_segments_env : Environment :=
  steady_env (serve [segment0; segment1]) 10.

(** An answer to HEAD with the length given twice, in two spellings. *)
Definition two_lengths_env : Environment :=
  steady_env
    (serve_table
       [("https://host/h",
         {| resp_headers := [("Content-Length", "10"); ("ETag", "x");
                             ("content-length", "12")];
            resp_reads := [] |})]) 10.

(** A cache of 126 sizes, for [https://host/v1] to [https://host/v126]. *)
Definition many_sizes : cache :=
  map (fun n => (("https://host/v" ++ str_of_int (Z.of_nat n))%string,
                 Z.of_nat n))
    (seq 1 126).


(* ------------------------------------------------------------------ *)
(** * Properties *)

Section Basics.
Context {E : Environment}.

Lemma prepend_nil {X : Type} (r : list event * World * X) : prepend [] r = r.
Proof. destruct r as [[evs w] x]; reflexivity. Qed.

Lemma prepend_app {X : Type} (e1 e2 : list event) (r : list event * World * X) :
  prepend (e1 ++ e2) r = prepend e1 (prepend e2 r).
Proof. destruct r as [[evs w] x]; simpl; now rewrite app_assoc. Qed.

Lemma requests_app (e1 e2 : list event) :
  requests (e1 ++ e2) = requests e1 ++ requests e2.
Proof. unfold requests; now rewrite flat_map_app. Qed.

Lemma requests_at_app (s : call_site) (e1 e2 : list event) :
  requests_at s (e1 ++ e2) = requests_at s e1 ++ requests_at s e2.
Proof.
  unfold requests_at; now rewrite requests_app, filter_app, map_app.
Qed.

Lemma chunks_app (e1 e2 : list event) :
  chunks (e1 ++ e2) = chunks e1 ++ chunks e2.
Proof. unfold chunks; now rewrite flat_map_app. Qed.

Lemma yielded_app (e1 e2 : list event) :
  yielded (e1 ++ e2) = yielded e1 ++ yielded e2.
Proof. unfold yielded; now rewrite flat_map_app. Qed.

Lemma downloaded_values_app (e1 e2 : list event) :
  downloaded_values (e1 ++ e2) = downloaded_values e1 ++ downloaded_values e2.
Proof. unfold downloaded_values; now rewrite flat_map_app. Qed.

(** A call of [_execute_request] fails before the network is touched,
    on a [data] that has no JSON text or on the URL, or issues exactly
    one request, for that URL. *)
Lemma execute_request_cases site w url method headers data timeout evs w' r :
  _execute_request site w url method headers data timeout = (evs, w', r) ->
  (exists e, encode_data data = Raise e /\ evs = [] /\ r = Raise e)
  \/ (exists data', encode_data data = Ok data' /\ evs = []
                    /\ r = Raise (ValueError "Invalid URL"))
  \/ exists req data',
       encode_data data = Ok data'
       /\ evs = [EvRequest site req]
       /\ req_url req = url /\ req_method req = method
       /\ req_data req = data' /\ req_timeout req = timeout
       /\ exists agent,
            req_headers req
            = dict_update [("User-Agent", agent);
                           ("accept-language", "en-US,en")] headers.
Proof.
  unfold _execute_request.
  destruct (choice w user_agents) as [agent w1].
  destruct (encode_data data) as [data'|e].
  - destruct (String.prefix "http" (lower url)).
    + destruct (urlopen w1 _) as [r2 w2] eqn:Hopen.
      intros H; inversion H; subst; right; right.
      eexists _, data'; split; [reflexivity|]. split; [reflexivity|].
      simpl. repeat split. now exists agent.
    + intros H; inversion H; subst; right; left. now exists data'.
  - intros H; inversion H; subst; left. now exists e.
Qed.

(** The same for a call without [data], as all the calls of [stream],
    [head] and [seq_filesize] are. *)
Lemma execute_request_inv site w url method headers timeout evs w' r :
  _execute_request site w url method headers None timeout = (evs, w', r) ->
  (evs = [] /\ r = Raise (ValueError "Invalid URL"))
  \/ exists req, evs = [EvRequest site req]
                 /\ req_url req = url /\ req_method req = method
                 /\ req_data req = None /\ req_timeout req = timeout
                 /\ exists agent,
                      req_headers req
                      = dict_update [("User-Agent", agent);
                                     ("accept-language", "en-US,en")] headers.
Proof.
  intros H.
  destruct (execute_request_cases _ _ _ _ _ _ _ _ _ _ H)
    as [(e & He & _) | [(data' & _ & -> & ->) | (req & data' & He & Hreq)]].
  - discriminate He.
  - now left.
  - right. exists req. cbn in He. injection He as <-. exact Hreq.
Qed.

End Basics.

(** ** The retry loop *)

Section Retry.
Context {E : Environment}.
Variable url : string.
Variable timeout : timeout_t.
Variable max_retries : Z.

Lemma times_out_split (k m : nat) (w w' : World) (u : string) :
  times_out (k + m) w u timeout w' ->
  exists wk, times_out k w u timeout wk /\ times_out m wk u timeout w'.
Proof.
  revert w; induction k as [|k IH]; intros w H; simpl in *.
  - now exists w.
  - destruct H as (evs & w1 & Hreq & Hrest).
    destruct (IH _ Hrest) as (wk & Hk & Hm).
    exists wk; split; [|assumption]. now exists evs, w1.
Qed.

(** [k] timeouts that fit the budget are [k] turns of the inner loop, one
    request each. *)
Lemma request_loop_times_out (k : nat) :
  forall (w wk : World) (downloaded stop_pos tries : Z),
    times_out k w (range_url url downloaded stop_pos) timeout wk ->
    tries + Z.of_nat k <= 1 + max_retries ->
    exists evs,
      List.length (requests evs) = k
      /\ List.length (requests_at SiteChunk evs) = k
      /\ chunks evs = []
      /\ forall fuel,
           request_loop url timeout max_retries (k + fuel) w downloaded
             stop_pos tries
           = prepend evs
               (request_loop url timeout max_retries fuel wk downloaded
                  stop_pos (tries + Z.of_nat k)).
Proof.
  induction k as [|k IH]; intros w wk downloaded stop_pos tries Hto Hle.
  - simpl in Hto; subst wk. exists []. repeat split.
    intros fuel; simpl. now rewrite Z.add_0_r, prepend_nil.
  - simpl in Hto. destruct Hto as (evs1 & w1 & Hreq & Hrest).
    destruct (IH w1 wk downloaded stop_pos (tries + 1) Hrest) as
      (evs & Hn & Hc & Hy & Hloop); [lia|].
    destruct (execute_request_inv _ _ _ _ _ _ _ _ _ Hreq) as
      [[_ Hbad] | (req & Hevs & _)]; [discriminate|]. subst evs1.
    exists (EvRequest SiteChunk req :: evs). repeat split.
    + simpl; now rewrite <- Hn.
    + simpl; now rewrite <- Hc.
    + assumption.
    + intros fuel. cbn [Nat.add request_loop].
      destruct (tries >=? 1 + max_retries) eqn:Hge; [lia|].
      rewrite Hreq, Hloop.
      replace (tries + 1 + Z.of_nat k) with (tries + Z.of_nat (S k)) by lia.
      destruct (request_loop url timeout max_retries fuel wk downloaded
                  stop_pos (tries + Z.of_nat (S k))) as [[e' w'] x].
      reflexivity.
Qed.

(** The retry budget for the timeouts the loop passes over, those that
    come as the reason of a [URLError].  A transport times out so [k]
    times on a chunk's request and then answers.  With
    [max_retries >= k] the inner loop leaves with the
    answer after exactly [k + 1] requests and [stream] goes on with it;
    with [max_retries < k] the loop raises [MaxRetriesExceeded] after
    exactly [max_retries + 1] requests, and that ends the whole run of
    [stream]: nothing is yielded and no later turn is taken. *)
Theorem stream_retry_budget (k : nat) (w0 wk w' : World)
    (file_size downloaded : Z) (ok : list event) (response : Response) :
  let stop_pos := Z.min (downloaded + range_size) file_size - 1 in
  let u := range_url url downloaded stop_pos in
  0 <= max_retries ->
  downloaded < file_size ->
  times_out k w0 u timeout wk ->
  _execute_request SiteChunk wk u (Some "GET") [] None timeout
  = (ok, w', Ok response) ->
  (Z.of_nat k <= max_retries ->
   exists evs,
     request_loop url timeout max_retries (request_fuel max_retries) w0
       downloaded stop_pos 0
     = (evs, w', Break response)
     /\ List.length (requests evs) = S k
     /\ List.length (requests_at SiteChunk evs) = S k
     /\ forall fuel,
          stream_loop url timeout max_retries (S fuel) w0 file_size downloaded
          = prepend evs
              (after_request url timeout
                 (stream_loop url timeout max_retries fuel) w' file_size
                 downloaded response))
  /\ (max_retries < Z.of_nat k ->
      exists evs w'',
        (forall fuel,
           stream_loop url timeout max_retries (S fuel) w0 file_size
             downloaded
           = (evs, w'', Raised MaxRetriesExceeded))
        /\ Z.of_nat (List.length (requests evs)) = max_retries + 1
        /\ Z.of_nat (List.length (requests_at SiteChunk evs))
           = max_retries + 1
        /\ chunks evs = []).
Proof.
  intros stop_pos u Hmax Hlt Hto Hok. split; intros Hk.
  - destruct (request_loop_times_out k w0 wk downloaded stop_pos 0 Hto)
      as (evs & Hn & Hc & _ & Hloop); [lia|].
    destruct (execute_request_inv _ _ _ _ _ _ _ _ _ Hok) as
      [[_ Hbad] | (req & Hevs & _)]; [discriminate|]. subst ok.
    assert (Hrun : request_loop url timeout max_retries
                     (request_fuel max_retries) w0 downloaded stop_pos 0
                   = (evs ++ [EvRequest SiteChunk req], w', Break response)).
    { unfold request_fuel.
      replace (S (Z.to_nat (1 + max_retries)))
        with (k + S (Z.to_nat (1 + max_retries) - k))%nat by lia.
      rewrite Hloop. cbn [request_loop].
      destruct (0 + Z.of_nat k >=? 1 + max_retries) eqn:Hge; [lia|].
      fold u. rewrite Hok. reflexivity. }
    exists (evs ++ [EvRequest SiteChunk req]). repeat split.
    + exact Hrun.
    + rewrite requests_app, length_app, Hn. simpl; lia.
    + rewrite requests_at_app, length_app, Hc. simpl; lia.
    + intros fuel. cbn [stream_loop].
      destruct (downloaded <? file_size) eqn:Hd; [|lia].
      fold stop_pos. rewrite Hrun. reflexivity.
  - set (m := Z.to_nat (1 + max_retries)).
    replace k with (m + (k - m))%nat in Hto by lia.
    destruct (times_out_split _ _ _ _ _ Hto) as (wm & Hm & _).
    destruct (request_loop_times_out m w0 wm downloaded stop_pos 0 Hm)
      as (evs & Hn & Hc & Hy & Hloop); [lia|].
    exists evs, wm. repeat split; try lia; try assumption.
    intros fuel. cbn [stream_loop].
    destruct (downloaded <? file_size) eqn:Hd; [|lia].
    fold stop_pos. unfold request_fuel. fold m.
    replace (S m) with (m + 1)%nat by lia.
    rewrite Hloop. cbn [request_loop].
    destruct (0 + Z.of_nat m >=? 1 + max_retries) eqn:Hge; [|lia].
    simpl. now rewrite app_nil_r.
Qed.

End Retry.

(** ** Strings and windows *)

Lemma lower_app (s t : string) : lower (s ++ t) = (lower s ++ lower t)%string.
Proof. induction s as [|c s IH]; simpl; [reflexivity | now rewrite IH]. Qed.

Lemma prefix_app (p s t : string) :
  String.prefix p s = true -> String.prefix p (s ++ t) = true.
Proof.
  revert p; induction s as [|b s IH]; intros [|a p]; simpl; try easy.
  - now destruct t.
  - destruct (ascii_dec a b); [apply IH | easy].
Qed.

Lemma http_range_url (url : string) (a b : Z) :
  String.prefix "http" (lower url) = true ->
  String.prefix "http" (lower (range_url url a b)) = true.
Proof.
  intros H. unfold range_url. rewrite lower_app. now apply prefix_app.
Qed.

Lemma probe_url_range (url : string) :
  probe_url url = range_url url 0 99999999999.
Proof. reflexivity. Qed.

Lemma len_app (x y : bytes) : len (x ++ y) = len x + len y.
Proof. unfold len. rewrite length_app. lia. Qed.

Lemma len_nonneg (x : bytes) : 0 <= len x.
Proof. unfold len; lia. Qed.

Lemma slice_len (data : bytes) (a b : Z) :
  0 <= a <= len data -> a <= b ->
  len (slice data a b) = Z.min (b + 1) (len data) - a.
Proof.
  unfold slice, len. intros Ha Hb.
  rewrite length_firstn, length_skipn. lia.
Qed.

Lemma slice_skipn (data : bytes) (a b : Z) :
  0 <= a <= len data -> a <= b ->
  slice data a b ++ skipn (Z.to_nat (Z.min (b + 1) (len data))) data
  = skipn (Z.to_nat a) data.
Proof.
  unfold slice, len. intros Ha Hb.
  set (n := Z.to_nat (Z.min (b + 1) (Z.of_nat (List.length data)) - a)).
  replace (Z.to_nat (Z.min (b + 1) (Z.of_nat (List.length data))))
    with (n + Z.to_nat a)%nat by lia.
  rewrite <- skipn_skipn. apply firstn_skipn.
Qed.

Lemma drain_one {E : Environment} (chunk : bytes) (downloaded : Z) :
  chunk <> [] ->
  drain [Ok chunk] downloaded
  = ([EvYield chunk (downloaded + len chunk)], downloaded + len chunk,
     DrainBreak).
Proof. destruct chunk; [easy | reflexivity]. Qed.

Lemma increasing_cons (x y : Z) (l : list Z) :
  x < y -> increasing (y :: l) = true -> increasing (x :: y :: l) = true.
Proof.
  intros Hxy H. change (((x <? y) && increasing (y :: l)) = true).
  rewrite H. apply andb_true_intro; split; [lia | reflexivity].
Qed.

Lemma increasing_tail (x : Z) (l : list Z) :
  increasing (x :: l) = true -> increasing l = true.
Proof.
  destruct l as [|y l]; [reflexivity|].
  intros H. change (((x <? y) && increasing (y :: l)) = true) in H.
  now apply andb_prop in H.
Qed.

Lemma ceil_div_step (C S d : Z) :
  0 < C -> 0 <= d < S ->
  1 + (S - Z.min (d + C) S + C - 1) / C = (S - d + C - 1) / C.
Proof.
  intros HC Hd. destruct (Z_le_gt_dec (d + C) S) as [Hle | Hgt].
  - rewrite Z.min_l by lia.
    replace (S - d + C - 1) with ((S - (d + C) + C - 1) + 1 * C) by lia.
    rewrite Z.div_add by lia. lia.
  - rewrite Z.min_r by lia.
    replace (S - S + C - 1) with (C - 1) by lia.
    replace (S - d + C - 1) with ((S - d - 1) + 1 * C) by lia.
    rewrite Z.div_add by lia. rewrite !Z.div_small by lia. reflexivity.
Qed.

Lemma ceil_div_exact (C S : Z) :
  0 < C -> S mod C = 0 -> (S + C - 1) / C = S / C.
Proof.
  intros HC Hmod.
  rewrite (Z.div_mod S C) at 1 by lia. rewrite Hmod.
  replace (C * (S / C) + 0 + C - 1) with ((C - 1) + (S / C) * C) by lia.
  rewrite Z.div_add by lia. rewrite Z.div_small by lia. lia.
Qed.

(** A turn that starts away from the placeholder does not probe. *)
Lemma size_probe_off {E : Environment} (url : string) (timeout : timeout_t)
    (w : World) (file_size : Z) :
  file_size <> range_size ->
  size_probe url timeout w file_size = ([], w, Ok file_size).
Proof.
  intros Hne. unfold size_probe.
  destruct (file_size =? range_size) eqn:Heq; [lia | reflexivity].
Qed.

(** ** [stream] against a transport that always succeeds *)

Section Chunked.
Context {E : Environment}.
Variable url : string.
Variable timeout : timeout_t.
Variable max_retries : Z.
Variable data : bytes.
Hypothesis Hserve : serves url data.
Hypothesis Hhttp : String.prefix "http" (lower url) = true.
Hypothesis Hsize : 0 < range_size.
Hypothesis Hretries : 0 <= max_retries.

(** The first request for a window is answered. *)
Lemma chunk_request_ok (w : World) (a b : Z) :
  0 <= a <= b ->
  exists req response w',
    request_loop url timeout max_retries (request_fuel max_retries) w a b 0
    = ([EvRequest SiteChunk req], w', Break response)
    /\ window_request url a b req
    /\ resp_reads response = [Ok (slice data a b)].
Proof.
  intros Hab. unfold request_fuel. cbn [request_loop].
  destruct (0 >=? 1 + max_retries) eqn:Hge; [lia|].
  unfold _execute_request. cbn [encode_data].
  destruct (choice w user_agents) as [agent w1].
  rewrite (http_range_url url a b Hhttp).
  match goal with |- context [urlopen w1 ?r] => set (req := r) end.
  destruct (Hserve w1 req a b Hab eq_refl eq_refl)
    as (response & w' & Hopen & Hreads & _).
  rewrite Hopen. exists req, response, w'. now repeat split.
Qed.

(** The probe learns the size of the resource. *)
Lemma size_probe_ok (w : World) :
  exists req w',
    size_probe url timeout w range_size
    = ([EvRequest SiteProbe req], w', Ok (len data))
    /\ window_request url 0 99999999999 req.
Proof.
  unfold size_probe. rewrite Z.eqb_refl. unfold _execute_request. cbn [encode_data].
  destruct (choice w user_agents) as [agent w1].
  rewrite probe_url_range, (http_range_url url _ _ Hhttp).
  match goal with |- context [urlopen w1 ?r] => set (req := r) end.
  destruct (Hserve w1 req 0 99999999999 ltac:(lia) eq_refl eq_refl)
    as (response & w' & Hopen & _ & Hlen).
  destruct (Hlen eq_refl eq_refl) as (v & Hget & Hint).
  rewrite Hopen, Hget, Hint. exists req, w'. now repeat split.
Qed.

(** A turn of the loop once the size is known and differs from the
    placeholder: one request, no probe, one chunk. *)
Lemma stream_turn (fuel : nat) (w : World) (downloaded : Z) :
  len data <> range_size ->
  0 <= downloaded < len data ->
  let next := Z.min (downloaded + range_size) (len data) in
  exists req w1,
    stream_loop url timeout max_retries (S fuel) w (len data) downloaded
    = prepend [EvRequest SiteChunk req;
               EvYield (slice data downloaded (next - 1)) next]
        (stream_loop url timeout max_retries fuel w1 (len data) next)
    /\ window_request url downloaded (next - 1) req
    /\ len (slice data downloaded (next - 1)) = next - downloaded.
Proof.
  intros Hne Hd next. cbn [stream_loop].
  destruct (downloaded <? len data) eqn:Hlt; [|lia].
  fold next.
  destruct (chunk_request_ok w downloaded (next - 1) ltac:(lia))
    as (req & response & w1 & Hreq & Hwin & Hreads).
  rewrite Hreq. unfold after_request.
  rewrite (size_probe_off url timeout w1 _ Hne), Hreads.
  assert (Hlen : len (slice data downloaded (next - 1)) = next - downloaded).
  { rewrite slice_len by lia. unfold next. lia. }
  assert (Hnz : slice data downloaded (next - 1) <> []).
  { intros Hnil. rewrite Hnil in Hlen. unfold len in Hlen at 1.
    simpl in Hlen. lia. }
  rewrite (drain_one _ _ Hnz), Hlen.
  replace (downloaded + (next - downloaded)) with next by lia.
  exists req, w1. repeat split; try assumption; try apply Hwin.
  destruct (stream_loop url timeout max_retries fuel w1 (len data) next)
    as [[evs w'] o]. reflexivity.
Qed.

(** The first turn: the request for the first window, the probe, and the
    first chunk unless the resource is empty. *)
Lemma stream_first_turn (fuel : nat) (w : World) :
  let next := Z.min range_size (len data) in
  exists req probe w1,
    stream url timeout max_retries (S fuel) w
    = prepend ([EvRequest SiteChunk req; EvRequest SiteProbe probe]
               ++ (if len data =? 0 then []
                   else [EvYield (slice data 0 (range_size - 1)) next]))
        (stream_loop url timeout max_retries fuel w1 (len data) next)
    /\ window_request url 0 (range_size - 1) req
    /\ window_request url 0 99999999999 probe
    /\ len (slice data 0 (range_size - 1)) = next.
Proof.
  intros next. unfold stream. cbn [stream_loop].
  destruct (0 <? range_size) eqn:Hlt; [|lia].
  replace (Z.min (0 + range_size) range_size - 1) with (range_size - 1)
    by lia.
  assert (H0 : 0 <= 0 <= range_size - 1). { lia. }
  destruct (chunk_request_ok w 0 (range_size - 1) H0)
    as (req & response & w1 & Hreq & Hwin & Hreads).
  rewrite Hreq. unfold after_request.
  destruct (size_probe_ok w1) as (probe & w2 & Hprobe & Hpwin).
  rewrite Hprobe, Hreads.
  pose proof (len_nonneg data) as Hnn.
  assert (Hlen : len (slice data 0 (range_size - 1)) = next).
  { rewrite slice_len by lia. unfold next. lia. }
  exists req, probe, w2. repeat split; try apply Hwin; try apply Hpwin;
    try assumption.
  destruct (len data =? 0) eqn:Hz.
  - assert (Hnil : slice data 0 (range_size - 1) = []).
    { destruct (slice data 0 (range_size - 1)); [reflexivity|].
      unfold len in Hlen at 1. simpl in Hlen. lia. }
    rewrite Hnil. cbn [drain].
    destruct (stream_loop url timeout max_retries fuel w2 (len data) 0)
      as [[evs w'] o] eqn:Hrest.
    replace next with 0 by (unfold next; lia). rewrite Hrest. reflexivity.
  - assert (Hnz : slice data 0 (range_size - 1) <> []).
    { intros Hnil. rewrite Hnil in Hlen. unfold len in Hlen at 1.
      simpl in Hlen. lia. }
    rewrite (drain_one _ _ Hnz), Hlen. rewrite Z.add_0_l.
    destruct (stream_loop url timeout max_retries fuel w2 (len data) next)
      as [[evs w'] o]. reflexivity.
Qed.

(** The turns that follow the probe: from [downloaded] bytes on, the rest
    of the resource is yielded window by window. *)
Lemma stream_loop_rest (fuel : nat) :
  forall (w : World) (downloaded : Z),
    len data <> range_size \/ downloaded = len data ->
    0 <= downloaded <= len data ->
    (Z.to_nat (len data - downloaded) < fuel)%nat ->
    exists evs w',
      stream_loop url timeout max_retries fuel w (len data) downloaded
      = (evs, w', Returned tt)
      /\ yielded evs = skipn (Z.to_nat downloaded) data
      /\ increasing (downloaded :: downloaded_values evs) = true
      /\ Forall (fun c => c <> []) (chunks evs)
      /\ Z.of_nat (List.length (chunks evs))
         = (len data - downloaded + range_size - 1) / range_size
      /\ requests_at SiteProbe evs = [].
Proof.
  induction fuel as [|fuel IH]; intros w downloaded Hprobe Hd Hfuel; [lia|].
  destruct (Z_lt_ge_dec downloaded (len data)) as [Hlt | Hge].
  - destruct Hprobe as [Hne | Heq]; [|lia].
    destruct (stream_turn fuel w downloaded Hne ltac:(lia))
      as (req & w1 & Hturn & _ & Hlen).
    set (next := Z.min (downloaded + range_size) (len data)) in *.
    destruct (IH w1 next) as (evs & w' & Hrun & Hy & Hinc & Hch & Hcnt & Hpr).
    { left; assumption. }
    { unfold next; lia. }
    { unfold next; lia. }
    rewrite Hturn, Hrun. cbn [prepend app].
    eexists _, w'. split; [reflexivity|].
    assert (Hnz : slice data downloaded (next - 1) <> []).
    { intros Hnil. rewrite Hnil in Hlen. unfold len in Hlen at 1.
      simpl in Hlen. lia. }
    repeat split.
    + cbn [yielded flat_map app]. fold (yielded evs). rewrite Hy.
      rewrite <- (slice_skipn data downloaded (next - 1)) by lia.
      f_equal. f_equal. f_equal. unfold next. lia.
    + cbn [downloaded_values flat_map app]. fold (downloaded_values evs).
      apply increasing_cons; [unfold next; lia | exact Hinc].
    + cbn [chunks flat_map app]. fold (chunks evs).
      constructor; assumption.
    + cbn [chunks flat_map app]. fold (chunks evs).
      cbn [List.length]. rewrite Nat2Z.inj_succ, Hcnt.
      rewrite <- (ceil_div_step range_size (len data) downloaded) by lia.
      fold next. lia.
    + exact Hpr.
  - assert (downloaded = len data) by lia. subst.
    cbn [stream_loop]. rewrite Z.ltb_irrefl.
    exists [], w. repeat split.
    + unfold len. rewrite Nat2Z.id, skipn_all. reflexivity.
    + constructor.
    + cbn. replace (len data - len data + range_size - 1)
        with (range_size - 1) by lia.
      now rewrite Z.div_small by lia.
Qed.

(** C1.  Against a transport that always succeeds and serves a resource
    of [len data] bytes, [stream] runs to its end; the chunks it yields,
    put together, are the resource, so they have exactly [len data]
    bytes; the values of [downloaded] at the yields increase strictly; no
    chunk is empty; and when the size is a multiple of the chunk size
    there are exactly size / chunk size chunks. *)
Theorem stream_yields_resource (w : World) (fuel : nat) :
  (Z.to_nat (len data) + 2 <= fuel)%nat ->
  exists evs w',
    stream url timeout max_retries fuel w = (evs, w', Returned tt)
    /\ yielded evs = data
    /\ len (yielded evs) = len data
    /\ increasing (downloaded_values evs) = true
    /\ Forall (fun c => c <> []) (chunks evs)
    /\ Z.of_nat (List.length (chunks evs))
       = (len data + range_size - 1) / range_size
    /\ (len data mod range_size = 0 ->
        Z.of_nat (List.length (chunks evs)) = len data / range_size).
Proof.
  intros Hfuel. destruct fuel as [|fuel]; [lia|].
  pose proof (len_nonneg data) as Hnn.
  destruct (stream_first_turn fuel w) as (req & probe & w1 & Hturn & _ & _ & Hlen).
  set (next := Z.min range_size (len data)) in *.
  destruct (stream_loop_rest fuel w1 next)
    as (evs & w' & Hrun & Hy & Hinc & Hch & Hcnt & _).
  { unfold next. lia. }
  { unfold next. lia. }
  { unfold next. lia. }
  rewrite Hturn, Hrun. cbn [prepend].
  eexists _, w'. split; [reflexivity|].
  assert (Hall : yielded
                   (([EvRequest SiteChunk req; EvRequest SiteProbe probe]
                     ++ (if len data =? 0 then []
                         else [EvYield (slice data 0 (range_size - 1)) next]))
                    ++ evs) = data).
  { rewrite !yielded_app, Hy. destruct (len data =? 0) eqn:Hz.
    - replace next with 0 by (unfold next; lia). reflexivity.
    - cbn [yielded flat_map app]. rewrite app_nil_r.
      transitivity (skipn (Z.to_nat 0) data); [|reflexivity].
      rewrite <- (slice_skipn data 0 (range_size - 1)) by lia.
      f_equal. f_equal. unfold next. f_equal. lia. }
  assert (Hcount : Z.of_nat
                     (List.length
                        (chunks
                           (([EvRequest SiteChunk req;
                              EvRequest SiteProbe probe]
                             ++ (if len data =? 0 then []
                                 else [EvYield
                                         (slice data 0 (range_size - 1))
                                         next]))
                            ++ evs)))
                   = (len data + range_size - 1) / range_size).
  { rewrite !chunks_app, !length_app. destruct (len data =? 0) eqn:Hz.
    - cbn [chunks flat_map app List.length Nat.add]. rewrite Hcnt.
      replace next with 0 by (unfold next; lia). f_equal. lia.
    - cbn [chunks flat_map app List.length Nat.add].
      rewrite Nat2Z.inj_succ, Hcnt.
      replace (len data + range_size - 1)
        with (len data - 0 + range_size - 1) by lia.
      rewrite <- (ceil_div_step range_size (len data) 0) by lia.
      unfold next. rewrite Z.add_0_l. lia. }
  repeat split.
  - exact Hall.
  - now rewrite Hall.
  - rewrite !downloaded_values_app. destruct (len data =? 0) eqn:Hz.
    + cbn [downloaded_values flat_map app].
      apply (increasing_tail next). exact Hinc.
    + cbn [downloaded_values flat_map app]. exact Hinc.
  - rewrite !chunks_app. destruct (len data =? 0) eqn:Hz.
    + cbn [chunks flat_map app]. exact Hch.
    + cbn [chunks flat_map app]. constructor; [|exact Hch].
      intros Hnil. rewrite Hnil in Hlen. unfold len in Hlen at 1.
      simpl in Hlen. lia.
  - exact Hcount.
  - intros Hmod. rewrite Hcount. now apply ceil_div_exact.
Qed.

(** C3.  Chunk size 10, a resource of 25 bytes, a transport that always
    succeeds: [stream] issues four requests, GETs for the windows 0-9,
    10-19 and 20-24 and, after the first of them, the one size probe; it
    yields the 25 bytes, and [downloaded] is 10, 20, 25 at the yields. *)
Theorem stream_25_by_10 (w : World) (fuel : nat) :
  range_size = 10 ->
  len data = 25 ->
  (4 <= fuel)%nat ->
  exists evs w' r1 probe r2 r3,
    stream url timeout max_retries fuel w = (evs, w', Returned tt)
    /\ requests evs
       = [(SiteChunk, r1); (SiteProbe, probe); (SiteChunk, r2);
          (SiteChunk, r3)]
    /\ window_request url 0 9 r1
    /\ window_request url 0 99999999999 probe
    /\ window_request url 10 19 r2
    /\ window_request url 20 24 r3
    /\ yielded evs = data
    /\ len (yielded evs) = 25
    /\ downloaded_values evs = [10; 20; 25].
Proof.
  intros HC HS Hfuel.
  destruct fuel as [|[|[|[|fuel]]]]; try lia.
  destruct (stream_first_turn (S (S (S fuel))) w)
    as (r1 & probe & w1 & Hturn1 & Hwin1 & Hwinp & _).
  rewrite HC in Hwin1. rewrite HC, HS in Hturn1.
  change (Z.min 10 25) with 10 in Hturn1.
  change (25 =? 0) with false in Hturn1.
  change (10 - 1) with 9 in Hturn1, Hwin1.
  assert (H10 : 0 <= 10 < len data) by lia.
  assert (H20 : 0 <= 20 < len data) by lia.
  assert (Hne : len data <> range_size) by lia.
  destruct (stream_turn (S (S fuel)) w1 10 Hne H10)
    as (r2 & w2 & Hturn2 & Hwin2 & _).
  rewrite HC, HS in Hturn2, Hwin2.
  change (Z.min (10 + 10) 25 - 1) with 19 in Hturn2, Hwin2.
  change (Z.min (10 + 10) 25) with 20 in Hturn2.
  destruct (stream_turn (S fuel) w2 20 Hne H20)
    as (r3 & w3 & Hturn3 & Hwin3 & _).
  rewrite HC, HS in Hturn3, Hwin3.
  change (Z.min (20 + 10) 25 - 1) with 24 in Hturn3, Hwin3.
  change (Z.min (20 + 10) 25) with 25 in Hturn3.
  assert (Hend : stream_loop url timeout max_retries (S fuel) w3 25 25
                 = ([], w3, Returned tt)) by reflexivity.
  rewrite Hturn1, Hturn2, Hturn3, Hend. cbn [prepend app].
  assert (Hall : slice data 0 9 ++ slice data 10 19 ++ slice data 20 24
                 = data).
  { transitivity (skipn (Z.to_nat 0) data); [|reflexivity].
    rewrite <- (slice_skipn data 0 9) by lia. f_equal.
    rewrite HS. change (Z.min (9 + 1) 25) with 10.
    rewrite <- (slice_skipn data 10 19) by lia. f_equal.
    rewrite HS. change (Z.min (19 + 1) 25) with 20.
    rewrite <- (slice_skipn data 20 24) by lia.
    rewrite HS. change (Z.min (24 + 1) 25) with 25.
    rewrite skipn_all2; [now rewrite app_nil_r|].
    unfold len in HS. lia. }
  eexists _, w3, r1, probe, r2, r3. split; [reflexivity|].
  cbn [requests yielded downloaded_values flat_map app].
  rewrite !app_nil_r.
  repeat split; try apply Hwin1; try apply Hwinp; try apply Hwin2;
    try apply Hwin3; try exact Hall.
  rewrite Hall. exact HS.
Qed.

End Chunked.

(** ** The test servers *)

Lemma string_app_assoc (s t u : string) :
  ((s ++ t) ++ u = s ++ (t ++ u))%string.
Proof. induction s as [|c s IH]; simpl; [reflexivity | now rewrite IH]. Qed.

Lemma string_app_neq (s : string) (c : ascii) (t : string) :
  (s ++ String c t)%string <> s.
Proof.
  induction s as [|a s IH]; simpl; [discriminate|].
  intros H; injection H as H. now apply IH.
Qed.

Lemma string_strip_prefix_app (p r : string) :
  string_strip_prefix p (p ++ r) = Some r.
Proof.
  induction p as [|a p IH]; simpl; [now destruct r|].
  now rewrite Ascii.eqb_refl.
Qed.

Lemma split_dash_digits (d : Decimal.uint) (s : string) :
  split_dash (NilEmpty.string_of_uint d ++ String "-" s)
  = Some (NilEmpty.string_of_uint d, s).
Proof.
  induction d as [|d IH|d IH|d IH|d IH|d IH|d IH|d IH|d IH|d IH|d IH];
    simpl; try rewrite IH; reflexivity.
Qed.

Lemma str_of_int_nonneg (z : Z) :
  0 <= z -> str_of_int z = NilEmpty.string_of_uint (N.to_uint (Z.to_N z)).
Proof.
  intros Hz. destruct z as [|p|p]; [reflexivity| |lia].
  unfold str_of_int. simpl.
  pose proof (DecimalPos.Unsigned.to_uint_nonnil p) as Hnil.
  now destruct (Pos.to_uint p).
Qed.

Lemma Z_of_decimal_str (z : Z) :
  0 <= z -> Z_of_decimal (str_of_int z) = Some z.
Proof.
  intros Hz. unfold Z_of_decimal.
  rewrite (str_of_int_nonneg z Hz), NilEmpty.usu, DecimalN.Unsigned.of_to.
  f_equal. lia.
Qed.

(** The window is read back from the URL [stream] builds. *)
Lemma parse_range_url (base : string) (a b : Z) :
  0 <= a -> 0 <= b -> parse_range base (range_url base a b) = Some (a, b).
Proof.
  intros Ha Hb. unfold parse_range, range_url.
  rewrite <- string_app_assoc, string_strip_prefix_app.
  rewrite (str_of_int_nonneg a Ha) at 1.
  change ("-" ++ str_of_int b)%string with (String "-" (str_of_int b)).
  rewrite split_dash_digits, <- (str_of_int_nonneg a Ha).
  now rewrite !Z_of_decimal_str.
Qed.

(** [int] reads back what [str] wrote. *)

Lemma digit_chars_no_space (d : Decimal.uint) :
  Forall (fun c => is_space c = false) (digit_chars d).
Proof.
  induction d; cbn; constructor; try reflexivity; assumption.
Qed.

Lemma lstrip_id (l : list ascii) :
  Forall (fun c => is_space c = false) l -> lstrip l = l.
Proof. destruct 1 as [|c l Hc _]; [reflexivity|]. cbn. now rewrite Hc. Qed.

Lemma strip_id (l : list ascii) :
  Forall (fun c => is_space c = false) l -> strip l = l.
Proof.
  intros H. unfold strip. rewrite (lstrip_id l H).
  rewrite lstrip_id by now apply Forall_rev. apply rev_involutive.
Qed.

Ltac eval_digit :=
  match goal with
  | |- context [digit_of_ascii ?c] =>
      let v := eval vm_compute in (digit_of_ascii c) in
      change (digit_of_ascii c) with v; cbv iota beta
  end.

Lemma parse_digits_acc (d : Decimal.uint) :
  forall acc : positive,
    parse_digits (Z.pos acc) true (digit_chars d)
    = Some (Z.pos (Pos.of_uint_acc d acc)).
Proof.
  induction d as [|d IH|d IH|d IH|d IH|d IH|d IH|d IH|d IH|d IH|d IH];
    intros acc;
    cbn [digit_chars NilEmpty.string_of_uint list_ascii_of_string
         parse_digits Pos.of_uint_acc];
    try reflexivity; fold (digit_chars d); eval_digit; rewrite <- IH;
    f_equal; lia.
Qed.

Lemma parse_digits_uint (d : Decimal.uint) :
  forall prev : bool,
    d <> Decimal.Nil \/ prev = true ->
    parse_digits 0 prev (digit_chars d) = Some (Z.of_N (N.of_uint d)).
Proof.
  induction d as [|d IH|d IH|d IH|d IH|d IH|d IH|d IH|d IH|d IH|d IH];
    intros prev Hd;
    cbn [digit_chars NilEmpty.string_of_uint list_ascii_of_string
         parse_digits N.of_uint Pos.of_uint];
    try (fold (digit_chars d); eval_digit).
  - destruct Hd as [Hd | ->]; [easy | reflexivity].
  - change (0 * 10 + 0) with 0. apply IH. now right.
  - apply parse_digits_acc.
  - apply parse_digits_acc.
  - apply parse_digits_acc.
  - apply parse_digits_acc.
  - apply parse_digits_acc.
  - apply parse_digits_acc.
  - apply parse_digits_acc.
  - apply parse_digits_acc.
  - apply parse_digits_acc.
Qed.

Lemma count_digits_chars (d : Decimal.uint) :
  count_digits (digit_chars d) = Z.of_nat (Decimal.nb_digits d).
Proof.
  unfold count_digits. f_equal.
  induction d; cbn [digit_chars NilEmpty.string_of_uint list_ascii_of_string
                    Decimal.nb_digits]; [reflexivity | ..];
    fold (digit_chars d);
    match goal with
    | |- List.length (filter _ (?c :: _)) = _ =>
        change (List.length (filter is_digit_char (c :: digit_chars d)))
          with (S (List.length (filter is_digit_char (digit_chars d))))
    end; now rewrite IHd.
Qed.

Lemma int_of_str_digits (d : Decimal.uint) :
  d <> Decimal.Nil ->
  Z.of_nat (Decimal.nb_digits d) <= int_max_str_digits ->
  int_of_str (NilEmpty.string_of_uint d) = Some (Z.of_N (N.of_uint d)).
Proof.
  intros Hd Hlen. unfold int_of_str. fold (digit_chars d).
  rewrite (strip_id _ (digit_chars_no_space d)).
  assert (Hbody : unsigned_int (digit_chars d) = Some (Z.of_N (N.of_uint d))).
  { unfold unsigned_int.
    rewrite (parse_digits_uint d false (or_introl Hd)), count_digits_chars.
    destruct (int_max_str_digits <? Z.of_nat (Decimal.nb_digits d)) eqn:Hlt;
      [lia | reflexivity]. }
  rewrite <- Hbody. destruct d; [easy | reflexivity ..].
Qed.

(** A numeral has no more digits than its number has bits. *)
Lemma nb_digits_double (d : Decimal.uint) :
  (Decimal.nb_digits (Decimal.Little.double d) <= S (Decimal.nb_digits d)
   /\ Decimal.nb_digits (Decimal.Little.succ_double d)
      <= S (Decimal.nb_digits d))%nat.
Proof.
  induction d as [|d [IH1 IH2]|d [IH1 IH2]|d [IH1 IH2]|d [IH1 IH2]
                  |d [IH1 IH2]|d [IH1 IH2]|d [IH1 IH2]|d [IH1 IH2]
                  |d [IH1 IH2]|d [IH1 IH2]];
    cbn [Decimal.Little.double Decimal.Little.succ_double Decimal.nb_digits];
    split; lia.
Qed.

Lemma nb_digits_to_little_uint (p : positive) :
  (Decimal.nb_digits (Pos.to_little_uint p) <= Pos.size_nat p)%nat.
Proof.
  induction p as [p IH | p IH |];
    cbn [Pos.to_little_uint Pos.size_nat Decimal.nb_digits]; [| |lia].
  - pose proof (proj2 (nb_digits_double (Pos.to_little_uint p))). lia.
  - pose proof (proj1 (nb_digits_double (Pos.to_little_uint p))). lia.
Qed.

Lemma size_nat_bound (p : positive) :
  forall k : nat, Z.pos p < 2 ^ Z.of_nat k -> (Pos.size_nat p <= k)%nat.
Proof.
  induction p as [p IH | p IH |]; intros [|k] Hlt; cbn [Pos.size_nat];
    try (cbn in Hlt; lia);
    rewrite Nat2Z.inj_succ, Z.pow_succ_r in Hlt by lia;
    try specialize (IH k); lia.
Qed.

Lemma int_of_str_str_of_int (n : Z) :
  0 <= n < 2 ^ 4299 -> int_of_str (str_of_int n) = Some n.
Proof.
  intros Hn. rewrite (str_of_int_nonneg n) by lia. rewrite int_of_str_digits.
  - rewrite DecimalN.Unsigned.of_to. f_equal. lia.
  - destruct (Z.to_N n);
      [discriminate | apply DecimalPos.Unsigned.to_uint_nonnil].
  - unfold int_max_str_digits.
    destruct n as [|p|p]; [cbn; lia | | lia].
    change (N.to_uint (Z.to_N (Z.pos p))) with (Pos.to_uint p).
    unfold Pos.to_uint. rewrite DecimalFacts.nb_digits_rev.
    pose proof (nb_digits_to_little_uint p) as H1.
    pose proof (size_nat_bound p 4299) as H2.
    assert (H3 : Z.pos p < 2 ^ Z.of_nat 4299).
    { replace (Z.of_nat 4299) with 4299 by lia. lia. }
    specialize (H2 H3). lia.
Qed.

(** [int] on three strings: a separator after the digits is refused, a
    no-break space is dropped, and 4301 digits are one too many. *)
Example int_of_str_separator :
  int_of_str (String "1" (String "2" (String "031" ""))) = None
  /\ int_error (String "1" (String "2" (String "031" "")))
     = ValueError "invalid literal for int() with base 10: '12\x1f'".
Proof. split; reflexivity. Qed.

Example int_of_str_no_break_space :
  int_of_str (String "1" (String "2" (String "160" ""))) = Some 12.
Proof. reflexivity. Qed.

Example int_of_str_limit :
  int_of_str (string_of_list_ascii (repeat "1"%char 4301)) = None
  /\ int_of_str (string_of_list_ascii (repeat "1"%char 4300)) <> None
  /\ int_error (string_of_list_ascii (repeat "1"%char 4301))
     = ValueError
         "Exceeds the limit (4300 digits) for integer string conversion: value has 4301 digits; use sys.set_int_max_str_digits() to increase the limit".
Proof.
  split; [vm_compute; reflexivity|]. split; [|vm_compute; reflexivity].
  intros H. vm_compute in H. discriminate H.
Qed.

(** A range server, asked without failures, serves its resource as long
    as the header it sends for the oversized window gives the size. *)
Lemma serve_serves (res : resource) (size : Z) (v : string) :
  message_get (res_headers res (len (slice (res_data res) 0 99999999999)))
    "Content-Length" = Some v ->
  int_of_str v = Some (len (res_data res)) ->
  @serves (steady_env (serve [res]) size) (res_url res) (res_data res).
Proof.
  intros Hget Hint w r a b Hab Hurl Hmethod.
  cbn [urlopen steady_env serve]. unfold serve_resource. rewrite Hurl.
  assert (Hneq : String.eqb (range_url (res_url res) a b) (res_url res)
                 = false).
  { apply String.eqb_neq. unfold range_url. apply string_app_neq. }
  rewrite Hneq.
  rewrite (parse_range_url (res_url res) a b) by lia.
  eexists _, w. split; [reflexivity|]. split; [reflexivity|].
  intros -> ->. exists v. cbn [resp_headers]. now split.
Qed.

(** A range server that reports the length of what it sends serves any
    resource of up to 100000000000 bytes: beyond, the window of the probe
    is no longer oversized and its length is not the size. *)
Lemma range_server_serves (res : resource) (size : Z) :
  res_headers res = content_length ->
  len (res_data res) <= 100000000000 ->
  @serves (steady_env (serve [res]) size) (res_url res) (res_data res).
Proof.
  intros Hheaders Hlen.
  apply (serve_serves res size
           (str_of_int (len (slice (res_data res) 0 99999999999)))).
  - rewrite Hheaders. reflexivity.
  - pose proof (len_nonneg (res_data res)) as Hnn.
    rewrite slice_len by lia.
    replace (Z.min (99999999999 + 1) (len (res_data res)) - 0)
      with (len (res_data res)) by lia.
    apply int_of_str_str_of_int. split; [lia|].
    apply Z.le_lt_trans with (2 ^ 37 - 1); [lia|].
    assert (H37 : 2 ^ 37 <= 2 ^ 4299) by (apply Z.pow_le_mono_r; lia). lia.
Qed.

(** ** The theorems on the test servers *)

Lemma letters_served :
  @serves letters_env "https://host/v" (res_data letters).
Proof. apply range_server_serves; [reflexivity | vm_compute; discriminate]. Qed.

Lemma stream_yields_resource_witness :
  @serves letters_env "https://host/v" (res_data letters)
  /\ exists evs w',
       @stream letters_env "https://host/v" GLOBAL_DEFAULT_TIMEOUT 0 27 tt
       = (evs, w', Returned tt)
       /\ yielded evs = res_data letters
       /\ len (yielded evs) = 25
       /\ increasing (downloaded_values evs) = true.
Proof.
  split; [exact letters_served|].
  destruct (@stream_yields_resource letters_env "https://host/v"
              GLOBAL_DEFAULT_TIMEOUT 0 (res_data letters) letters_served
              eq_refl eq_refl ltac:(discriminate) tt 27%nat
              ltac:(vm_compute; lia))
    as (evs & w' & Hrun & Hall & Hlen & Hinc & _).
  exists evs, w'. repeat split; assumption.
Defined.

(** With the chunk size of the module the letters come in one chunk:
    one request for the first 9437184 bytes, the probe, one yield. *)
Example stream_default_range_size :
  let evs := fst (fst (@stream letters_default_env "https://host/v"
                         GLOBAL_DEFAULT_TIMEOUT 0 2 tt)) in
  map (fun sr => req_url (snd sr)) (requests evs)
  = ["https://host/v&range=0-9437183"; "https://host/v&range=0-99999999999"]
  /\ chunks evs = [res_data letters]
  /\ downloaded_values evs = [25].
Proof. repeat split; vm_compute; reflexivity. Qed.

Lemma stream_25_by_10_witness :
  exists evs r1 probe r2 r3,
    @stream letters_env "https://host/v" GLOBAL_DEFAULT_TIMEOUT 0 4 tt
    = (evs, tt, Returned tt)
    /\ requests evs
       = [(SiteChunk, r1); (SiteProbe, probe); (SiteChunk, r2);
          (SiteChunk, r3)]
    /\ req_url r1 = "https://host/v&range=0-9"
    /\ req_url probe = "https://host/v&range=0-99999999999"
    /\ req_url r2 = "https://host/v&range=10-19"
    /\ req_url r3 = "https://host/v&range=20-24"
    /\ len (yielded evs) = 25
    /\ downloaded_values evs = [10; 20; 25].
Proof.
  destruct (@stream_25_by_10 letters_env "https://host/v"
              GLOBAL_DEFAULT_TIMEOUT 0 (res_data letters) letters_served
              eq_refl eq_refl ltac:(discriminate) tt 4%nat eq_refl eq_refl
              ltac:(lia))
    as (evs & w' & r1 & probe & r2 & r3 & Hrun & Hreq & H1 & Hp & H2 & H3
        & _ & Hlen & Hd).
  exists evs, r1, probe, r2, r3. destruct w'.
  repeat split; try assumption;
    [apply H1 | apply Hp | apply H2 | apply H3].
Defined.

Lemma stream_retry_budget_witness :
  (exists evs response,
     @request_loop flaky_letters_env "https://host/v" GLOBAL_DEFAULT_TIMEOUT
       2 (request_fuel 2) 2%nat 0 9 0
     = (evs, 0%nat, Break response)
     /\ List.length (requests_at SiteChunk evs) = 3%nat)
  /\ (exists evs w'',
        (forall fuel,
           @stream_loop flaky_letters_env "https://host/v"
             GLOBAL_DEFAULT_TIMEOUT 1 (S fuel) 2%nat 10 0
           = (evs, w'', Raised MaxRetriesExceeded))
        /\ Z.of_nat (List.length (requests evs)) = 2).
Proof.
  assert (Hto : @times_out flaky_letters_env 2 2%nat
                  (range_url "https://host/v" 0 9) GLOBAL_DEFAULT_TIMEOUT
                  0%nat).
  { do 2 eexists. split; [reflexivity|].
    do 2 eexists. split; [reflexivity|]. reflexivity. }
  split.
  - edestruct (@stream_retry_budget flaky_letters_env "https://host/v"
                 GLOBAL_DEFAULT_TIMEOUT 2 2%nat 2%nat 0%nat 0%nat 10 0)
      as [Hok _]; [lia | lia | exact Hto | reflexivity |].
    destruct (Hok ltac:(lia)) as (evs & Hrun & _ & Hn & _).
    eexists evs, _. split; [exact Hrun | exact Hn].
  - edestruct (@stream_retry_budget flaky_letters_env "https://host/v"
                 GLOBAL_DEFAULT_TIMEOUT 1 2%nat 2%nat 0%nat 0%nat 10 0)
      as [_ Hfail]; [lia | lia | exact Hto | reflexivity |].
    destruct (Hfail ltac:(lia)) as (evs & w'' & Hrun & Hn & _).
    exists evs, w''. split; [exact Hrun | exact Hn].
Defined.

(** C2 at a timeout that [urlopen] raises as it is.  The claim speaks of
    a per-request timeout; the inner loop passes over the timeout that
    arrives as the reason of a [URLError], and not over a [socket.timeout]
    raised bare.  With one such timeout ahead and three retries allowed,
    [stream] does not try again: it raises the timeout after the one
    request, where the same timeout inside a [URLError] is followed by a
    second attempt and the whole resource. *)
Theorem bare_timeout_is_not_retried :
  exists r,
    (forall fuel,
       @stream scripted_letters_env "https://host/v" GLOBAL_DEFAULT_TIMEOUT 3
         (S fuel) [TimeoutError]
       = ([EvRequest SiteChunk r], [], Raised TimeoutError))
    /\ req_url r = "https://host/v&range=0-9"
    /\ exists evs,
         @stream scripted_letters_env "https://host/v" GLOBAL_DEFAULT_TIMEOUT
           3 4 [URLError socket_timeout]
         = (evs, [], Returned tt)
         /\ yielded evs = res_data letters
         /\ map (fun sr => req_url (snd sr)) (requests evs)
            = ["https://host/v&range=0-9"; "https://host/v&range=0-9";
               "https://host/v&range=0-99999999999";
               "https://host/v&range=10-19"; "https://host/v&range=20-24"].
Proof.
  eexists. split; [|split].
  - intros fuel. unfold stream. cbn [stream_loop]. reflexivity.
  - reflexivity.
  - eexists. repeat split; vm_compute; reflexivity.
Qed.

(** ** What the requests of [stream] look like *)

Section Requests.
Context {E : Environment}.
Variable url : string.
Variable timeout : timeout_t.
Variable max_retries : Z.

(** Everything the inner loop does is a request for its window: a GET
    whose window is in the URL and whose headers are the two of
    [_execute_request]. *)
Lemma request_loop_events (fuel : nat) :
  forall (w w' : World) (downloaded stop_pos tries : Z) (evs : list event)
         (x : loop_exit),
    request_loop url timeout max_retries fuel w downloaded stop_pos tries
    = (evs, w', x) ->
    Forall (fun e => exists r, e = EvRequest SiteChunk r
                               /\ window_request url downloaded stop_pos r
                               /\ range_header_of r = None) evs.
Proof.
  induction fuel as [|fuel IH]; intros w w' downloaded stop_pos tries evs x;
    cbn [request_loop].
  - intros H; inversion H; constructor.
  - destruct (tries >=? 1 + max_retries).
    { intros H; inversion H; constructor. }
    destruct (_execute_request SiteChunk w
                (range_url url downloaded stop_pos) (Some "GET") [] None
                timeout) as [[evs1 w1] r] eqn:Hreq.
    assert (Hevs1 : Forall (fun e => exists r, e = EvRequest SiteChunk r
                              /\ window_request url downloaded stop_pos r
                              /\ range_header_of r = None) evs1).
    { destruct (execute_request_inv _ _ _ _ _ _ _ _ _ Hreq) as
        [[-> _] | (req & -> & Hu & Hm & _ & _ & agent & Hh)];
        constructor; [|constructor].
      exists req. unfold window_request, header_names, range_header_of.
      rewrite Hh. now repeat split. }
    destruct r as [response | e].
    + intros H; inversion H; subst; assumption.
    + destruct (request_loop url timeout max_retries fuel w1 downloaded
                  stop_pos (tries + 1)) as [[evs2 w2] x2] eqn:Hrest.
      pose proof (IH _ _ _ _ _ _ _ Hrest) as Hevs2.
      destruct e as [[|msg]| | | | | | | | | | | |];
        intros H; inversion H; subst; try assumption.
      * apply Forall_app; split; assumption.
      * apply Forall_app; split; assumption.
Qed.

Lemma chunk_events_no_probe (evs : list event) (P : Request -> Prop) :
  Forall (fun e => exists r, e = EvRequest SiteChunk r /\ P r) evs ->
  requests_at SiteProbe evs = [].
Proof.
  induction 1 as [|e evs (r & -> & _) _ IH]; [reflexivity|].
  exact IH.
Qed.

Lemma drain_no_requests (reads : list (result bytes)) :
  forall downloaded evs d x,
    drain reads downloaded = (evs, d, x) -> requests evs = [].
Proof.
  induction reads as [|r reads IH]; intros downloaded evs d x; cbn [drain].
  - intros H; inversion H; reflexivity.
  - destruct r as [[|b chunk] | e].
    + intros H; inversion H; reflexivity.
    + destruct (drain reads (downloaded + len (b :: chunk)))
        as [[evs' d'] x'] eqn:Hrest.
      intros H; inversion H; subst. cbn. exact (IH _ _ _ _ Hrest).
    + destruct e; intros H; inversion H; reflexivity.
Qed.

(** The probe issues at most one request, a GET without [Range] header. *)
Lemma size_probe_events (w w' : World) (file_size : Z) (evs : list event)
    (r : result Z) :
  size_probe url timeout w file_size = (evs, w', r) ->
  (List.length (requests evs) <= 1)%nat
  /\ Forall (stream_request url) (requests evs).
Proof.
  unfold size_probe. destruct (file_size =? range_size).
  2:{ intros H; inversion H; subst; split; [cbn; lia | constructor]. }
  destruct (_execute_request SiteProbe w (probe_url url) (Some "GET") []
              None timeout) as [[evs1 w1] r1] eqn:Hreq.
  assert (H1 : (List.length (requests evs1) <= 1)%nat
               /\ Forall (stream_request url)
                    (requests evs1)).
  { destruct (execute_request_inv _ _ _ _ _ _ _ _ _ Hreq) as
      [[-> _] | (req & -> & Hu & Hm & _ & _ & agent & Hh)].
    - split; [cbn; lia | constructor].
    - split; [cbn; lia|]. constructor; [|constructor].
      unfold stream_request. cbn [snd]. unfold range_header_of.
      rewrite Hh, Hu, Hm, probe_url_range. repeat split. now eexists _, _. }
  assert (H2 : forall e, requests (evs1 ++ [EvLog e]) = requests evs1).
  { intros e. rewrite requests_app. cbn. apply app_nil_r. }
  destruct r1 as [resp | e].
  - destruct (message_get (resp_headers resp) "Content-Length") as [v|].
    + destruct (int_of_str v); intros H; inversion H; subst;
        [| rewrite H2]; exact H1.
    + intros H; inversion H; subst; exact H1.
  - destruct (caught_by_probe e); intros H; inversion H; subst;
      [rewrite H2|]; exact H1.
Qed.

(** No request of a run of [stream] carries a [Range] header; all are
    GETs. *)
Lemma stream_loop_requests (fuel : nat) :
  forall (w w' : World) (file_size downloaded : Z) (evs : list event)
         (o : outcome unit),
    stream_loop url timeout max_retries fuel w file_size downloaded
    = (evs, w', o) ->
    Forall (stream_request url) (requests evs).
Proof.
  induction fuel as [|fuel IH]; intros w w' file_size downloaded evs o;
    cbn [stream_loop].
  - intros H; inversion H; constructor.
  - destruct (downloaded <? file_size).
    2:{ intros H; inversion H; constructor. }
    destruct (request_loop url timeout max_retries
                (request_fuel max_retries) w downloaded
                (Z.min (downloaded + range_size) file_size - 1) 0)
      as [[evs1 w1] x] eqn:Hloop.
    assert (H1 : Forall (stream_request url)
                   (requests evs1)).
    { pose proof (request_loop_events _ _ _ _ _ _ _ _ Hloop) as Hev.
      clear Hloop. induction Hev as [|e l (r & -> & Hwin & Hnone) _ IHl];
        [constructor|].
      cbn. constructor; [|exact IHl].
      split; [exact Hnone|]. split; [apply Hwin|].
      eexists _, _. apply Hwin. }
    destruct x as [response | e |]; try (intros H; inversion H; subst; exact H1).
    unfold after_request.
    destruct (size_probe url timeout w1 file_size) as [[evs2 w2] r] eqn:Hp.
    destruct (size_probe_events _ _ _ _ _ Hp) as [_ H2].
    destruct r as [file_size' | e].
    2:{ intros H; inversion H; subst. rewrite requests_app.
        apply Forall_app; split; assumption. }
    destruct (drain (resp_reads response) downloaded) as [[evs3 d'] dx] eqn:Hd.
    pose proof (drain_no_requests _ _ _ _ _ Hd) as H3.
    destruct dx as [| | e].
    + destruct (stream_loop url timeout max_retries fuel w2 file_size' d')
        as [[evs4 w4] o4] eqn:Hrest.
      pose proof (IH _ _ _ _ _ _ Hrest) as H4.
      intros H; inversion H; subst.
      rewrite !requests_app, H3, app_nil_r.
      repeat (apply Forall_app; split); assumption.
    + intros H; inversion H; subst. rewrite !requests_app, H3, app_nil_r.
      apply Forall_app; split; assumption.
    + intros H; inversion H; subst. rewrite !requests_app, H3, app_nil_r.
      apply Forall_app; split; assumption.
Qed.

(** Once [file_size] differs from the placeholder, the rest of the run
    issues no probe. *)
Lemma stream_loop_no_probe (fuel : nat) :
  forall (w w' : World) (file_size downloaded : Z) (evs : list event)
         (o : outcome unit),
    file_size <> range_size ->
    stream_loop url timeout max_retries fuel w file_size downloaded
    = (evs, w', o) ->
    requests_at SiteProbe evs = [].
Proof.
  induction fuel as [|fuel IH]; intros w w' file_size downloaded evs o Hne;
    cbn [stream_loop].
  - intros H; inversion H; reflexivity.
  - destruct (downloaded <? file_size).
    2:{ intros H; inversion H; reflexivity. }
    destruct (request_loop url timeout max_retries
                (request_fuel max_retries) w downloaded
                (Z.min (downloaded + range_size) file_size - 1) 0)
      as [[evs1 w1] x] eqn:Hloop.
    pose proof (chunk_events_no_probe _ _
                  (request_loop_events _ _ _ _ _ _ _ _ Hloop)) as H1.
    destruct x as [response | e |]; try (intros H; inversion H; subst; exact H1).
    unfold after_request. rewrite (size_probe_off url timeout w1 file_size Hne).
    destruct (drain (resp_reads response) downloaded) as [[evs3 d'] dx] eqn:Hd.
    assert (H3 : requests_at SiteProbe evs3 = []).
    { unfold requests_at. now rewrite (drain_no_requests _ _ _ _ _ Hd). }
    destruct dx as [| | e].
    + destruct (stream_loop url timeout max_retries fuel w1 file_size d')
        as [[evs4 w4] o4] eqn:Hrest.
      pose proof (IH _ _ _ _ _ _ Hne Hrest) as H4.
      intros H; inversion H; subst.
      now rewrite !requests_at_app, H1, H3, H4.
    + intros H; inversion H; subst. now rewrite !requests_at_app, H1, H3.
    + intros H; inversion H; subst. now rewrite !requests_at_app, H1, H3.
Qed.

End Requests.

Section Turns.
Context {E : Environment}.
Variable url : string.
Variable timeout : timeout_t.
Variable max_retries : Z.

(** [request_fuel] is enough: the inner loop always ends by itself. *)
Lemma request_loop_ends (fuel : nat) :
  forall (w : World) (downloaded stop_pos tries : Z),
    (Z.to_nat (1 + max_retries - tries) < fuel)%nat ->
    snd (request_loop url timeout max_retries fuel w downloaded stop_pos tries)
    <> Exhausted.
Proof.
  induction fuel as [|fuel IH]; intros w downloaded stop_pos tries Hfuel;
    [lia|].
  cbn [request_loop].
  destruct (tries >=? 1 + max_retries) eqn:Hge; [discriminate|].
  destruct (_execute_request SiteChunk w (range_url url downloaded stop_pos)
              (Some "GET") [] None timeout) as [[evs1 w1] r].
  destruct r as [response | e]; [discriminate|].
  specialize (IH w1 downloaded stop_pos (tries + 1) ltac:(lia)).
  destruct (request_loop url timeout max_retries fuel w1 downloaded stop_pos
              (tries + 1)) as [[evs2 w2] x2].
  destruct e as [[|msg]| | | | | | | | | | | |]; try discriminate; exact IH.
Qed.

(** With a URL that is accepted, the first turn of the inner loop sends
    its request, whatever comes of it. *)
Lemma request_loop_sends (w w1 : World) (downloaded stop_pos : Z)
    (evs1 : list event) (x : loop_exit) :
  String.prefix "http" (lower url) = true ->
  0 <= max_retries ->
  request_loop url timeout max_retries (request_fuel max_retries) w
    downloaded stop_pos 0 = (evs1, w1, x) ->
  exists r rest, evs1 = EvRequest SiteChunk r :: rest.
Proof.
  intros Hhttp Hmax. unfold request_fuel. cbn [request_loop].
  destruct (0 >=? 1 + max_retries) eqn:Hge; [lia|].
  unfold _execute_request. cbn [encode_data].
  destruct (choice w user_agents) as [agent w0].
  rewrite (http_range_url url downloaded stop_pos Hhttp).
  destruct (urlopen w0 _) as [r0 w2].
  destruct (request_loop url timeout max_retries
              (Z.to_nat (1 + max_retries)) w2 downloaded stop_pos (0 + 1))
    as [[evs' w3] x'].
  destruct r0 as [response | e];
    [|destruct e as [[|msg]| | | | | | | | | | | |]];
    intros H; inversion H; subst; eexists _, _; reflexivity.
Qed.

(** C6, as the code has it.  In every turn of the loop, each request for
    the chunk is a GET for [url&range=downloaded-stop_pos], with
    [stop_pos = min(downloaded + range_size, file_size) - 1]: the window
    is part of the URL.  With a URL that is accepted and a budget that is
    not negative the turn does issue such a request, before anything
    else.  No request of [stream] carries a [Range] header. *)
Theorem chunk_requests_carry_window_in_url (fuel : nat) (w : World)
    (file_size downloaded : Z) :
  downloaded < file_size ->
  let stop_pos := Z.min (downloaded + range_size) file_size - 1 in
  exists evs1 w1 x,
    request_loop url timeout max_retries (request_fuel max_retries) w
      downloaded stop_pos 0 = (evs1, w1, x)
    /\ x <> Exhausted
    /\ stream_loop url timeout max_retries (S fuel) w file_size downloaded
       = match x with
         | Break response =>
             prepend evs1
               (after_request url timeout
                  (stream_loop url timeout max_retries fuel) w1 file_size
                  downloaded response)
         | Throw e => (evs1, w1, Raised (generator_raise e))
         | Exhausted => (evs1, w1, OutOfFuel)
         end
    /\ Forall (fun e => exists r,
                 e = EvRequest SiteChunk r
                 /\ window_request url downloaded stop_pos r
                 /\ range_header_of r = None) evs1
    /\ (String.prefix "http" (lower url) = true ->
        0 <= max_retries ->
        exists r rest,
          evs1 = EvRequest SiteChunk r :: rest
          /\ window_request url downloaded stop_pos r
          /\ range_header_of r = None
          /\ exists after,
               fst (fst (stream_loop url timeout max_retries (S fuel) w
                           file_size downloaded))
               = EvRequest SiteChunk r :: after)
    /\ Forall (stream_request url)
         (requests
            (fst (fst (stream_loop url timeout max_retries (S fuel) w
                         file_size downloaded)))).
Proof.
  intros Hlt stop_pos.
  destruct (request_loop url timeout max_retries (request_fuel max_retries)
              w downloaded stop_pos 0) as [[evs1 w1] x] eqn:Hloop.
  assert (Hturn :
    stream_loop url timeout max_retries (S fuel) w file_size downloaded
    = match x with
      | Break response =>
          prepend evs1
            (after_request url timeout
               (stream_loop url timeout max_retries fuel) w1 file_size
               downloaded response)
      | Throw e => (evs1, w1, Raised (generator_raise e))
      | Exhausted => (evs1, w1, OutOfFuel)
      end).
  { cbn [stream_loop]. destruct (downloaded <? file_size) eqn:Hd; [|lia].
    fold stop_pos. rewrite Hloop. now destruct x. }
  pose proof (request_loop_events url timeout max_retries _ _ _ _ _ _ _ _
                Hloop) as Hwin.
  exists evs1, w1, x. split; [reflexivity|].
  split; [|split; [|split; [|split]]].
  - pose proof (request_loop_ends (request_fuel max_retries) w downloaded
                  stop_pos 0) as Hends.
    rewrite Hloop in Hends. apply Hends. unfold request_fuel. lia.
  - exact Hturn.
  - exact Hwin.
  - intros Hhttp Hmax.
    destruct (request_loop_sends _ _ _ _ _ _ Hhttp Hmax Hloop)
      as (r & rest & ->).
    exists r, rest. split; [reflexivity|].
    inversion Hwin as [|e l (r' & Hr & Hr1 & Hr2) _]; subst.
    injection Hr as <-. split; [exact Hr1|]. split; [exact Hr2|].
    rewrite Hturn. destruct x as [response | e |].
    + destruct (after_request url timeout
                  (stream_loop url timeout max_retries fuel) w1 file_size
                  downloaded response) as [[evs' w'] o].
      eexists. reflexivity.
    + eexists. reflexivity.
    + eexists. reflexivity.
  - destruct (stream_loop url timeout max_retries (S fuel) w file_size
                downloaded) as [[evs w'] o] eqn:Hrun.
    exact (stream_loop_requests url timeout max_retries _ _ _ _ _ _ _ Hrun).
Qed.

(** C5, as the code has it.  When the answer to the probe carries a
    [Content-Length] that is not an integer, the error is logged,
    [file_size] stays at the placeholder and the turn goes on to the next
    one with the placeholder as its target.  The probe is gated on
    [file_size] being the placeholder: a turn that starts there probes
    once, and a turn that starts anywhere else does not probe, nor does
    any turn after it. *)
Theorem size_probe_policy (w w1 : World) (evs : list event)
    (probe_response : Response) (v : string) :
  _execute_request SiteProbe w (probe_url url) (Some "GET") [] None timeout
  = (evs, w1, Ok probe_response) ->
  message_get (resp_headers probe_response) "Content-Length" = Some v ->
  int_of_str v = None ->
  exists e,
    size_probe url timeout w range_size
    = (evs ++ [EvLog e], w1, Ok range_size)
    /\ (forall again response downloaded evs3 downloaded',
          drain (resp_reads response) downloaded
          = (evs3, downloaded', DrainBreak) ->
          after_request url timeout again w range_size downloaded response
          = prepend ((evs ++ [EvLog e]) ++ evs3)
              (again w1 range_size downloaded'))
    /\ (forall w0 evs0 w0' r,
          size_probe url timeout w0 range_size = (evs0, w0', r) ->
          List.length (requests_at SiteProbe evs0) = 1%nat)
    /\ (forall fuel w0 file_size downloaded,
          file_size <> range_size ->
          size_probe url timeout w0 file_size = ([], w0, Ok file_size)
          /\ requests_at SiteProbe
               (fst (fst (stream_loop url timeout max_retries fuel w0
                            file_size downloaded))) = []).
Proof.
  intros Hreq Hget Hint.
  assert (Hprobe : size_probe url timeout w range_size
                   = (evs ++ [EvLog (int_error v)], w1,
                      Ok range_size)).
  { unfold size_probe. now rewrite Z.eqb_refl, Hreq, Hget, Hint. }
  assert (Hhttp : String.prefix "http" (lower (probe_url url)) = true).
  { unfold _execute_request in Hreq. cbn [encode_data] in Hreq.
    destruct (choice w user_agents) as [agent w2].
    destruct (String.prefix "http" (lower (probe_url url)));
      [reflexivity | discriminate]. }
  eexists. split; [exact Hprobe|]. split; [|split].
  - intros again response downloaded evs3 downloaded' Hdrain.
    unfold after_request. now rewrite Hprobe, Hdrain.
  - intros w0 evs0 w0' r. unfold size_probe, _execute_request. cbn [encode_data].
    rewrite Z.eqb_refl, Hhttp.
    destruct (choice w0 user_agents) as [agent w2].
    destruct (urlopen w2 _) as [[resp | e] w3].
    + destruct (message_get (resp_headers resp) "Content-Length") as [v0|].
      * destruct (int_of_str v0); intros H; inversion H; reflexivity.
      * intros H; inversion H; reflexivity.
    + destruct (caught_by_probe e); intros H; inversion H; reflexivity.
  - intros fuel w0 file_size downloaded Hne. split.
    + now apply size_probe_off.
    + destruct (stream_loop url timeout max_retries fuel w0 file_size
                  downloaded) as [[evs0 w0'] o] eqn:Hrun.
      exact (stream_loop_no_probe url timeout max_retries _ _ _ _ _ _ _ Hne
               Hrun).
Qed.

End Turns.

(** C6 as stated fails: the requests for the three chunks of the
    twenty-five letters carry no [Range] header. *)
Lemma stream_range_header_counterexample :
  ~ Forall (fun r => exists v, range_header_of r = Some v)
      (requests_at SiteChunk
         (fst (fst (@stream letters_env "https://host/v"
                      GLOBAL_DEFAULT_TIMEOUT 0 4 tt)))).
Proof.
  intros H. vm_compute in H.
  inversion H as [|r l [v Hv] _]. discriminate Hv.
Qed.

Lemma chunk_requests_carry_window_in_url_witness :
  exists r rest response,
    @request_loop letters_env "https://host/v" GLOBAL_DEFAULT_TIMEOUT 0
      (request_fuel 0) tt 10 19 0
    = (EvRequest SiteChunk r :: rest, tt, Break response)
    /\ window_request "https://host/v" 10 19 r
    /\ range_header_of r = None
    /\ Forall (fun e => exists r,
                 e = EvRequest SiteChunk r
                 /\ window_request "https://host/v" 10 19 r
                 /\ range_header_of r = None) (EvRequest SiteChunk r :: rest).
Proof.
  assert (Hmax : 0 <= 0) by lia.
  destruct (@chunk_requests_carry_window_in_url letters_env "https://host/v"
              GLOBAL_DEFAULT_TIMEOUT 0 3%nat tt 25 10 eq_refl)
    as (evs1 & w1 & x & Hloop & _ & _ & Hwin & Hsent & _).
  destruct (Hsent eq_refl Hmax) as (r & rest & -> & Hurl & Hnone & _).
  exists r, rest.
  assert (Hx : exists response, x = Break response /\ w1 = tt).
  { vm_compute in Hloop. inversion Hloop. eexists. split; reflexivity. }
  destruct Hx as (response & -> & ->).
  exists response. split; [exact Hloop|]. split; [exact Hurl|].
  split; [exact Hnone | exact Hwin].
Defined.

(** C5 as stated fails: a probe that learns nothing is made again in the
    next turn. *)
Lemma stream_probe_counterexample :
  ~ (List.length
       (requests_at SiteProbe
          (fst (fst (@stream short_answers_env "https://host/v"
                       GLOBAL_DEFAULT_TIMEOUT 0 5 tt)))) <= 1)%nat.
Proof.
  assert (H : List.length
                (requests_at SiteProbe
                   (fst (fst (@stream short_answers_env "https://host/v"
                                GLOBAL_DEFAULT_TIMEOUT 0 5 tt)))) = 2%nat)
    by (vm_compute; reflexivity).
  rewrite H. lia.
Qed.

Lemma size_probe_policy_witness :
  exists evs e,
    @size_probe short_answers_env "https://host/v" GLOBAL_DEFAULT_TIMEOUT tt 10
    = (evs ++ [EvLog e], tt, Ok 10)
    /\ List.length (requests_at SiteProbe (evs ++ [EvLog e])) = 1%nat.
Proof.
  edestruct (@size_probe_policy short_answers_env "https://host/v"
               GLOBAL_DEFAULT_TIMEOUT 0 tt tt)
    as (e & Hprobe & _ & Hn & _); [reflexivity | reflexivity | reflexivity |].
  eexists _, e. split; [exact Hprobe | exact (Hn _ _ _ _ Hprobe)].
Defined.

(** ** The scan for the segment count *)

Lemma split_crlf_nonempty (s : bytes) : split_crlf s <> [].
Proof.
  destruct s as [|c [|d rest]]; [discriminate | discriminate |].
  change (split_crlf (c :: d :: rest))
    with (if Byte.eqb c x0d && Byte.eqb d x0a then [] :: split_crlf rest
          else cons_first c (split_crlf (d :: rest))).
  destruct (Byte.eqb c x0d && Byte.eqb d x0a); [discriminate|].
  unfold cons_first. now destruct (split_crlf (d :: rest)).
Qed.

Lemma join_cons_first (c : byte) (ls : list bytes) :
  ls <> [] -> join_crlf (cons_first c ls) = c :: join_crlf ls.
Proof. destruct ls as [|l [|l' ls]]; [easy | reflexivity | reflexivity]. Qed.

Lemma join_empty_line (ls : list bytes) :
  ls <> [] -> join_crlf ([] :: ls) = crlf ++ join_crlf ls.
Proof. destruct ls; [easy | reflexivity]. Qed.

(** Splitting loses nothing: the pieces, joined by CR LF, are the bytes
    that were split. *)
Lemma join_split_crlf (s : bytes) : join_crlf (split_crlf s) = s.
Proof.
  enough (H : join_crlf (split_crlf s) = s
              /\ forall c, join_crlf (split_crlf (c :: s)) = c :: s)
    by apply H.
  induction s as [|d rest [IH1 IH2]].
  - split; [reflexivity | intros c; reflexivity].
  - split; [apply IH2|]. intros c.
    change (split_crlf (c :: d :: rest))
      with (if Byte.eqb c x0d && Byte.eqb d x0a then [] :: split_crlf rest
            else cons_first c (split_crlf (d :: rest))).
    destruct (Byte.eqb c x0d && Byte.eqb d x0a) eqn:Hcrlf.
    + apply andb_prop in Hcrlf. destruct Hcrlf as [Hc Hd].
      apply Byte.byte_dec_bl in Hc, Hd. subst c d.
      rewrite join_empty_line by apply split_crlf_nonempty.
      now rewrite IH1.
    + rewrite join_cons_first by apply split_crlf_nonempty.
      now rewrite IH2.
Qed.

(** The loop of [seq_stream] ends with the count of the last line that
    matches, whatever it started with. *)
Lemma scan_fold (lines : list bytes) (init : option Z) :
  fold_left scan_line lines init
  = match last_match_count lines with
    | Some n => Some n
    | None => init
    end.
Proof.
  revert init; induction lines as [|line rest IH]; intros init;
    [reflexivity|].
  cbn [fold_left last_match_count]. rewrite IH.
  destruct (last_match_count rest); [reflexivity|].
  unfold scan_line, count_of_line.
  now destruct (segment_count_search line).
Qed.

Lemma scan_segment_count_last (segment_data : bytes) :
  scan_segment_count segment_data
  = last_match_count (split_crlf segment_data).
Proof.
  unfold scan_segment_count. rewrite scan_fold.
  now destruct (last_match_count _).
Qed.

(** The same for the loop of [seq_filesize], which starts from 0. *)
Lemma scan_filesize_fold (lines : list bytes) (init : Z) :
  fold_left scan_line_filesize lines init
  = match last_match_count lines with
    | Some n => n
    | None => init
    end.
Proof.
  revert init; induction lines as [|line rest IH]; intros init;
    [reflexivity|].
  cbn [fold_left last_match_count]. rewrite IH.
  destruct (last_match_count rest); [reflexivity|].
  unfold scan_line_filesize, regex_search, count_of_line.
  now destruct (segment_count_search line).
Qed.

(** The last matching line, spelled out. *)
Lemma last_match_count_app (before after : list bytes) (line : bytes)
    (n : Z) :
  count_of_line line = Some n ->
  Forall (fun l => segment_count_search l = None) after ->
  last_match_count (before ++ line :: after) = Some n.
Proof.
  intros Hline Hafter.
  assert (Hnone : last_match_count after = None).
  { induction Hafter as [|l after Hl _ IH]; [reflexivity|].
    cbn [last_match_count]. rewrite IH. unfold count_of_line. now rewrite Hl. }
  induction before as [|b before IH]; cbn [app last_match_count].
  - now rewrite Hnone.
  - now rewrite IH.
Qed.

Lemma dict_set_twice (d : dict) (k v v' : string) :
  dict_set (dict_set d k v) k v' = dict_set d k v'.
Proof.
  induction d as [|[k0 v0] d IH]; cbn [dict_set].
  - now rewrite String.eqb_refl.
  - destruct (String.eqb k0 k) eqn:Hk; cbn [dict_set].
    + now rewrite String.eqb_refl.
    + now rewrite Hk, IH.
Qed.

(** ** [seq_stream] *)

Section Sequential.
Context {E : Environment}.
Variable url : string.
Variable timeout : timeout_t.
Variable max_retries : Z.
Variable fuel : nat.

Lemma seq_loop_turn (turns : nat) (w : World) (base_url : string)
    (querys : dict) (seq_num segment_count : Z) :
  seq_loop (S turns) fuel w base_url querys timeout max_retries seq_num
    segment_count
  = if seq_num <=? segment_count then
      let querys' := dict_set querys "sq" (str_of_int seq_num) in
      match stream (base_url ++ urlencode querys') timeout max_retries fuel w
      with
      | (evs, w1, Returned _) =>
          prepend evs
            (seq_loop turns fuel w1 base_url querys' timeout max_retries
               (seq_num + 1) segment_count)
      | (evs, w1, o) => (evs, w1, o)
      end
    else ([], w, Returned tt).
Proof.
  cbn [seq_loop]. destruct (seq_num <=? segment_count); [|reflexivity].
  cbv zeta.
  destruct (stream _ timeout max_retries fuel w) as [[evs w1] o].
  now destruct o.
Qed.

(** What [seq_stream] does once segment 0 has been fetched. *)
Lemma seq_stream_after_segment0 (w w1 : World) (evs0 : list event) :
  stream (segment_url url 0) timeout max_retries fuel w
  = (evs0, w1, Returned tt) ->
  seq_stream fuel w url timeout max_retries
  = match last_match_count (split_crlf (yielded evs0)) with
    | Some n =>
        prepend evs0
          (seq_loop (S (Z.to_nat n)) fuel w1 (base_url_of url)
             (dict_set (querys_of url) "sq" (str_of_int 0)) timeout
             max_retries 1 n)
    | None => (evs0, w1, Raised (UnboundLocalError "segment_count"))
    end.
Proof.
  intros Hrun.
  unfold seq_stream. fold (segment_url url 0). rewrite Hrun.
  rewrite scan_segment_count_last.
  destruct (last_match_count _) as [n|]; [|reflexivity].
  now destruct (seq_loop _ fuel w1 _ _ timeout max_retries 1 n)
    as [[evs w2] o].
Qed.


Section Segments.
Variable N : Z.
Variable T : Z -> list event.
Hypothesis HN : 0 <= N.
Hypothesis Hseg :
  forall (k : Z) (w : World), 0 <= k <= N ->
    exists w', stream (segment_url url k) timeout max_retries fuel w
               = (T k, w', Returned tt).
Hypothesis Hcount : scan_segment_count (yielded (T 0)) = Some N.

(** The loop over the later segments fetches them one after the other. *)
Lemma seq_loop_segments (m : nat) :
  forall (w : World) (seq_num : Z) (querys : dict),
    1 <= seq_num ->
    Z.of_nat m = N - seq_num + 1 ->
    (forall v, dict_set querys "sq" v = dict_set (querys_of url) "sq" v) ->
    exists w',
      seq_loop (S m) fuel w (base_url_of url) querys timeout max_retries
        seq_num N
      = (List.concat (map T (zseq seq_num m)), w', Returned tt).
Proof.
  induction m as [|m IH]; intros w seq_num querys Hseq Hm Hq;
    rewrite seq_loop_turn.
  - destruct (seq_num <=? N) eqn:Hle; [lia|]. now exists w.
  - destruct (seq_num <=? N) eqn:Hle; [|lia]. cbv zeta.
    rewrite Hq. fold (segment_url url seq_num).
    destruct (Hseg seq_num w ltac:(lia)) as (w1 & Hrun). rewrite Hrun.
    destruct (IH w1 (seq_num + 1)
                (dict_set (querys_of url) "sq" (str_of_int seq_num)))
      as (w2 & Hrest); [lia | lia | intros v; apply dict_set_twice |].
    rewrite Hrest. now exists w2.
Qed.

Lemma yielded_concat (traces : list (list event)) :
  yielded (List.concat traces) = List.concat (map yielded traces).
Proof.
  induction traces as [|t traces IH]; [reflexivity|].
  cbn [List.concat map]. now rewrite yielded_app, IH.
Qed.


End Segments.
End Sequential.




(** ** [filesize] and [seq_filesize] *)

Section Sizes.
Context {E : Environment}.

(** A [head] that gives a length has issued one HEAD request, for the
    URL it was given. *)
Lemma head_content_length_events (w w' : World) (u : string)
    (evs : list event) (n : Z) :
  head_content_length w u = (evs, w', Ok n) ->
  exists r, evs = [EvRequest SiteHead r]
            /\ req_url r = u /\ req_method r = Some "HEAD".
Proof.
  unfold head_content_length, head.
  destruct (_execute_request SiteHead w u (Some "HEAD") [] None
              GLOBAL_DEFAULT_TIMEOUT) as [[evs1 w1] r] eqn:Hreq.
  destruct (execute_request_inv _ _ _ _ _ _ _ _ _ Hreq) as
    [[-> ->] | (req & -> & Hu & Hm & _)]; [discriminate|].
  destruct r as [response | e]; [|discriminate].
  destruct (dict_get _ "content-length") as [v|]; [|discriminate].
  destruct (int_of_str v); [|discriminate].
  intros H; inversion H; subst. now exists req.
Qed.

Lemma head_loop_turn (turns : nat) (w : World) (base_url : string)
    (querys : dict) (seq_num segment_count total_filesize : Z) :
  head_loop (S turns) w base_url querys seq_num segment_count total_filesize
  = if seq_num <=? segment_count then
      let querys' := dict_set querys "sq" (str_of_int seq_num) in
      match head_content_length w (base_url ++ urlencode querys') with
      | (evs, w1, Ok n) =>
          prepend evs
            (head_loop turns w1 base_url querys' (seq_num + 1) segment_count
               (total_filesize + n))
      | (evs, w1, Raise e) => (evs, w1, Raised e)
      end
    else ([], w, Returned total_filesize).
Proof. reflexivity. Qed.

Section Heads.
Variable url : string.
Variable N : Z.
Variable L : Z -> Z.
Hypothesis Hhead :
  forall (k : Z) (w : World), 1 <= k <= N ->
    exists evs w', head_content_length w (segment_url url k)
                   = (evs, w', Ok (L k)).

(** The loop of [seq_filesize] asks for the segments one after the other
    and adds their lengths up. *)
Lemma head_loop_segments (m : nat) :
  forall (w : World) (seq_num total : Z) (querys : dict),
    1 <= seq_num ->
    Z.of_nat m = N - seq_num + 1 ->
    (forall v, dict_set querys "sq" v = dict_set (querys_of url) "sq" v) ->
    exists evs w',
      head_loop (S m) w (base_url_of url) querys seq_num N total
      = (evs, w', Returned (total + sum (map L (zseq seq_num m))))
      /\ map (fun sr => (fst sr, req_url (snd sr), req_method (snd sr)))
           (requests evs)
         = map (fun k => (SiteHead, segment_url url k, Some "HEAD"))
             (zseq seq_num m).
Proof.
  induction m as [|m IH]; intros w seq_num total querys Hseq Hm Hq;
    rewrite head_loop_turn.
  - destruct (seq_num <=? N) eqn:Hle; [lia|]. exists [], w.
    cbn [zseq map sum fold_right]. now rewrite Z.add_0_r.
  - destruct (seq_num <=? N) eqn:Hle; [|lia]. cbv zeta.
    rewrite Hq. fold (segment_url url seq_num).
    destruct (Hhead seq_num w ltac:(lia)) as (evs1 & w1 & Hrun).
    rewrite Hrun.
    destruct (head_content_length_events _ _ _ _ _ Hrun)
      as (r & -> & Hu & Hmeth).
    destruct (IH w1 (seq_num + 1) (total + L seq_num)
                (dict_set (querys_of url) "sq" (str_of_int seq_num)))
      as (evs & w2 & Hrest & Hreqs);
      [lia | lia | intros v; apply dict_set_twice |].
    rewrite Hrest. exists (EvRequest SiteHead r :: evs), w2. split.
    + cbn [prepend app zseq map sum fold_right]. f_equal. f_equal.
      fold (sum (map L (zseq (seq_num + 1) m))). lia.
    + cbn [requests flat_map app map zseq fst snd].
      fold (requests evs). now rewrite Hreqs, Hu, Hmeth.
Qed.

End Heads.

Lemma no_match_last (lines : list bytes) :
  Forall (fun l => segment_count_search l = None) lines ->
  last_match_count lines = None.
Proof.
  induction 1 as [|l lines Hl _ IH]; [reflexivity|].
  cbn [last_match_count]. rewrite IH. unfold count_of_line. now rewrite Hl.
Qed.

(** [seq_filesize] when the cache has nothing for the URL and the count
    found is zero, be it that no line matched or that the last matching
    line says zero. *)
Lemma seq_filesize_no_count (c : cache) (w w1 : World) (url : string)
    (evs0 : list event) (response : Response) (body : bytes) :
  cache_lookup c url = None ->
  _execute_request SiteSegment0 w (segment_url url 0) (Some "GET") [] None
    GLOBAL_DEFAULT_TIMEOUT = (evs0, w1, Ok response) ->
  read_first response = Ok body ->
  last_match_count (split_crlf body) = None
  \/ last_match_count (split_crlf body) = Some 0 ->
  seq_filesize c w url
  = (evs0, w1, c, Raised (RegexMatchError "seq_filesize" segment_regex))
  /\ List.length (requests evs0) = 1%nat
  /\ requests_at SiteHead evs0 = [].
Proof.
  intros Hmiss Hget Hread Hcount.
  unfold seq_filesize, lru_cache. rewrite Hmiss.
  unfold seq_filesize_wrapped. fold (segment_url url 0).
  rewrite Hget, Hread, scan_filesize_fold.
  destruct (execute_request_inv _ _ _ _ _ _ _ _ _ Hget) as
    [[_ Hbad] | (req & -> & _)]; [discriminate|].
  destruct Hcount as [-> | ->]; repeat split.
Qed.



(** A remembered call is answered from the cache. *)
Lemma lru_cache_again (f : World -> string -> run Z) (c c1 : cache)
    (w w1 : World) (key : string) (evs : list event) (v : Z) :
  lru_cache f c w key = (evs, w1, c1, Returned v) ->
  cache_lookup c1 key = Some v
  /\ forall w2 : World,
       lru_cache f c1 w2 key
       = ([], w2, (key, v) :: cache_remove c1 key, Returned v).
Proof.
  intros Hcall.
  assert (Hhit : cache_lookup c1 key = Some v).
  { unfold lru_cache in Hcall.
    destruct (cache_lookup c key) as [v0|].
    - inversion Hcall; subst. cbn. now rewrite String.eqb_refl.
    - destruct (f w key) as [[evs' w'] o]. destruct o as [v0| |];
        inversion Hcall; subst.
      cbn. now rewrite String.eqb_refl. }
  split; [exact Hhit|]. intros w2. unfold lru_cache. now rewrite Hhit.
Qed.

(** C9.  Once [filesize] or [seq_filesize] has returned a size for a URL,
    the next call for that URL returns the same size from the cache: it
    issues no request and leaves the world as it finds it.  The URL is
    still in the cache afterwards, so the same holds for the calls that
    follow. *)
Theorem size_lookups_memoized (c c1 : cache) (w w1 w2 : World) (url : string)
    (evs : list event) (v : Z) :
  filesize c w url = (evs, w1, c1, Returned v)
  \/ seq_filesize c w url = (evs, w1, c1, Returned v) ->
  exists c2,
    cache_lookup c2 url = Some v
    /\ (filesize c w url = (evs, w1, c1, Returned v) ->
        filesize c1 w2 url = ([], w2, c2, Returned v))
    /\ (seq_filesize c w url = (evs, w1, c1, Returned v) ->
        seq_filesize c1 w2 url = ([], w2, c2, Returned v)).
Proof.
  intros Hcall. exists ((url, v) :: cache_remove c1 url). split.
  - cbn. now rewrite String.eqb_refl.
  - split; intros H.
    + exact (proj2 (lru_cache_again _ _ _ _ _ _ _ _ H) w2).
    + exact (proj2 (lru_cache_again _ _ _ _ _ _ _ _ H) w2).
Qed.

End Sizes.





Lemma size_lookups_memoized_witness :
  exists evs c1 c2,
    @seq_filesize segments_env [] tt "https://host/videoplayback"
    = (evs, tt, c1, Returned 42)
    /\ @seq_filesize segments_env c1 tt "https://host/videoplayback"
       = ([], tt, c2, Returned 42).
Proof.
  pose (r := @seq_filesize segments_env [] tt "https://host/videoplayback").
  pose (evs := fst (fst (fst r))). pose (c1 := snd (fst r)).
  assert (H1 : @seq_filesize segments_env [] tt "https://host/videoplayback"
               = (evs, tt, c1, Returned 42)) by (vm_compute; reflexivity).
  destruct (@size_lookups_memoized segments_env [] c1 tt tt tt
              "https://host/videoplayback" evs 42 (or_intror H1))
    as (c2 & _ & _ & Hseq).
  exists evs, c1, c2. split; [exact H1 | exact (Hseq H1)].
Defined.

(* ------------------------------------------------------------------ *)
(** * Further properties of the module *)

(** ** The retry loop, beyond timeouts *)

Section Failures.
Context {E : Environment}.
Variable url : string.
Variable timeout : timeout_t.
Variable max_retries : Z.

Lemma fails_split (k m : nat) (w w' : World) (u : string) :
  fails (k + m) w u timeout w' ->
  exists wk, fails k w u timeout wk /\ fails m wk u timeout w'.
Proof.
  revert w; induction k as [|k IH]; intros w H; simpl in *.
  - now exists w.
  - destruct H as (evs & w1 & e & Hreq & He & Hrest).
    destruct (IH _ Hrest) as (wk & Hk & Hm).
    exists wk; split; [|assumption]. now exists evs, w1, e.
Qed.

(** One turn of the inner loop on a failure it passes over. *)
Lemma request_loop_pass (fuel : nat) (w w1 : World)
    (downloaded stop_pos tries : Z) (evs : list event) (e : exn) :
  tries < 1 + max_retries ->
  _execute_request SiteChunk w (range_url url downloaded stop_pos)
    (Some "GET") [] None timeout = (evs, w1, Raise e) ->
  recoverable e = true ->
  request_loop url timeout max_retries (S fuel) w downloaded stop_pos tries
  = prepend evs
      (request_loop url timeout max_retries fuel w1 downloaded stop_pos
         (tries + 1)).
Proof.
  intros Hlt Hreq He. cbn [request_loop].
  destruct (tries >=? 1 + max_retries) eqn:Hge; [lia|]. rewrite Hreq.
  destruct (request_loop url timeout max_retries fuel w1 downloaded stop_pos
              (tries + 1)) as [[evs' w2] x].
  destruct e as [[|msg]| | | | | | | | | | | |]; try discriminate; reflexivity.
Qed.

(** One turn of the inner loop on any other failure. *)
Lemma request_loop_fatal (fuel : nat) (w w1 : World)
    (downloaded stop_pos tries : Z) (evs : list event) (e : exn) :
  tries < 1 + max_retries ->
  _execute_request SiteChunk w (range_url url downloaded stop_pos)
    (Some "GET") [] None timeout = (evs, w1, Raise e) ->
  recoverable e = false ->
  request_loop url timeout max_retries (S fuel) w downloaded stop_pos tries
  = (evs, w1, Throw e).
Proof.
  intros Hlt Hreq He. cbn [request_loop].
  destruct (tries >=? 1 + max_retries) eqn:Hge; [lia|]. rewrite Hreq.
  destruct e as [[|msg]| | | | | | | | | | | |]; try discriminate; reflexivity.
Qed.

Lemma request_loop_fails (k : nat) :
  forall (w wk : World) (downloaded stop_pos tries : Z),
    fails k w (range_url url downloaded stop_pos) timeout wk ->
    tries + Z.of_nat k <= 1 + max_retries ->
    exists evs,
      List.length (requests evs) = k
      /\ chunks evs = []
      /\ forall fuel,
           request_loop url timeout max_retries (k + fuel) w downloaded
             stop_pos tries
           = prepend evs
               (request_loop url timeout max_retries fuel wk downloaded
                  stop_pos (tries + Z.of_nat k)).
Proof.
  induction k as [|k IH]; intros w wk downloaded stop_pos tries Hto Hle.
  - simpl in Hto; subst wk. exists []. repeat split.
    intros fuel; simpl. now rewrite Z.add_0_r, prepend_nil.
  - simpl in Hto. destruct Hto as (evs1 & w1 & e & Hreq & He & Hrest).
    destruct (IH w1 wk downloaded stop_pos (tries + 1) Hrest) as
      (evs & Hn & Hy & Hloop); [lia|].
    assert (Hlt : tries < 1 + max_retries) by lia.
    destruct (execute_request_inv _ _ _ _ _ _ _ _ _ Hreq) as
      [[_ Hbad] | (req & Hevs & _)].
    { inversion Hbad; subst e; discriminate He. }
    exists (evs1 ++ evs). subst evs1. repeat split.
    + rewrite requests_app, length_app, Hn. reflexivity.
    + assumption.
    + intros fuel. cbn [Nat.add].
      rewrite (request_loop_pass _ _ _ _ _ _ _ _ Hlt Hreq He), Hloop.
      replace (tries + 1 + Z.of_nat k) with (tries + Z.of_nat (S k)) by lia.
      now rewrite <- prepend_app.
Qed.

(** X1.  [IncompleteRead] is passed over and counted like a timeout:
    after [k] failures of either kind and then an answer, the inner loop
    leaves with the answer after [k + 1] requests if [max_retries >= k],
    and otherwise [stream] raises [MaxRetriesExceeded] after
    [max_retries + 1] requests. *)
Theorem incomplete_reads_are_retried (k : nat) (w0 wk w' : World)
    (file_size downloaded : Z) (ok : list event) (response : Response) :
  let stop_pos := Z.min (downloaded + range_size) file_size - 1 in
  let u := range_url url downloaded stop_pos in
  0 <= max_retries ->
  downloaded < file_size ->
  fails k w0 u timeout wk ->
  _execute_request SiteChunk wk u (Some "GET") [] None timeout
  = (ok, w', Ok response) ->
  (Z.of_nat k <= max_retries ->
   exists evs,
     request_loop url timeout max_retries (request_fuel max_retries) w0
       downloaded stop_pos 0
     = (evs, w', Break response)
     /\ List.length (requests evs) = S k
     /\ forall fuel,
          stream_loop url timeout max_retries (S fuel) w0 file_size downloaded
          = prepend evs
              (after_request url timeout
                 (stream_loop url timeout max_retries fuel) w' file_size
                 downloaded response))
  /\ (max_retries < Z.of_nat k ->
      exists evs w'',
        (forall fuel,
           stream_loop url timeout max_retries (S fuel) w0 file_size
             downloaded
           = (evs, w'', Raised MaxRetriesExceeded))
        /\ Z.of_nat (List.length (requests evs)) = max_retries + 1
        /\ chunks evs = []).
Proof.
  intros stop_pos u Hmax Hlt Hto Hok. split; intros Hk.
  - destruct (request_loop_fails k w0 wk downloaded stop_pos 0 Hto)
      as (evs & Hn & _ & Hloop); [lia|].
    destruct (execute_request_inv _ _ _ _ _ _ _ _ _ Hok) as
      [[_ Hbad] | (req & Hevs & _)]; [discriminate|]. subst ok.
    assert (Hrun : request_loop url timeout max_retries
                     (request_fuel max_retries) w0 downloaded stop_pos 0
                   = (evs ++ [EvRequest SiteChunk req], w', Break response)).
    { unfold request_fuel.
      replace (S (Z.to_nat (1 + max_retries)))
        with (k + S (Z.to_nat (1 + max_retries) - k))%nat by lia.
      rewrite Hloop. cbn [request_loop].
      destruct (0 + Z.of_nat k >=? 1 + max_retries) eqn:Hge; [lia|].
      fold u. rewrite Hok. reflexivity. }
    exists (evs ++ [EvRequest SiteChunk req]). repeat split.
    + exact Hrun.
    + rewrite requests_app, length_app, Hn. simpl; lia.
    + intros fuel. cbn [stream_loop].
      destruct (downloaded <? file_size) eqn:Hd; [|lia].
      fold stop_pos. rewrite Hrun. reflexivity.
  - set (m := Z.to_nat (1 + max_retries)).
    replace k with (m + (k - m))%nat in Hto by lia.
    destruct (fails_split _ _ _ _ _ Hto) as (wm & Hm & _).
    destruct (request_loop_fails m w0 wm downloaded stop_pos 0 Hm)
      as (evs & Hn & Hy & Hloop); [lia|].
    exists evs, wm. repeat split; try lia; try assumption.
    intros fuel. cbn [stream_loop].
    destruct (downloaded <? file_size) eqn:Hd; [|lia].
    fold stop_pos. unfold request_fuel. fold m.
    replace (S m) with (m + 1)%nat by lia.
    rewrite Hloop. cbn [request_loop].
    destruct (0 + Z.of_nat m >=? 1 + max_retries) eqn:Hge; [|lia].
    simpl. now rewrite app_nil_r.
Qed.

(** X2.  Any other failure of a chunk's request ends the run at once,
    budget or not: after [j] failures that were passed over, with
    [j <= max_retries], a failure that is neither a timeout inside a
    [URLError] nor an [IncompleteRead] ends [stream] after that one
    request and without another attempt, and nothing is yielded in the
    turn.  The generator raises the error as it is, except that a
    [StopIteration] comes out of it as [RuntimeError]; a [socket.timeout]
    that is not inside a [URLError] is among these failures. *)
Theorem fatal_errors_are_not_retried (j : nat) (w0 wj w' : World)
    (file_size downloaded : Z) (last : list event) (e : exn) :
  let stop_pos := Z.min (downloaded + range_size) file_size - 1 in
  let u := range_url url downloaded stop_pos in
  downloaded < file_size ->
  Z.of_nat j <= max_retries ->
  fails j w0 u timeout wj ->
  _execute_request SiteChunk wj u (Some "GET") [] None timeout
  = (last, w', Raise e) ->
  recoverable e = false ->
  exists evs,
    (forall fuel,
       stream_loop url timeout max_retries (S fuel) w0 file_size downloaded
       = (evs ++ last, w', Raised (generator_raise e)))
    /\ (e <> StopIteration -> generator_raise e = e)
    /\ (e = StopIteration ->
        generator_raise e = RuntimeError "generator raised StopIteration")
    /\ List.length (requests evs) = j
    /\ (List.length (requests last) <= 1)%nat
    /\ chunks (evs ++ last) = [].
Proof.
  intros stop_pos u Hlt Hj Hto Hreq He.
  destruct (request_loop_fails j w0 wj downloaded stop_pos 0 Hto)
    as (evs & Hn & Hy & Hloop); [lia|].
  exists evs.
  assert (Hlast : (List.length (requests last) <= 1)%nat /\ chunks last = []).
  { destruct (execute_request_inv _ _ _ _ _ _ _ _ _ Hreq) as
      [[-> _] | (req & -> & _)]; split; cbn; try lia; reflexivity. }
  repeat split; try assumption; try apply Hlast.
  - intros fuel. cbn [stream_loop].
    destruct (downloaded <? file_size) eqn:Hd; [|lia].
    fold stop_pos. unfold request_fuel.
    replace (S (Z.to_nat (1 + max_retries)))
      with (j + S (Z.to_nat (1 + max_retries) - j))%nat by lia.
    rewrite Hloop.
    assert (Htries : 0 + Z.of_nat j < 1 + max_retries) by lia.
    rewrite (request_loop_fatal _ _ _ _ _ _ _ _ Htries Hreq He).
    reflexivity.
  - intros Hne. now destruct e.
  - now intros ->.
  - rewrite chunks_app, Hy. apply Hlast.
Qed.

(** The inner loop never makes more requests than the budget allows. *)
Lemma request_loop_bound (fuel : nat) :
  forall (w w' : World) (downloaded stop_pos tries : Z) (evs : list event)
         (x : loop_exit),
    request_loop url timeout max_retries fuel w downloaded stop_pos tries
    = (evs, w', x) ->
    (List.length (requests evs) <= Z.to_nat (1 + max_retries - tries))%nat.
Proof.
  induction fuel as [|fuel IH]; intros w w' downloaded stop_pos tries evs x;
    cbn [request_loop].
  - intros H; inversion H; cbn; lia.
  - destruct (tries >=? 1 + max_retries) eqn:Hge.
    { intros H; inversion H; cbn; lia. }
    destruct (_execute_request SiteChunk w
                (range_url url downloaded stop_pos) (Some "GET") [] None
                timeout) as [[evs1 w1] r] eqn:Hreq.
    assert (H1 : (List.length (requests evs1) <= 1)%nat).
    { destruct (execute_request_inv _ _ _ _ _ _ _ _ _ Hreq) as
        [[-> _] | (req & -> & _)]; cbn; lia. }
    destruct r as [response | e].
    + intros H; inversion H; subst. lia.
    + destruct (request_loop url timeout max_retries fuel w1 downloaded
                  stop_pos (tries + 1)) as [[evs2 w2] x2] eqn:Hrest.
      pose proof (IH _ _ _ _ _ _ _ Hrest) as H2.
      destruct e as [[|msg]| | | | | | | | | | | |];
        intros H; inversion H; subst; try lia;
        rewrite requests_app, length_app; lia.
Qed.

(** X3.  A turn of the loop makes at most [1 + max_retries] requests for
    its chunk, whatever the transport does, and the inner loop always
    ends by itself; with a negative [max_retries] it makes none and
    [stream] raises [MaxRetriesExceeded] before anything is sent. *)
Theorem attempts_per_turn_bounded (fuel : nat) (w : World)
    (file_size downloaded : Z) :
  downloaded < file_size ->
  let stop_pos := Z.min (downloaded + range_size) file_size - 1 in
  exists evs1 w1 x,
    request_loop url timeout max_retries (request_fuel max_retries) w
      downloaded stop_pos 0 = (evs1, w1, x)
    /\ x <> Exhausted
    /\ (List.length (requests evs1) <= Z.to_nat (1 + max_retries))%nat
    /\ (max_retries < 0 ->
        stream_loop url timeout max_retries (S fuel) w file_size downloaded
        = ([], w, Raised MaxRetriesExceeded)).
Proof.
  intros Hlt stop_pos.
  destruct (request_loop url timeout max_retries (request_fuel max_retries)
              w downloaded stop_pos 0) as [[evs1 w1] x] eqn:Hloop.
  exists evs1, w1, x. split; [reflexivity|]. split; [|split].
  - pose proof (request_loop_ends url timeout max_retries
                  (request_fuel max_retries) w downloaded stop_pos 0)
      as Hends.
    rewrite Hloop in Hends. apply Hends. unfold request_fuel. lia.
  - pose proof (request_loop_bound _ _ _ _ _ _ _ _ Hloop) as Hb.
    now rewrite Z.sub_0_r in Hb.
  - intros Hneg. cbn [stream_loop].
    destruct (downloaded <? file_size) eqn:Hd; [|lia].
    unfold request_fuel. cbn [request_loop].
    destruct (0 >=? 1 + max_retries) eqn:Hge; [reflexivity | lia].
Qed.

End Failures.

(** ** URLs that are not sent *)

Lemma prefix_before (p : string) (c : ascii) :
  ~ In c (list_ascii_of_string p) ->
  forall u s : string,
    String.prefix p (u ++ String c s) = String.prefix p u.
Proof.
  induction p as [|a p IH]; intros Hc u s.
  - now destruct u.
  - destruct u as [|b u]; cbn.
    + destruct (ascii_dec a c) as [-> | _]; [|reflexivity].
      exfalso. apply Hc. now left.
    + destruct (ascii_dec a b); [|reflexivity].
      apply IH. intros Hin. apply Hc. now right.
Qed.

(** Appending the window does not change whether a URL is accepted. *)
Lemma http_range_url_same (url : string) (a b : Z) :
  String.prefix "http" (lower (range_url url a b))
  = String.prefix "http" (lower url).
Proof.
  unfold range_url. rewrite lower_app.
  change (lower ("&range=" ++ str_of_int a ++ "-" ++ str_of_int b))
    with (String "&" (lower ("range=" ++ str_of_int a ++ "-" ++ str_of_int b))).
  apply prefix_before. cbn. intros [H | [H | [H | [H | []]]]]; discriminate.
Qed.

Section Unsent.
Context {E : Environment}.
Variable url : string.
Hypothesis Hinvalid : String.prefix "http" (lower url) = false.

Lemma execute_request_invalid (site : call_site) (w : World)
    (method : option string) (headers : dict) (timeout : timeout_t) :
  _execute_request site w url method headers None timeout
  = ([], snd (choice w user_agents), Raise (ValueError "Invalid URL")).
Proof.
  unfold _execute_request. cbn [encode_data]. destruct (choice w user_agents) as [agent w1].
  now rewrite Hinvalid.
Qed.

End Unsent.

(** X4.  A URL that does not begin with [http], in whatever letter case,
    never reaches the network.  [stream] raises [ValueError] at its first
    step, with no request and no retry whatever the budget; [filesize],
    asked for a URL it has not cached, raises it too and caches
    nothing. *)
Theorem invalid_url_never_sent {E : Environment} (url : string)
    (timeout : timeout_t) (max_retries : Z) (fuel : nat) (w : World)
    (c : cache) :
  String.prefix "http" (lower url) = false ->
  0 < range_size ->
  0 <= max_retries ->
  stream url timeout max_retries (S fuel) w
  = ([], snd (choice w user_agents), Raised (ValueError "Invalid URL"))
  /\ (cache_lookup c url = None ->
      filesize c w url
      = ([], snd (choice w user_agents), c,
         Raised (ValueError "Invalid URL"))).
Proof.
  intros Hinvalid Hsize Hmax. split.
  - unfold stream. cbn [stream_loop].
    destruct (0 <? range_size) eqn:Hlt; [|lia].
    unfold request_fuel. cbn [request_loop].
    destruct (0 >=? 1 + max_retries) eqn:Hge; [lia|].
    rewrite execute_request_invalid; [reflexivity|].
    now rewrite http_range_url_same.
  - intros Hmiss. unfold filesize, lru_cache. rewrite Hmiss.
    unfold filesize_wrapped, head_content_length, head.
    now rewrite (execute_request_invalid url Hinvalid).
Qed.

(** ** Dictionaries *)

Lemma dict_get_set (d : dict) (k v k' : string) :
  dict_get (dict_set d k v) k'
  = if String.eqb k k' then Some v else dict_get d k'.
Proof.
  induction d as [|[k0 v0] d IH]; cbn [dict_set dict_get]; [reflexivity|].
  destruct (String.eqb k0 k) eqn:Hk0; cbn [dict_get].
  - apply String.eqb_eq in Hk0. subst k0.
    now destruct (String.eqb k k').
  - rewrite IH. destruct (String.eqb k0 k') eqn:Hk0'; [|reflexivity].
    apply String.eqb_eq in Hk0'. subst k'.
    rewrite String.eqb_sym. now rewrite Hk0.
Qed.

Lemma dict_get_app (l l' : list (string * string)) (k : string) :
  dict_get (l ++ l') k
  = match dict_get l k with
    | Some v => Some v
    | None => dict_get l' k
    end.
Proof.
  induction l as [|[k0 v0] l IH]; cbn [app dict_get]; [reflexivity|].
  now destruct (String.eqb k0 k).
Qed.

(** After [d.update(pairs)] a key has the value of the last pair that
    names it, and its old value if none does. *)
Lemma dict_get_update (pairs : list (string * string)) :
  forall (d : dict) (k : string),
    dict_get (dict_update d pairs) k
    = match dict_get (rev pairs) k with
      | Some v => Some v
      | None => dict_get d k
      end.
Proof.
  unfold dict_update.
  induction pairs as [|[k0 v0] pairs IH]; intros d k; [reflexivity|].
  cbn [fold_left rev fst snd]. rewrite IH, dict_get_app, dict_get_set.
  destruct (dict_get (rev pairs) k); [reflexivity|].
  cbn [dict_get]. now destruct (String.eqb k0 k).
Qed.

Lemma dict_set_keys (d : dict) (k v : string) :
  map fst (dict_set d k v)
  = match dict_get d k with
    | Some _ => map fst d
    | None => map fst d ++ [k]
    end.
Proof.
  induction d as [|[k0 v0] d IH]; cbn [dict_set dict_get]; [reflexivity|].
  destruct (String.eqb k0 k) eqn:Hk0; cbn [map fst].
  - apply String.eqb_eq in Hk0. now subst k0.
  - rewrite IH. now destruct (dict_get d k).
Qed.

Lemma dict_get_none (d : dict) (k : string) :
  dict_get d k = None <-> ~ In k (map fst d).
Proof.
  induction d as [|[k0 v0] d IH]; cbn [dict_get map fst In]; [tauto|].
  destruct (String.eqb k0 k) eqn:Hk0.
  - apply String.eqb_eq in Hk0. split; [discriminate | tauto].
  - apply String.eqb_neq in Hk0. tauto.
Qed.

Lemma dict_set_nodup (d : dict) (k v : string) :
  NoDup (map fst d) -> NoDup (map fst (dict_set d k v)).
Proof.
  intros Hd. rewrite dict_set_keys.
  destruct (dict_get d k) eqn:Hk; [assumption|].
  apply dict_get_none in Hk.
  apply NoDup_app; [assumption | repeat constructor; easy |].
  intros x Hx [<- | []]. contradiction.
Qed.

Lemma dict_update_nodup (pairs : list (string * string)) :
  forall d : dict, NoDup (map fst d) -> NoDup (map fst (dict_update d pairs)).
Proof.
  unfold dict_update.
  induction pairs as [|[k0 v0] pairs IH]; intros d Hd; [assumption|].
  cbn [fold_left]. apply IH. now apply dict_set_nodup.
Qed.

(** X5.  What [_execute_request] passes on.  The headers it gives to
    [Request] are the two defaults updated with the caller's fields: a
    field of the caller replaces the default spelled the same, the last
    one wins among fields of one name, a field under any other name is
    added, and no name occurs twice.  URL, method and timeout are passed
    as given.  A body that is [bytes], [None] or an object that is false
    is passed as it is; an object that is true is passed as its JSON
    text, encoded; and when [json.dumps] raises, the error is raised and
    nothing is sent. *)
Theorem request_headers_merge {E : Environment} (site : call_site)
    (w : World) (url : string) (method : option string) (headers : dict)
    (data : option payload) (timeout : timeout_t) :
  String.prefix "http" (lower url) = true ->
  (forall e, data = Some (Object true (Raise e)) ->
     _execute_request site w url method headers data timeout
     = ([], snd (choice w user_agents), Raise e))
  /\ ((forall e, data <> Some (Object true (Raise e))) ->
      exists req,
        fst (fst (_execute_request site w url method headers data timeout))
        = [EvRequest site req]
        /\ req_url req = url /\ req_method req = method
        /\ req_timeout req = timeout
        /\ req_data req
           = match data with
             | Some (Object true (Ok b)) => Some (Bytes b)
             | _ => data
             end
        /\ NoDup (map fst (req_headers req))
        /\ forall k,
             dict_get (req_headers req) k
             = match dict_get (rev headers) k with
               | Some v => Some v
               | None =>
                   if String.eqb k "User-Agent"
                   then Some (fst (choice w user_agents))
                   else if String.eqb k "accept-language"
                        then Some "en-US,en"
                        else None
               end).
Proof.
  intros Hhttp. unfold _execute_request.
  destruct (choice w user_agents) as [agent w1]. split.
  - intros e ->. reflexivity.
  - intros Hdata.
    assert (Henc : encode_data data
                   = Ok match data with
                        | Some (Object true (Ok b)) => Some (Bytes b)
                        | _ => data
                        end).
    { destruct data as [[b | [|] [b | e]]|]; try reflexivity.
      now destruct (Hdata e). }
    rewrite Henc, Hhttp.
    destruct (urlopen w1 _) as [r w2]. eexists. split; [reflexivity|].
    cbn [req_url req_method req_data req_timeout req_headers fst].
    repeat split.
    + apply dict_update_nodup.
      repeat constructor; cbn; intuition discriminate.
    + intros k. rewrite dict_get_update.
      destruct (dict_get (rev headers) k); [reflexivity|].
      cbn [dict_get]. rewrite (String.eqb_sym k "User-Agent").
      now rewrite (String.eqb_sym k "accept-language").
Qed.

(** ** What a run of [stream] keeps true *)

Section Bookkeeping.
Context {E : Environment}.
Variable url : string.
Variable timeout : timeout_t.
Variable max_retries : Z.

Lemma follows_app (e1 e2 : list event) :
  forall position,
    follows url position (e1 ++ e2)
    <-> follows url position e1
        /\ follows url (position + len (yielded e1)) e2.
Proof.
  induction e1 as [|e e1 IH]; intros position.
  - cbn. rewrite Z.add_0_r. tauto.
  - destruct e as [site r | chunk downloaded | e].
    + destruct site; cbn [app follows yielded flat_map];
        fold (yielded e1); rewrite IH; tauto.
    + cbn [app follows yielded flat_map]. fold (yielded e1).
      rewrite IH, len_app. split.
      * intros (Hc & -> & H1 & H2). repeat split; try assumption.
        now rewrite Z.add_assoc.
      * intros ((Hc & -> & H1) & H2). repeat split; try assumption.
        now rewrite <- Z.add_assoc.
    + cbn [app follows yielded flat_map]. fold (yielded e1).
      rewrite IH. tauto.
Qed.

(** What is only requests, probes and log entries yields nothing. *)
Lemma quiet_follows (evs : list event) (position : Z) :
  Forall (fun e => match e with
                   | EvRequest SiteChunk _ | EvYield _ _ => False
                   | _ => True
                   end) evs ->
  follows url position evs /\ yielded evs = [].
Proof.
  induction 1 as [|e evs He _ [IH1 IH2]]; [now split|].
  destruct e as [[| | |] r | chunk downloaded | e]; try contradiction;
    now split.
Qed.

Lemma request_loop_follows (fuel : nat) (w w' : World)
    (downloaded stop_pos tries : Z) (evs : list event) (x : loop_exit) :
  downloaded <= stop_pos < downloaded + range_size ->
  request_loop url timeout max_retries fuel w downloaded stop_pos tries
  = (evs, w', x) ->
  follows url downloaded evs /\ yielded evs = [].
Proof.
  intros Hwin Hloop.
  pose proof (request_loop_events _ _ _ _ _ _ _ _ _ _ _ Hloop) as Hev.
  clear Hloop. induction Hev as [|e l (r & -> & (Hu & _) & _) _ [IH1 IH2]];
    [now split|].
  split; [|exact IH2]. cbn [follows]. split; [|exact IH1].
  now exists stop_pos.
Qed.

Lemma size_probe_follows (w w' : World) (file_size position : Z)
    (evs : list event) (r : result Z) :
  size_probe url timeout w file_size = (evs, w', r) ->
  follows url position evs /\ yielded evs = [].
Proof.
  intros Hp. apply quiet_follows. unfold size_probe in Hp.
  destruct (file_size =? range_size).
  2:{ inversion Hp; constructor. }
  destruct (_execute_request SiteProbe w (probe_url url) (Some "GET") []
              None timeout) as [[evs1 w1] r1] eqn:Hreq.
  assert (H1 : Forall (fun e => match e with
                                | EvRequest SiteChunk _ | EvYield _ _ => False
                                | _ => True
                                end) evs1).
  { destruct (execute_request_inv _ _ _ _ _ _ _ _ _ Hreq) as
      [[-> _] | (req & -> & _)]; repeat constructor. }
  assert (H2 : forall e, Forall (fun e => match e with
                                | EvRequest SiteChunk _ | EvYield _ _ => False
                                | _ => True
                                end) (evs1 ++ [EvLog e])).
  { intros e. apply Forall_app. split; [exact H1 | repeat constructor]. }
  destruct r1 as [resp | e].
  - destruct (message_get (resp_headers resp) "Content-Length") as [v|].
    + destruct (int_of_str v); inversion Hp; subst; [exact H1 | apply H2].
    + inversion Hp; subst; exact H1.
  - destruct (caught_by_probe e); inversion Hp; subst; [apply H2 | exact H1].
Qed.

Lemma drain_follows (reads : list (result bytes)) :
  forall (downloaded d' : Z) (evs : list event) (x : drain_exit),
    drain reads downloaded = (evs, d', x) ->
    follows url downloaded evs
    /\ d' = downloaded + len (yielded evs)
    /\ requests evs = [].
Proof.
  induction reads as [|r reads IH]; intros downloaded d' evs x;
    cbn [drain].
  - intros H; inversion H; subst. cbn. repeat split. lia.
  - destruct r as [[|b chunk] | e].
    + intros H; inversion H; subst. cbn. repeat split. lia.
    + destruct (drain reads (downloaded + len (b :: chunk)))
        as [[evs1 d1] x1] eqn:Hrest.
      destruct (IH _ _ _ _ Hrest) as (Hf & Hd & Hr).
      intros H; inversion H; subst. cbn [follows yielded flat_map requests].
      fold (yielded evs1). fold (requests evs1). repeat split.
      * discriminate.
      * exact Hf.
      * rewrite len_app. lia.
      * exact Hr.
    + destruct e; intros H; inversion H; subst; cbn; repeat split; lia.
Qed.

(** Every run of the loop follows its position. *)
Lemma stream_loop_follows (fuel : nat) :
  forall (w w' : World) (file_size downloaded : Z) (evs : list event)
         (o : outcome unit),
    0 < range_size ->
    stream_loop url timeout max_retries fuel w file_size downloaded
    = (evs, w', o) ->
    follows url downloaded evs.
Proof.
  induction fuel as [|fuel IH]; intros w w' file_size downloaded evs o Hsize;
    cbn [stream_loop].
  - intros H; inversion H; exact I.
  - destruct (downloaded <? file_size) eqn:Hlt.
    2:{ intros H; inversion H; exact I. }
    apply Z.ltb_lt in Hlt.
    destruct (request_loop url timeout max_retries
                (request_fuel max_retries) w downloaded
                (Z.min (downloaded + range_size) file_size - 1) 0)
      as [[evs1 w1] x] eqn:Hloop.
    assert (Hwin : downloaded
                   <= Z.min (downloaded + range_size) file_size - 1
                   < downloaded + range_size) by lia.
    destruct (request_loop_follows _ _ _ _ _ _ _ _ Hwin Hloop) as [H1 Hy1].
    destruct x as [response | e |];
      try (intros H; inversion H; subst; exact H1).
    unfold after_request.
    destruct (size_probe url timeout w1 file_size) as [[evs2 w2] r] eqn:Hp.
    destruct (size_probe_follows _ _ _ downloaded _ _ Hp) as [H2 Hy2].
    assert (H12 : follows url downloaded (evs1 ++ evs2)).
    { apply follows_app. rewrite Hy1, Z.add_0_r. now split. }
    destruct r as [file_size' | e].
    2:{ intros H; inversion H; subst. exact H12. }
    destruct (drain (resp_reads response) downloaded) as [[evs3 d'] dx] eqn:Hd.
    destruct (drain_follows _ _ _ _ _ Hd) as (H3 & Hd' & _).
    assert (H123 : follows url downloaded (evs1 ++ evs2 ++ evs3)).
    { apply follows_app. rewrite Hy1, Z.add_0_r. split; [exact H1|].
      apply follows_app. rewrite Hy2, Z.add_0_r. now split. }
    destruct dx as [| | e].
    + destruct (stream_loop url timeout max_retries fuel w2 file_size' d')
        as [[evs4 w4] o4] eqn:Hrest.
      pose proof (IH _ _ _ _ _ _ Hsize Hrest) as H4.
      intros H; inversion H; subst.
      apply follows_app. rewrite Hy1, Z.add_0_r. split; [exact H1|].
      rewrite <- app_assoc.
      apply follows_app. rewrite Hy2, Z.add_0_r. split; [exact H2|].
      apply follows_app. split; [exact H3 | exact H4].
    + intros H; inversion H; subst. exact H123.
    + intros H; inversion H; subst. exact H123.
Qed.

Lemma stream_follows (fuel : nat) (w : World) :
  follows url 0 (fst (fst (stream url timeout max_retries fuel w))).
Proof.
  unfold stream.
  destruct (Z_lt_ge_dec 0 range_size) as [Hsize | Hsize].
  - destruct (stream_loop url timeout max_retries fuel w range_size 0)
      as [[evs w'] o] eqn:Hrun.
    exact (stream_loop_follows _ _ _ _ _ _ _ Hsize Hrun).
  - destruct fuel as [|fuel]; cbn [stream_loop]; [exact I|].
    destruct (0 <? range_size) eqn:Hlt; [lia | exact I].
Qed.

Lemma follows_downloaded (evs : list event) :
  forall position,
    follows url position evs ->
    downloaded_values evs = running_sums position (map len (chunks evs))
    /\ Forall (fun c => c <> []) (chunks evs)
    /\ increasing (position :: downloaded_values evs) = true.
Proof.
  induction evs as [|e evs IH]; intros position Hf.
  - repeat split. constructor.
  - destruct e as [site r | chunk downloaded | e].
    + assert (Hrest : follows url position evs)
        by (destruct site; cbn [follows] in Hf; tauto).
      exact (IH _ Hrest).
    + cbn [follows] in Hf. destruct Hf as (Hc & -> & Hrest).
      destruct (IH _ Hrest) as (Hd & Hne & Hinc).
      cbn [downloaded_values chunks flat_map app map running_sums].
      fold (downloaded_values evs). fold (chunks evs).
      repeat split.
      * now rewrite Hd.
      * now constructor.
      * apply increasing_cons; [|exact Hinc].
        assert (0 < len chunk); [|lia].
        destruct chunk; [easy | unfold len; cbn; lia].
    + exact (IH _ Hf).
Qed.

(** X6.  In every run of [stream], against any transport and however it
    ends, no chunk yielded is empty and [downloaded] at a yield is the
    number of bytes yielded up to and including that chunk; so its
    values increase strictly. *)
Theorem downloaded_counts_yielded_bytes (fuel : nat) (w : World) :
  let evs := fst (fst (stream url timeout max_retries fuel w)) in
  downloaded_values evs = running_sums 0 (map len (chunks evs))
  /\ Forall (fun c => c <> []) (chunks evs)
  /\ increasing (downloaded_values evs) = true.
Proof.
  intros evs.
  destruct (follows_downloaded evs 0 (stream_follows fuel w))
    as (Hd & Hne & Hinc).
  repeat split; try assumption. exact (increasing_tail 0 _ Hinc).
Qed.

(** X7.  In every run of [stream], each request for a chunk asks for a
    window that begins exactly where the bytes yielded so far end, and
    that has at least one byte and at most [range_size]: nothing is
    asked for twice and nothing is skipped, whatever the answers were. *)
Theorem requests_resume_where_yields_end (fuel : nat) (w : World)
    (before after : list event) (r : Request) :
  fst (fst (stream url timeout max_retries fuel w))
  = before ++ EvRequest SiteChunk r :: after ->
  exists stop_pos,
    req_url r = range_url url (len (yielded before)) stop_pos
    /\ len (yielded before) <= stop_pos < len (yielded before) + range_size.
Proof.
  intros Hsplit. pose proof (stream_follows fuel w) as Hf.
  rewrite Hsplit in Hf. apply follows_app in Hf. destruct Hf as [_ Hf].
  cbn [follows] in Hf. rewrite Z.add_0_l in Hf. apply Hf.
Qed.

End Bookkeeping.

(** ** The probe and the reads of a turn *)

Section Turn.
Context {E : Environment}.
Variable url : string.
Variable timeout : timeout_t.
Variable max_retries : Z.

(** A turn whose request was answered goes on with the answer. *)
Lemma stream_loop_answered (fuel : nat) (w w1 : World)
    (file_size downloaded : Z) (evs1 : list event) (response : Response) :
  downloaded < file_size ->
  request_loop url timeout max_retries (request_fuel max_retries) w
    downloaded (Z.min (downloaded + range_size) file_size - 1) 0
  = (evs1, w1, Break response) ->
  stream_loop url timeout max_retries (S fuel) w file_size downloaded
  = prepend evs1
      (after_request url timeout (stream_loop url timeout max_retries fuel)
         w1 file_size downloaded response).
Proof.
  intros Hlt Hloop. cbn [stream_loop].
  destruct (downloaded <? file_size) eqn:Hd; [|lia]. now rewrite Hloop.
Qed.

Lemma request_loop_quiet (fuel : nat) (w w' : World)
    (downloaded stop_pos tries : Z) (evs : list event) (x : loop_exit) :
  request_loop url timeout max_retries fuel w downloaded stop_pos tries
  = (evs, w', x) ->
  yielded evs = [] /\ requests_at SiteProbe evs = [].
Proof.
  intros Hloop.
  pose proof (request_loop_events _ _ _ _ _ _ _ _ _ _ _ Hloop) as Hev.
  split; [|exact (chunk_events_no_probe _ _ Hev)].
  clear Hloop. induction Hev as [|e l (r & -> & _) _ IH]; [reflexivity|].
  exact IH.
Qed.

(** X8.  A failure of the probe's own request is not retried and not
    passed over, unless it is a [KeyError], [IndexError] or
    [ValueError]: a timeout of the probe ends the run though the budget
    of retries is untouched, and the chunk whose request had just been
    answered is never read, so nothing of it is yielded.  The generator
    raises the error as it is, except that a [StopIteration] comes out
    of it as [RuntimeError]. *)
Theorem probe_failure_is_fatal (fuel : nat) (w w1 w2 : World)
    (downloaded : Z) (evs1 evs2 : list event) (response : Response)
    (e : exn) :
  downloaded < range_size ->
  request_loop url timeout max_retries (request_fuel max_retries) w
    downloaded (Z.min (downloaded + range_size) range_size - 1) 0
  = (evs1, w1, Break response) ->
  _execute_request SiteProbe w1 (probe_url url) (Some "GET") [] None timeout
  = (evs2, w2, Raise e) ->
  caught_by_probe e = false ->
  stream_loop url timeout max_retries (S fuel) w range_size downloaded
  = (evs1 ++ evs2, w2, Raised (generator_raise e))
  /\ (e <> StopIteration -> generator_raise e = e)
  /\ (e = StopIteration ->
      generator_raise e = RuntimeError "generator raised StopIteration")
  /\ yielded (evs1 ++ evs2) = []
  /\ (List.length (requests_at SiteProbe (evs1 ++ evs2)) <= 1)%nat.
Proof.
  intros Hlt Hloop Hprobe Hcaught.
  destruct (request_loop_quiet _ _ _ _ _ _ _ _ Hloop) as [Hy1 Hp1].
  assert (H2 : yielded evs2 = []
               /\ (List.length (requests_at SiteProbe evs2) <= 1)%nat).
  { destruct (execute_request_inv _ _ _ _ _ _ _ _ _ Hprobe) as
      [[-> _] | (req & -> & _)]; split; cbn; try lia; reflexivity. }
  split; [|split; [|split; [|split]]].
  - rewrite (stream_loop_answered fuel _ _ _ _ _ _ Hlt Hloop).
    unfold after_request, size_probe.
    now rewrite Z.eqb_refl, Hprobe, Hcaught.
  - intros Hne. now destruct e.
  - now intros ->.
  - rewrite yielded_app, Hy1. apply H2.
  - rewrite requests_at_app, Hp1. apply H2.
Qed.

(** X9.  When the answer to the probe has no [Content-Length] field,
    [int] is given [None] and raises [TypeError], which the probe does
    not pass over: the run ends with it and nothing is yielded. *)
Theorem probe_without_content_length (fuel : nat) (w w1 w2 : World)
    (downloaded : Z) (evs1 evs2 : list event)
    (response probe_response : Response) :
  downloaded < range_size ->
  request_loop url timeout max_retries (request_fuel max_retries) w
    downloaded (Z.min (downloaded + range_size) range_size - 1) 0
  = (evs1, w1, Break response) ->
  _execute_request SiteProbe w1 (probe_url url) (Some "GET") [] None timeout
  = (evs2, w2, Ok probe_response) ->
  message_get (resp_headers probe_response) "Content-Length" = None ->
  exists msg,
    stream_loop url timeout max_retries (S fuel) w range_size downloaded
    = (evs1 ++ evs2, w2, Raised (TypeError msg))
    /\ yielded (evs1 ++ evs2) = [].
Proof.
  intros Hlt Hloop Hprobe Hget.
  destruct (request_loop_quiet _ _ _ _ _ _ _ _ Hloop) as [Hy1 _].
  eexists. split.
  - rewrite (stream_loop_answered fuel _ _ _ _ _ _ Hlt Hloop).
    unfold after_request, size_probe.
    rewrite Z.eqb_refl, Hprobe, Hget. reflexivity.
  - rewrite yielded_app, Hy1.
    destruct (execute_request_inv _ _ _ _ _ _ _ _ _ Hprobe) as
      [[-> _] | (req & -> & _)]; reflexivity.
Qed.

(** The pieces read before the reads end or fail are yielded one by
    one. *)
Lemma drain_pieces (pieces : list bytes) :
  Forall (fun c => c <> []) pieces ->
  forall (downloaded : Z) (tail : list (result bytes)),
    exists ys,
      chunks ys = pieces
      /\ requests ys = []
      /\ forall evs d' x,
           drain tail (downloaded + len (List.concat pieces)) = (evs, d', x) ->
           drain (map Ok pieces ++ tail) downloaded = (ys ++ evs, d', x).
Proof.
  induction 1 as [|c pieces Hc _ IH]; intros downloaded tail.
  - exists []. repeat split. intros evs d' x. cbn. now rewrite Z.add_0_r.
  - destruct (IH (downloaded + len c) tail) as (ys & Hch & Hreq & Hdrain).
    exists (EvYield c (downloaded + len c) :: ys). repeat split.
    + cbn. fold (chunks ys). now rewrite Hch.
    + exact Hreq.
    + intros evs d' x Htail. cbn [List.concat] in Htail.
      rewrite len_app, Z.add_assoc in Htail. cbn [map app drain].
      rewrite (Hdrain _ _ _ Htail).
      destruct c; [contradiction | reflexivity].
Qed.

(** X10.  A [read] that raises [StopIteration] ends the generator
    without an error: the pieces read before it have been yielded, and
    [stream] returns there, with no further request, however many bytes
    are still missing. *)
Theorem stop_iteration_ends_stream (fuel : nat) (w w1 w2 : World)
    (file_size file_size' downloaded : Z) (evs1 evs2 : list event)
    (response : Response) (pieces : list bytes)
    (rest : list (result bytes)) :
  downloaded < file_size ->
  request_loop url timeout max_retries (request_fuel max_retries) w
    downloaded (Z.min (downloaded + range_size) file_size - 1) 0
  = (evs1, w1, Break response) ->
  size_probe url timeout w1 file_size = (evs2, w2, Ok file_size') ->
  resp_reads response = map Ok pieces ++ Raise StopIteration :: rest ->
  Forall (fun c => c <> []) pieces ->
  exists ys,
    stream_loop url timeout max_retries (S fuel) w file_size downloaded
    = (evs1 ++ evs2 ++ ys, w2, Returned tt)
    /\ chunks ys = pieces
    /\ requests ys = [].
Proof.
  intros Hlt Hloop Hprobe Hreads Hpieces.
  destruct (drain_pieces pieces Hpieces downloaded
              (Raise StopIteration :: rest)) as (ys & Hch & Hreq & Hdrain).
  exists ys. repeat split; try assumption.
  rewrite (stream_loop_answered fuel _ _ _ _ _ _ Hlt Hloop).
  unfold after_request. rewrite Hprobe, Hreads.
  rewrite (Hdrain [] _ DrainReturn eq_refl). cbn [prepend].
  now rewrite app_nil_r.
Qed.

(** X11.  Any other error of a [read], [IncompleteRead] among them, is
    outside the retry loop: the pieces read before it have been
    yielded, and [stream] raises the error without asking again. *)
Theorem read_errors_are_not_retried (fuel : nat) (w w1 w2 : World)
    (file_size file_size' downloaded : Z) (evs1 evs2 : list event)
    (response : Response) (pieces : list bytes) (e : exn)
    (rest : list (result bytes)) :
  downloaded < file_size ->
  request_loop url timeout max_retries (request_fuel max_retries) w
    downloaded (Z.min (downloaded + range_size) file_size - 1) 0
  = (evs1, w1, Break response) ->
  size_probe url timeout w1 file_size = (evs2, w2, Ok file_size') ->
  resp_reads response = map Ok pieces ++ Raise e :: rest ->
  Forall (fun c => c <> []) pieces ->
  e <> StopIteration ->
  exists ys,
    stream_loop url timeout max_retries (S fuel) w file_size downloaded
    = (evs1 ++ evs2 ++ ys, w2, Raised e)
    /\ chunks ys = pieces
    /\ requests ys = [].
Proof.
  intros Hlt Hloop Hprobe Hreads Hpieces He.
  destruct (drain_pieces pieces Hpieces downloaded (Raise e :: rest))
    as (ys & Hch & Hreq & Hdrain).
  exists ys. repeat split; try assumption.
  rewrite (stream_loop_answered fuel _ _ _ _ _ _ Hlt Hloop).
  unfold after_request. rewrite Hprobe, Hreads.
  assert (Htail : drain (Raise e :: rest)
                    (downloaded + len (List.concat pieces))
                  = ([], downloaded + len (List.concat pieces),
                     DrainRaise e)).
  { destruct e; try reflexivity. contradiction. }
  assert (Hsame : generator_raise e = e)
    by (destruct e; try reflexivity; contradiction).
  rewrite (Hdrain _ _ _ Htail), Hsame. cbn [prepend]. now rewrite app_nil_r.
Qed.

End Turn.

(** ** What [stream] never raises *)

Lemma generator_raise_not_stop (e : exn) : generator_raise e <> StopIteration.
Proof. destruct e; discriminate. Qed.

Lemma snd_prepend {E : Environment} {X : Type} (evs : list event)
    (r : list event * World * X) :
  snd (prepend evs r) = snd r.
Proof. destruct r as [[evs' w] x]. reflexivity. Qed.

(** No run of [stream] ends in [StopIteration]: the one a read raises is
    caught, and any other leaves the generator as a [RuntimeError]. *)
Lemma stream_never_stop_iteration {E : Environment} (url : string)
    (timeout : timeout_t) (max_retries : Z) (fuel : nat) :
  forall (w : World) (file_size downloaded : Z),
    snd (stream_loop url timeout max_retries fuel w file_size downloaded)
    <> Raised StopIteration.
Proof.
  induction fuel as [|fuel IH]; intros w file_size downloaded;
    cbn [stream_loop]; [discriminate|].
  destruct (downloaded <? file_size); [|discriminate].
  destruct (request_loop url timeout max_retries (request_fuel max_retries)
              w downloaded (Z.min (downloaded + range_size) file_size - 1) 0)
    as [[evs1 w1] x].
  destruct x as [response | e |].
  - rewrite snd_prepend. unfold after_request.
    destruct (size_probe url timeout w1 file_size) as [[evs2 w2] [fs | e]].
    + destruct (drain (resp_reads response) downloaded)
        as [[evs3 d'] [| | e]].
      * rewrite snd_prepend. apply IH.
      * discriminate.
      * cbn [snd]. intros [= H]. exact (generator_raise_not_stop e H).
    + cbn [snd]. intros [= H]. exact (generator_raise_not_stop e H).
  - cbn [snd]. intros [= H]. exact (generator_raise_not_stop e H).
  - discriminate.
Qed.

(** ** Answers without bytes *)

Section Silence.
Context {E : Environment}.
Variable url : string.
Variable timeout : timeout_t.
Variable max_retries : Z.
Hypothesis Hsilent : answers_nothing.
Hypothesis Hhttp : String.prefix "http" (lower url) = true.
Hypothesis Hsize : 0 < range_size.
Hypothesis Hretries : 0 <= max_retries.

Lemma silent_request (w : World) (stop_pos : Z) :
  exists req response w',
    request_loop url timeout max_retries (request_fuel max_retries) w 0
      stop_pos 0
    = ([EvRequest SiteChunk req], w', Break response)
    /\ req_url req = range_url url 0 stop_pos
    /\ drain (resp_reads response) 0 = ([], 0, DrainBreak).
Proof.
  unfold request_fuel. cbn [request_loop].
  destruct (0 >=? 1 + max_retries) eqn:Hge; [lia|].
  unfold _execute_request. cbn [encode_data].
  destruct (choice w user_agents) as [agent w1].
  rewrite http_range_url_same, Hhttp.
  match goal with |- context [urlopen w1 ?r] => set (req := r) end.
  destruct (Hsilent w1 req) as (response & w' & Hopen & Hreads & _).
  rewrite Hopen. exists req, response, w'. repeat split.
  destruct Hreads as [-> | (rest & ->)]; reflexivity.
Qed.

Lemma silent_probe (w : World) (file_size : Z) :
  0 < file_size ->
  exists evs w' file_size',
    size_probe url timeout w file_size = (evs, w', Ok file_size')
    /\ 0 < file_size' /\ yielded evs = []
    /\ requests_at SiteChunk evs = [].
Proof.
  intros Hpos. unfold size_probe.
  destruct (file_size =? range_size).
  2:{ exists [], w, file_size. now repeat split. }
  unfold _execute_request. cbn [encode_data].
  destruct (choice w user_agents) as [agent w1].
  rewrite probe_url_range, http_range_url_same, Hhttp.
  match goal with |- context [urlopen w1 ?r] => set (req := r) end.
  destruct (Hsilent w1 req) as (response & w' & Hopen & _ & v & n & Hget
                                & Hint & Hn).
  rewrite Hopen, Hget, Hint. exists [EvRequest SiteProbe req], w', n.
  now repeat split.
Qed.

Lemma silent_loop (fuel : nat) :
  forall (w : World) (file_size : Z),
    0 < file_size ->
    exists evs w',
      stream_loop url timeout max_retries fuel w file_size 0
      = (evs, w', OutOfFuel)
      /\ yielded evs = []
      /\ List.length (requests_at SiteChunk evs) = fuel.
Proof.
  induction fuel as [|fuel IH]; intros w file_size Hpos.
  - exists [], w. now repeat split.
  - destruct (silent_request w (Z.min (0 + range_size) file_size - 1))
      as (req & response & w1 & Hloop & _ & Hdrain).
    rewrite (stream_loop_answered url timeout max_retries fuel _ _ _ _ _ _
               Hpos Hloop).
    unfold after_request.
    destruct (silent_probe w1 file_size Hpos)
      as (evs2 & w2 & file_size' & Hprobe & Hpos' & Hy2 & Hc2).
    rewrite Hprobe, Hdrain.
    destruct (IH w2 file_size' Hpos') as (evs & w' & Hrun & Hy & Hn).
    rewrite Hrun. cbn [prepend]. eexists _, w'. split; [reflexivity|].
    split.
    + rewrite !yielded_app, Hy2, Hy. reflexivity.
    + rewrite !requests_at_app, !length_app, Hc2, Hn. reflexivity.
Qed.

(** X12.  If every request is answered with an empty body while the
    size reported is positive, [stream] never ends: each turn sends one
    more request for a chunk, yields nothing and goes round; there is
    no bound on the turns, and the retry budget does not apply, since
    no request fails.  (In the model: the run uses up any fuel, one
    request for a chunk per unit.) *)
Theorem empty_answers_never_end (fuel : nat) (w : World) :
  exists evs w',
    stream url timeout max_retries fuel w = (evs, w', OutOfFuel)
    /\ yielded evs = []
    /\ List.length (requests_at SiteChunk evs) = fuel.
Proof. exact (silent_loop fuel w range_size Hsize). Qed.

End Silence.

(** ** [seq_stream] when a segment fails *)

Section Broken.
Context {E : Environment}.
Variable url : string.
Variable timeout : timeout_t.
Variable max_retries : Z.
Variable fuel : nat.
Variable N k : Z.
Variable T : Z -> list event.
Variable partial : list event.
Variable e : exn.
Hypothesis Hk : 1 <= k <= N.
Hypothesis Hseg :
  forall (j : Z) (w : World), 0 <= j < k ->
    exists w', stream (segment_url url j) timeout max_retries fuel w
               = (T j, w', Returned tt).
Hypothesis Hcount : scan_segment_count (yielded (T 0)) = Some N.
Hypothesis Hfail :
  forall w : World,
    exists w', stream (segment_url url k) timeout max_retries fuel w
               = (partial, w', Raised e).

Lemma seq_loop_broken (m : nat) :
  forall (extra : nat) (w : World) (seq_num : Z) (querys : dict),
    1 <= seq_num ->
    Z.of_nat m = k - seq_num ->
    (forall v, dict_set querys "sq" v = dict_set (querys_of url) "sq" v) ->
    exists w',
      seq_loop (S (m + extra)) fuel w (base_url_of url) querys timeout
        max_retries seq_num N
      = (List.concat (map T (zseq seq_num m)) ++ partial, w', Raised e).
Proof.
  induction m as [|m IH]; intros extra w seq_num querys Hseq Hm Hq;
    cbn [Nat.add]; rewrite seq_loop_turn;
    (destruct (seq_num <=? N) eqn:Hle; [|lia]); cbv zeta;
    rewrite Hq; fold (segment_url url seq_num).
  - replace seq_num with k by lia.
    destruct (Hfail w) as (w' & Hrun). rewrite Hrun. now exists w'.
  - destruct (Hseg seq_num w) as (w1 & Hrun); [lia|]. rewrite Hrun.
    destruct (IH extra w1 (seq_num + 1)
                (dict_set (querys_of url) "sq" (str_of_int seq_num)))
      as (w2 & Hrest); [lia | lia | intros v; apply dict_set_twice |].
    rewrite Hrest. exists w2. cbn [prepend zseq map List.concat].
    now rewrite app_assoc.
Qed.


End Broken.

(** ** The query of a segment's URL *)

Lemma dict_get_of_pairs (pairs : list (string * string)) (k : string) :
  dict_get (dict_of_pairs pairs) k = dict_get (rev pairs) k.
Proof.
  unfold dict_of_pairs. rewrite dict_get_update.
  now destruct (dict_get (rev pairs) k).
Qed.

(** X14.  The URL of a segment is the base URL followed by the encoded
    query, in which [sq] occurs once, with the number of the segment as
    its value, whether or not the URL given had an [sq]; every other
    parameter of the URL given occurs once, with the last value it had
    there; and the parameters come in the same order for every
    segment. *)
Theorem segment_query_has_one_sq {E : Environment} (url : string)
    (seq_num : Z) :
  exists querys,
    segment_url url seq_num = (base_url_of url ++ urlencode querys)%string
    /\ NoDup (map fst querys)
    /\ dict_get querys "sq" = Some (str_of_int seq_num)
    /\ (forall key, key <> "sq" ->
          dict_get querys key
          = dict_get (rev (parse_qsl (query (urlsplit url)))) key)
    /\ map fst querys
       = map fst (dict_set (querys_of url) "sq" (str_of_int 0)).
Proof.
  exists (dict_set (querys_of url) "sq" (str_of_int seq_num)).
  split; [reflexivity|]. split; [|split; [|split]].
  - apply dict_set_nodup. unfold querys_of, dict_of_pairs.
    apply dict_update_nodup. constructor.
  - rewrite dict_get_set. now rewrite String.eqb_refl.
  - intros key Hkey. rewrite dict_get_set.
    destruct (String.eqb "sq" key) eqn:Heq.
    + apply String.eqb_eq in Heq. congruence.
    + apply dict_get_of_pairs.
  - now rewrite !dict_set_keys.
Qed.

(** ** [seq_filesize] and [seq_stream] on the same resource *)

Lemma len_concat (ls : list bytes) :
  len (List.concat ls) = sum (map len ls).
Proof.
  induction ls as [|l ls IH]; [reflexivity|].
  cbn [List.concat map sum fold_right]. rewrite len_app, IH. reflexivity.
Qed.

Section Consistent.
Context {E : Environment}.
Variable url : string.
Variable timeout : timeout_t.
Variable max_retries : Z.
Variable fuel : nat.
Variable N : Z.
Variable T : Z -> list event.
Hypothesis HN : 1 <= N.
Hypothesis Hseg :
  forall (k : Z) (w : World), 0 <= k <= N ->
    exists w', stream (segment_url url k) timeout max_retries fuel w
               = (T k, w', Returned tt).
Hypothesis Hcount : scan_segment_count (yielded (T 0)) = Some N.
Hypothesis Hget :
  forall w : World,
    exists evs w' response,
      _execute_request SiteSegment0 w (segment_url url 0) (Some "GET") []
        None GLOBAL_DEFAULT_TIMEOUT = (evs, w', Ok response)
      /\ read_first response = Ok (yielded (T 0)).
Hypothesis Hhead :
  forall (k : Z) (w : World), 1 <= k <= N ->
    exists evs w', head_content_length w (segment_url url k)
                   = (evs, w', Ok (len (yielded (T k)))).


End Consistent.

(** ** [head] *)

Lemma lower_ascii_idem (c : ascii) : lower_ascii (lower_ascii c) = lower_ascii c.
Proof. destruct c as [[] [] [] [] [] [] [] []]; reflexivity. Qed.

Lemma lower_idem (s : string) : lower (lower s) = lower s.
Proof.
  induction s as [|c s IH]; [reflexivity|].
  cbn [lower]. now rewrite lower_ascii_idem, IH.
Qed.

Lemma dict_get_lowered (hs : list (string * string)) (name : string) :
  dict_get (map (fun kv => (lower (fst kv), snd kv)) hs) (lower name)
  = message_get hs name.
Proof.
  induction hs as [|[k v] hs IH]; [reflexivity|].
  cbn [map fst snd dict_get message_get]. now rewrite IH.
Qed.

Lemma dict_update_keys_forall (P : string -> Prop)
    (pairs : list (string * string)) :
  Forall P (map fst pairs) ->
  forall d : dict, Forall P (map fst d) ->
    Forall P (map fst (dict_update d pairs)).
Proof.
  unfold dict_update.
  induction pairs as [|[k v] pairs IH]; intros Hp d Hd; [assumption|].
  inversion Hp; subst. cbn [fold_left fst snd]. apply IH; [assumption|].
  rewrite dict_set_keys. destruct (dict_get d k); [assumption|].
  apply Forall_app. split; [assumption | now constructor].
Qed.

Lemma int_error_is_value_error (s : string) :
  exists msg, int_error s = ValueError msg.
Proof.
  unfold int_error.
  destruct (parse_digits 0 false (take_numeral (unsigned_part s)));
    [|eexists; reflexivity].
  destruct (int_max_str_digits <? count_digits (take_numeral (unsigned_part s)));
    eexists; reflexivity.
Qed.

(** X16.  [head] issues one HEAD request, without body, for the URL it
    is given, and returns the header fields under their names in lower
    case, each name once; a name that came more than once, in whatever
    letter case, has the value of its last field.  So
    [int(head(url)['content-length'])] reads the last [Content-Length]
    field, whatever its case, raises [KeyError] when there is none and
    a [ValueError] when [int] refuses its value. *)
Theorem head_keeps_last_field {E : Environment} (w w' : World) (url : string)
    (evs : list event) (response : Response) :
  _execute_request SiteHead w url (Some "HEAD") [] None GLOBAL_DEFAULT_TIMEOUT
  = (evs, w', Ok response) ->
  exists headers req,
    head w url = (evs, w', Ok headers)
    /\ evs = [EvRequest SiteHead req]
    /\ req_url req = url /\ req_method req = Some "HEAD"
    /\ req_data req = None
    /\ NoDup (map fst headers)
    /\ Forall (fun k => lower k = k) (map fst headers)
    /\ (forall name,
          dict_get headers (lower name)
          = message_get (rev (resp_headers response)) name)
    /\ exists r,
         head_content_length w url = (evs, w', r)
         /\ match message_get (rev (resp_headers response)) "content-length"
            with
            | Some v =>
                match int_of_str v with
                | Some n => r = Ok n
                | None => exists msg, r = Raise (ValueError msg)
                end
            | None => r = Raise (KeyError "content-length")
            end.
Proof.
  intros Hreq.
  set (headers := dict_of_pairs
                    (map (fun kv => (lower (fst kv), snd kv))
                       (resp_headers response))).
  assert (Hhead : head w url = (evs, w', Ok headers)).
  { unfold head. now rewrite Hreq. }
  assert (Hget : forall name,
             dict_get headers (lower name)
             = message_get (rev (resp_headers response)) name).
  { intros name. unfold headers.
    rewrite dict_get_of_pairs, <- map_rev. apply dict_get_lowered. }
  destruct (execute_request_inv _ _ _ _ _ _ _ _ _ Hreq) as
    [[_ Hbad] | (req & Hevs & Hu & Hm & Hd & _)]; [discriminate|].
  exists headers, req. repeat split; try assumption.
  - unfold headers, dict_of_pairs. apply dict_update_nodup. constructor.
  - unfold headers, dict_of_pairs. apply dict_update_keys_forall;
      [|constructor].
    rewrite map_map. cbn [fst]. apply Forall_map, Forall_forall.
    intros kv _. apply lower_idem.
  - unfold head_content_length. rewrite Hhead.
    change "content-length" with (lower "content-length") at 1.
    rewrite Hget.
    destruct (message_get (rev (resp_headers response)) "content-length")
      as [v|]; [|eexists; split; reflexivity].
    destruct (int_of_str v) as [n|]; [eexists; split; reflexivity|].
    destruct (int_error_is_value_error v) as (msg & Hmsg).
    eexists. split; [reflexivity|]. exists msg. now rewrite Hmsg.
Qed.

(** ** The cache *)

Lemma cache_lookup_none (c : cache) (key : string) :
  cache_lookup c key = None <-> ~ In key (map fst c).
Proof.
  induction c as [|[k v] c IH]; cbn [cache_lookup map fst In]; [tauto|].
  destruct (String.eqb k key) eqn:Hk.
  - apply String.eqb_eq in Hk. split; [discriminate | tauto].
  - apply String.eqb_neq in Hk. tauto.
Qed.

Lemma cache_remove_keys (c : cache) (key : string) :
  map fst (cache_remove c key)
  = filter (fun k => negb (String.eqb k key)) (map fst c).
Proof.
  unfold cache_remove.
  induction c as [|[k v] c IH]; [reflexivity|].
  cbn [filter map fst]. destruct (String.eqb k key); cbn [negb map fst];
    now rewrite IH.
Qed.

Lemma cache_remove_length (c : cache) (key : string) (v : Z) :
  cache_lookup c key = Some v ->
  (S (List.length (cache_remove c key)) <= List.length c)%nat.
Proof.
  unfold cache_remove.
  induction c as [|[k0 v0] c IH]; cbn [cache_lookup]; [discriminate|].
  cbn [filter fst]. destruct (String.eqb k0 key) eqn:Hk; cbn [negb].
  - intros _. pose proof (filter_length_le
                            (fun kv : string * Z =>
                               negb (String.eqb (fst kv) key)) c).
    cbn [List.length]. lia.
  - intros H. specialize (IH H). cbn [List.length]. lia.
Qed.

Lemma in_firstn {A : Type} (n : nat) (l : list A) (x : A) :
  In x (firstn n l) -> In x l.
Proof.
  revert n; induction l as [|y l IH]; intros [|n]; cbn; try tauto.
  intros [-> | H]; [now left | right; exact (IH n H)].
Qed.

Lemma nodup_firstn {A : Type} (n : nat) (l : list A) :
  NoDup l -> NoDup (firstn n l).
Proof.
  revert n; induction l as [|x l IH]; intros [|n] H; cbn; try constructor.
  - inversion H; subst. intros Hin. apply in_firstn in Hin. contradiction.
  - inversion H; subst. now apply IH.
Qed.

Lemma cache_lookup_app (l l' : cache) (key : string) :
  cache_lookup (l ++ l') key
  = match cache_lookup l key with
    | Some v => Some v
    | None => cache_lookup l' key
    end.
Proof.
  induction l as [|[k v] l IH]; cbn [app cache_lookup]; [reflexivity|].
  now destruct (String.eqb k key).
Qed.

Lemma cache_remove_absent (c : cache) (key : string) :
  cache_lookup c key = None -> cache_remove c key = c.
Proof.
  unfold cache_remove.
  induction c as [|[k v] c IH]; cbn [cache_lookup filter fst];
    [reflexivity|].
  destruct (String.eqb k key); [discriminate|]. cbn [negb].
  intros H. now rewrite (IH H).
Qed.

(** A hit on the entry at the far end of the cache brings it to the
    front and leaves the others in their order. *)
Lemma lru_cache_refresh {E : Environment} (f : World -> string -> run Z)
    (rest : cache) (u : string) (vu : Z) (w : World) :
  NoDup (map fst (rest ++ [(u, vu)])) ->
  lru_cache f (rest ++ [(u, vu)]) w u
  = ([], w, (u, vu) :: rest, Returned vu).
Proof.
  intros Hnd.
  assert (Hrest : cache_lookup rest u = None).
  { apply cache_lookup_none. rewrite map_app in Hnd. cbn [map fst] in Hnd.
    apply NoDup_remove_2 in Hnd. now rewrite app_nil_r in Hnd. }
  unfold lru_cache. rewrite cache_lookup_app, Hrest.
  cbn [cache_lookup]. rewrite String.eqb_refl.
  unfold cache_remove. rewrite filter_app.
  fold (cache_remove rest u). rewrite (cache_remove_absent rest u Hrest).
  cbn [filter fst]. rewrite String.eqb_refl. cbn [negb].
  now rewrite app_nil_r.
Qed.

Section Cache.
Context {E : Environment}.
Variable f : World -> string -> run Z.

Lemma lru_cache_raised (c c1 : cache) (w w1 : World) (key : string)
    (evs : list event) (o : outcome Z) :
  lru_cache f c w key = (evs, w1, c1, o) ->
  (forall v, o <> Returned v) ->
  c1 = c /\ cache_lookup c key = None /\ f w key = (evs, w1, o).
Proof.
  unfold lru_cache. intros Hcall Ho.
  destruct (cache_lookup c key) as [v0|].
  - injection Hcall as _ _ _ <-. now elim (Ho v0).
  - destruct (f w key) as [[evs' w'] o'].
    destruct o' as [v0| e |]; injection Hcall as <- <- <- <-;
      [now elim (Ho v0) | now repeat split ..].
Qed.

Lemma lru_cache_miss (c : cache) (w w1 : World) (key : string)
    (evs : list event) (v : Z) :
  cache_lookup c key = None ->
  f w key = (evs, w1, Returned v) ->
  lru_cache f c w key
  = (evs, w1, firstn lru_maxsize ((key, v) :: c), Returned v).
Proof. intros Hmiss Hf. unfold lru_cache. now rewrite Hmiss, Hf. Qed.

Lemma lru_cache_ok (c c1 : cache) (w w1 : World) (key : string)
    (evs : list event) (o : outcome Z) :
  cache_ok c ->
  lru_cache f c w key = (evs, w1, c1, o) ->
  cache_ok c1.
Proof.
  unfold cache_ok. intros [Hnd Hlen] Hcall.
  destruct (cache_lookup c key) as [v0|] eqn:Hlook.
  - unfold lru_cache in Hcall. rewrite Hlook in Hcall.
    assert (c1 = (key, v0) :: cache_remove c key) by congruence. subst c1.
    split.
    + cbn [map fst]. constructor.
      * rewrite cache_remove_keys. intros Hin. apply filter_In in Hin.
        destruct Hin as [_ Hneq]. now rewrite String.eqb_refl in Hneq.
      * rewrite cache_remove_keys. now apply NoDup_filter.
    + pose proof (cache_remove_length c key v0 Hlook). cbn [List.length].
      lia.
  - destruct (f w key) as [[evs' w'] o'] eqn:Hf.
    destruct o' as [v0| e |].
    + rewrite (lru_cache_miss _ _ _ _ _ _ Hlook Hf) in Hcall.
      assert (c1 = firstn lru_maxsize ((key, v0) :: c)) by congruence.
      subst c1. split.
      * rewrite <- firstn_map. apply nodup_firstn. cbn [map fst].
        constructor; [now apply cache_lookup_none | assumption].
      * rewrite length_firstn. lia.
    + unfold lru_cache in Hcall. rewrite Hlook, Hf in Hcall.
      assert (c1 = c) by congruence. now subst c1.
    + unfold lru_cache in Hcall. rewrite Hlook, Hf in Hcall.
      assert (c1 = c) by congruence. now subst c1.
Qed.

Lemma lru_cache_evicts (older : cache) (u key : string) (vu v : Z)
    (w w1 : World) (evs : list event) :
  cache_ok (older ++ [(u, vu)]) ->
  List.length (older ++ [(u, vu)]) = lru_maxsize ->
  cache_lookup (older ++ [(u, vu)]) key = None ->
  f w key = (evs, w1, Returned v) ->
  lru_cache f (older ++ [(u, vu)]) w key
  = (evs, w1, (key, v) :: older, Returned v)
  /\ cache_lookup ((key, v) :: older) u = None.
Proof.
  intros [Hnd _] Hlen Hmiss Hf. split.
  - rewrite (lru_cache_miss _ _ _ _ _ _ Hmiss Hf). do 2 f_equal.
    rewrite length_app in Hlen. cbn [List.length] in Hlen.
    replace lru_maxsize with (S (List.length older)) by lia.
    cbn [firstn]. f_equal. rewrite firstn_app, Nat.sub_diag.
    cbn [firstn]. now rewrite firstn_all, app_nil_r.
  - apply cache_lookup_none in Hmiss. apply cache_lookup_none.
    rewrite map_app in Hnd, Hmiss. cbn [map fst] in *.
    intros [<- | Hin].
    + apply Hmiss, in_or_app. right. now left.
    + apply NoDup_remove_2 in Hnd. rewrite app_nil_r in Hnd. contradiction.
Qed.

End Cache.

(** X17.  A call of [filesize] or [seq_filesize] that raises is not
    remembered: the cache is as it was, the URL is not in it, and a
    later call for the URL asks the server again; if that one succeeds,
    its value is cached. *)
Theorem failures_are_not_cached {E : Environment} (c c1 : cache)
    (w w1 : World) (url : string) (evs : list event) (e : exn) :
  filesize c w url = (evs, w1, c1, Raised e)
  \/ seq_filesize c w url = (evs, w1, c1, Raised e) ->
  c1 = c
  /\ cache_lookup c1 url = None
  /\ (forall w2 evs2 w3 v,
        filesize_wrapped w2 url = (evs2, w3, Returned v) ->
        filesize c1 w2 url
        = (evs2, w3, firstn lru_maxsize ((url, v) :: c1), Returned v))
  /\ (forall w2 evs2 w3 v,
        seq_filesize_wrapped w2 url = (evs2, w3, Returned v) ->
        seq_filesize c1 w2 url
        = (evs2, w3, firstn lru_maxsize ((url, v) :: c1), Returned v)).
Proof.
  intros Hcall.
  assert (H : c1 = c /\ cache_lookup c url = None).
  { destruct Hcall as [Hcall | Hcall];
      destruct (lru_cache_raised _ _ _ _ _ _ _ _ Hcall) as (H1 & H2 & _);
      try discriminate; now split. }
  destruct H as [-> Hmiss]. repeat split; try assumption.
  - intros w2 evs2 w3 v Hf. unfold filesize, lru_cache.
    now rewrite Hmiss, Hf.
  - intros w2 evs2 w3 v Hf. unfold seq_filesize, lru_cache.
    now rewrite Hmiss, Hf.
Qed.

(** X18.  Whatever calls are made and however they end, the cache of
    [filesize], and that of [seq_filesize], holds no URL twice and
    never more than 128 entries. *)
Theorem cache_stays_bounded {E : Environment} (c c1 : cache) (w w1 : World)
    (url : string) (evs : list event) (o : outcome Z) :
  cache_ok c ->
  filesize c w url = (evs, w1, c1, o)
  \/ seq_filesize c w url = (evs, w1, c1, o) ->
  cache_ok c1.
Proof.
  intros Hok [Hcall | Hcall]; exact (lru_cache_ok _ _ _ _ _ _ _ _ Hok Hcall).
Qed.

(** X19.  The cache drops the URL used longest ago, where a use is a
    call that was answered from the cache as much as one that filled it.
    Let the cache hold 128 URLs, [u1] used longest ago and [u2] next, and
    let [filesize] resolve one more: [u1] is dropped and the next call
    for it asks the server again.  But if [u1] is looked up first, the
    answer comes from the cache, with no request, and the new URL then
    takes the place of [u2], while [u1] stays. *)
Theorem full_cache_evicts_oldest {E : Environment} (front : cache)
    (u1 u2 url : string) (v1 v2 v : Z) (w w1 : World) (evs : list event) :
  let c := front ++ [(u2, v2); (u1, v1)] in
  cache_ok c ->
  List.length c = lru_maxsize ->
  cache_lookup c url = None ->
  filesize_wrapped w url = (evs, w1, Returned v) ->
  (filesize c w url
   = (evs, w1, (url, v) :: front ++ [(u2, v2)], Returned v)
   /\ cache_lookup ((url, v) :: front ++ [(u2, v2)]) u1 = None
   /\ cache_lookup ((url, v) :: front ++ [(u2, v2)]) u2 = Some v2
   /\ forall w2,
        fst (fst (fst (filesize ((url, v) :: front ++ [(u2, v2)]) w2 u1)))
        = fst (fst (filesize_wrapped w2 u1)))
  /\ (filesize c w u1
      = ([], w, (u1, v1) :: front ++ [(u2, v2)], Returned v1)
      /\ filesize ((u1, v1) :: front ++ [(u2, v2)]) w url
         = (evs, w1, (url, v) :: (u1, v1) :: front, Returned v)
      /\ cache_lookup ((url, v) :: (u1, v1) :: front) u1 = Some v1
      /\ cache_lookup ((url, v) :: (u1, v1) :: front) u2 = None).
Proof.
  intros c Hok Hlen Hmiss Hf.
  assert (Hc : c = (front ++ [(u2, v2)]) ++ [(u1, v1)])
    by (unfold c; now rewrite <- app_assoc).
  assert (Hurl : url <> u1 /\ url <> u2).
  { apply cache_lookup_none in Hmiss. unfold c in Hmiss.
    rewrite map_app in Hmiss. cbn [map fst] in Hmiss.
    split; intros ->; apply Hmiss, in_or_app; right; cbn; tauto. }
  assert (Hu : u2 <> u1).
  { destruct Hok as [Hnd _]. unfold c in Hnd. rewrite map_app in Hnd.
    cbn [map fst] in Hnd. apply NoDup_app_remove_l in Hnd.
    inversion Hnd as [|x l Hin _]; subst. intros ->. apply Hin. now left. }
  split.
  - rewrite Hc in Hok, Hlen, Hmiss.
    destruct (lru_cache_evicts filesize_wrapped (front ++ [(u2, v2)]) u1 url
                v1 v w w1 evs Hok Hlen Hmiss Hf) as [Hcall Hgone].
    rewrite Hc. split; [exact Hcall|]. split; [exact Hgone|]. split.
    + cbn [cache_lookup].
      destruct (String.eqb url u2) eqn:Heq;
        [apply String.eqb_eq in Heq; now destruct Hurl|].
      rewrite cache_lookup_app.
      assert (Hfront : cache_lookup front u2 = None).
      { apply cache_lookup_none. destruct Hok as [Hnd _].
        rewrite !map_app in Hnd. cbn [map fst] in Hnd.
        apply NoDup_remove_1 in Hnd. rewrite app_nil_r in Hnd.
        apply NoDup_remove_2 in Hnd. now rewrite app_nil_r in Hnd. }
      rewrite Hfront. cbn [cache_lookup]. now rewrite String.eqb_refl.
    + intros w2. unfold filesize, lru_cache. rewrite Hgone.
      destruct (filesize_wrapped w2 u1) as [[evs2 w3] o2]. now destruct o2.
  - assert (Hhit : filesize c w u1
                   = ([], w, (u1, v1) :: front ++ [(u2, v2)], Returned v1)).
    { rewrite Hc. apply lru_cache_refresh. rewrite <- Hc. apply Hok. }
    assert (Hok' : cache_ok (((u1, v1) :: front) ++ [(u2, v2)])).
    { exact (lru_cache_ok filesize_wrapped _ _ _ _ _ _ _ Hok Hhit). }
    assert (Hlen' : List.length (((u1, v1) :: front) ++ [(u2, v2)])
                    = lru_maxsize).
    { rewrite <- Hlen. unfold c. cbn [app List.length].
      rewrite !length_app. cbn [List.length]. lia. }
    assert (Hmiss' : cache_lookup (((u1, v1) :: front) ++ [(u2, v2)]) url
                     = None).
    { apply cache_lookup_none. apply cache_lookup_none in Hmiss.
      intros Hin. apply Hmiss. unfold c.
      cbn [app map fst] in Hin. rewrite map_app in *. cbn [map fst] in *.
      destruct Hin as [<- | Hin]; [now destruct Hurl|].
      apply in_app_or in Hin. apply in_or_app.
      destruct Hin as [Hin | Hin]; [now left|]. right.
      destruct Hin as [<- | []]. now left. }
    destruct (lru_cache_evicts filesize_wrapped ((u1, v1) :: front) u2 url
                v2 v w w1 evs Hok' Hlen' Hmiss' Hf) as [Hcall Hgone].
    split; [exact Hhit|]. split; [exact Hcall|]. split; [|exact Hgone].
    cbn [cache_lookup].
    destruct (String.eqb url u1) eqn:Heq;
      [apply String.eqb_eq in Heq; now destruct Hurl|].
    now rewrite String.eqb_refl.
Qed.

(** ** [seq_filesize] when a segment's HEAD fails *)

Section BrokenHead.
Context {E : Environment}.
Variable url : string.
Variable N k : Z.
Variable L : Z -> Z.
Variable last : list event.
Variable e : exn.
Hypothesis Hk : 1 <= k <= N.
Hypothesis Hhead :
  forall (j : Z) (w : World), 1 <= j < k ->
    exists evs w', head_content_length w (segment_url url j)
                   = (evs, w', Ok (L j)).
Hypothesis Hfail :
  forall w : World,
    exists w', head_content_length w (segment_url url k)
               = (last, w', Raise e).

Lemma head_loop_broken (m : nat) :
  forall (extra : nat) (w : World) (seq_num total : Z) (querys : dict),
    1 <= seq_num ->
    Z.of_nat m = k - seq_num ->
    (forall v, dict_set querys "sq" v = dict_set (querys_of url) "sq" v) ->
    exists evs w',
      head_loop (S (m + extra)) w (base_url_of url) querys seq_num N total
      = (evs ++ last, w', Raised e)
      /\ List.length (requests evs) = m.
Proof.
  induction m as [|m IH]; intros extra w seq_num total querys Hseq Hm Hq;
    cbn [Nat.add]; rewrite head_loop_turn;
    (destruct (seq_num <=? N) eqn:Hle; [|lia]); cbv zeta;
    rewrite Hq; fold (segment_url url seq_num).
  - replace seq_num with k by lia.
    destruct (Hfail w) as (w' & Hrun). rewrite Hrun. now exists [], w'.
  - destruct (Hhead seq_num w) as (evs1 & w1 & Hrun); [lia|]. rewrite Hrun.
    destruct (head_content_length_events _ _ _ _ _ Hrun) as (r & -> & _).
    destruct (IH extra w1 (seq_num + 1) (total + L seq_num)
                (dict_set (querys_of url) "sq" (str_of_int seq_num)))
      as (evs & w2 & Hrest & Hn);
      [lia | lia | intros v; apply dict_set_twice |].
    rewrite Hrest. exists (EvRequest SiteHead r :: evs), w2.
    split; [reflexivity|].
    change (requests (EvRequest SiteHead r :: evs))
      with ((SiteHead, r) :: requests evs).
    cbn [List.length]. now rewrite Hn.
Qed.


End BrokenHead.

(** ** The pattern for the segment count *)

Lemma strip_prefix_spec (p s r : bytes) :
  strip_prefix p s = Some r <-> s = p ++ r.
Proof.
  revert s; induction p as [|a p IH]; intros s.
  - destruct s; cbn; split; intros H; now inversion H.
  - destruct s as [|b s]; cbn [strip_prefix app].
    + split; discriminate.
    + destruct (Byte.eqb a b) eqn:Hab.
      * apply Byte.byte_dec_bl in Hab. subst b. rewrite IH.
        split; [now intros -> | now intros [= ->]].
      * split; [discriminate|]. intros [= -> _].
        now rewrite (Byte.byte_dec_lb eq_refl) in Hab.
Qed.

Lemma take_digits_spec (s : bytes) :
  exists rest,
    s = take_digits s ++ rest
    /\ Forall (fun b => is_digit b = true) (take_digits s)
    /\ match rest with
       | b :: _ => is_digit b = false
       | [] => True
       end.
Proof.
  induction s as [|b s (rest & Hs & Hd & Hr)]; cbn [take_digits].
  - exists []. now repeat split.
  - destruct (is_digit b) eqn:Hb.
    + exists rest. repeat split;
        [cbn [app]; now f_equal | now constructor | exact Hr].
    + exists (b :: s). now repeat split.
Qed.

Lemma int_of_digits_nonneg (ds : bytes) :
  Forall (fun b => is_digit b = true) ds -> 0 <= int_of_digits ds.
Proof.
  unfold int_of_digits. intros Hds.
  assert (Hgen : forall acc, 0 <= acc ->
            0 <= fold_left
                   (fun acc b => acc * 10 + (Z.of_N (Byte.to_N b) - 48))
                   ds acc).
  { induction Hds as [|b ds Hb _ IH]; intros acc Hacc; cbn [fold_left];
      [assumption|].
    apply IH. unfold is_digit in Hb. lia. }
  apply Hgen. lia.
Qed.

Lemma segment_count_search_cons (b : byte) (rest : bytes) :
  segment_count_search (b :: rest)
  = match strip_prefix segment_literal (b :: rest) with
    | Some after =>
        match take_digits after with
        | [] => segment_count_search rest
        | ds => Some ds
        end
    | None => segment_count_search rest
    end.
Proof. reflexivity. Qed.

(** X21.  What the pattern [Segment-Count: (\d+)] finds in a line.  A
    match is a place where the literal is followed by at least one ASCII
    digit; the group is the whole run of digits there, so the count read
    from it is never negative.  A line is passed over only when the
    literal is nowhere followed by a digit. *)
Theorem segment_count_is_a_digit_run (line : bytes) :
  match segment_count_search line with
  | Some ds =>
      (exists before rest,
         line = before ++ segment_literal ++ ds ++ rest
         /\ match rest with
            | b :: _ => is_digit b = false
            | [] => True
            end)
      /\ ds <> []
      /\ Forall (fun b => is_digit b = true) ds
      /\ count_of_line line = Some (int_of_digits ds)
      /\ 0 <= int_of_digits ds
  | None =>
      count_of_line line = None
      /\ forall before d rest,
           is_digit d = true ->
           line <> before ++ segment_literal ++ d :: rest
  end.
Proof.
  assert (Hnil : forall before d rest,
            [] <> before ++ segment_literal ++ d :: rest).
  { intros before d rest H. symmetry in H.
    apply app_eq_nil in H as [_ H]. discriminate H. }
  unfold count_of_line.
  induction line as [|b line IH].
  - cbn [segment_count_search option_map]. split; [reflexivity|].
    intros before d rest _. apply Hnil.
  - rewrite segment_count_search_cons.
    assert (Hstep :
      match segment_count_search line with
      | Some ds =>
          (exists before rest,
             b :: line = before ++ segment_literal ++ ds ++ rest
             /\ match rest with
                | b :: _ => is_digit b = false
                | [] => True
                end)
          /\ ds <> []
          /\ Forall (fun b => is_digit b = true) ds
          /\ option_map int_of_digits (Some ds) = Some (int_of_digits ds)
          /\ 0 <= int_of_digits ds
      | None =>
          option_map int_of_digits (@None bytes) = None
          /\ forall before d rest,
               is_digit d = true ->
               (forall after, b :: line = segment_literal ++ after ->
                              take_digits after = []) ->
               b :: line <> before ++ segment_literal ++ d :: rest
      end).
    { destruct (segment_count_search line) as [ds|].
      - destruct IH as ((before & rest & Hline & Hrest) & Hne & Hds & _ & H0).
        split; [|now repeat split].
        exists (b :: before), rest. split; [|exact Hrest].
        cbn [app]. now f_equal.
      - destruct IH as (_ & IH). split; [reflexivity|].
        intros [|b' before] d rest Hd Hhere Heq.
        + specialize (Hhere _ Heq). cbn [take_digits] in Hhere.
          rewrite Hd in Hhere. discriminate Hhere.
        + cbn [app] in Heq. injection Heq as _ Heq.
          exact (IH before d rest Hd Heq). }
    destruct (strip_prefix segment_literal (b :: line)) as [after|] eqn:Hp.
    + apply strip_prefix_spec in Hp.
      destruct (take_digits_spec after) as (rest & Hafter & Hds & Hrest).
      destruct (take_digits after) as [|d ds] eqn:Htd.
      * destruct (segment_count_search line) as [ds'|]; [exact Hstep|].
        destruct Hstep as (Hnone & Hstep). split; [exact Hnone|].
        intros before d rest0 Hd. apply Hstep; [exact Hd|].
        intros after' Heq. rewrite Hp in Heq.
        apply app_inv_head in Heq. now subst after'.
      * split; [|repeat split].
        -- exists [], rest. split; [|exact Hrest].
           cbn [app]. rewrite Hp. f_equal. exact Hafter.
        -- discriminate.
        -- exact Hds.
        -- now apply int_of_digits_nonneg.
    + destruct (segment_count_search line) as [ds'|]; [exact Hstep|].
      destruct Hstep as (Hnone & Hstep). split; [exact Hnone|].
      intros before d rest0 Hd. apply Hstep; [exact Hd|].
      intros after' Heq.
      apply strip_prefix_spec in Heq. rewrite Heq in Hp. discriminate Hp.
Qed.

(* ------------------------------------------------------------------ *)
(** * The further properties on the test servers *)

(** An [IncompleteRead] and a timeout, then the answer: three requests
    with a budget of two retries, [MaxRetriesExceeded] after two with a
    budget of one. *)
Lemma incomplete_reads_are_retried_witness :
  (exists evs response,
     @request_loop scripted_letters_env "https://host/v"
       GLOBAL_DEFAULT_TIMEOUT 2 (request_fuel 2)
       [IncompleteRead; URLError socket_timeout] 0 9 0
     = (evs, [], Break response)
     /\ List.length (requests evs) = 3%nat)
  /\ (exists evs w'',
        (forall fuel,
           @stream_loop scripted_letters_env "https://host/v"
             GLOBAL_DEFAULT_TIMEOUT 1 (S fuel)
             [IncompleteRead; URLError socket_timeout] 10 0
           = (evs, w'', Raised MaxRetriesExceeded))
        /\ Z.of_nat (List.length (requests evs)) = 2).
Proof.
  assert (Hto : @fails scripted_letters_env 2
                  [IncompleteRead; URLError socket_timeout]
                  (range_url "https://host/v" 0 9) GLOBAL_DEFAULT_TIMEOUT
                  []).
  { do 3 eexists. split; [reflexivity|]. split; [reflexivity|].
    do 3 eexists. split; [reflexivity|]. split; reflexivity. }
  split.
  - edestruct (@incomplete_reads_are_retried scripted_letters_env
                 "https://host/v" GLOBAL_DEFAULT_TIMEOUT 2 2%nat
                 [IncompleteRead; URLError socket_timeout] [] [] 10 0)
      as [Hok _]; [lia | lia | exact Hto | reflexivity |].
    assert (Hk : Z.of_nat 2 <= 2) by lia.
    destruct (Hok Hk) as (evs & Hrun & Hn & _).
    eexists evs, _. split; [exact Hrun | exact Hn].
  - edestruct (@incomplete_reads_are_retried scripted_letters_env
                 "https://host/v" GLOBAL_DEFAULT_TIMEOUT 1 2%nat
                 [IncompleteRead; URLError socket_timeout] [] [] 10 0)
      as [_ Hfail]; [lia | lia | exact Hto | reflexivity |].
    assert (Hk : 1 < Z.of_nat 2) by lia.
    destruct (Hfail Hk) as (evs & w'' & Hrun & Hn & _).
    exists evs, w''. split; [exact Hrun | exact Hn].
Defined.

(** A timeout, then a [StopIteration] out of the transport: the run
    ends after two requests though three retries were allowed, and the
    generator raises [RuntimeError]. *)
Lemma fatal_errors_are_not_retried_witness :
  exists evs last,
    (forall fuel,
       @stream_loop scripted_letters_env "https://host/v"
         GLOBAL_DEFAULT_TIMEOUT 3 (S fuel)
         [URLError socket_timeout; StopIteration] 10 0
       = (evs ++ last, [],
          Raised (RuntimeError "generator raised StopIteration")))
    /\ List.length (requests evs) = 1%nat
    /\ (List.length (requests last) <= 1)%nat
    /\ chunks (evs ++ last) = [].
Proof.
  assert (Hto : @fails scripted_letters_env 1
                  [URLError socket_timeout; StopIteration]
                  (range_url "https://host/v" 0 9) GLOBAL_DEFAULT_TIMEOUT
                  [StopIteration]).
  { do 3 eexists. split; [reflexivity|]. split; reflexivity. }
  edestruct (@fatal_errors_are_not_retried scripted_letters_env
               "https://host/v" GLOBAL_DEFAULT_TIMEOUT 3 1%nat
               [URLError socket_timeout; StopIteration]
               [StopIteration] [] 10 0)
    as (evs & Hrun & _ & _ & Hrest);
    [lia | lia | exact Hto | reflexivity | reflexivity |].
  eexists evs, _. split; [exact Hrun | exact Hrest].
Defined.

(** Five timeouts ahead and two retries allowed: the turn stops by
    itself after at most three requests. *)
Lemma attempts_per_turn_bounded_witness :
  exists evs1 w1 x,
    @request_loop flaky_letters_env "https://host/v" GLOBAL_DEFAULT_TIMEOUT
      2 (request_fuel 2) 5%nat 0 (Z.min (0 + 10) 10 - 1) 0 = (evs1, w1, x)
    /\ x <> Exhausted
    /\ (List.length (requests evs1) <= 3)%nat.
Proof.
  assert (Hlt : 0 < 10) by lia.
  destruct (@attempts_per_turn_bounded flaky_letters_env "https://host/v"
              GLOBAL_DEFAULT_TIMEOUT 2 0%nat 5%nat 10 0 Hlt)
    as (evs1 & w1 & x & Hrun & Hx & Hn & _).
  exists evs1, w1, x. split; [exact Hrun|]. split; [exact Hx | exact Hn].
Defined.

(** An [ftp] URL is refused by [stream] and by [filesize] before
    anything is sent. *)
Lemma invalid_url_never_sent_witness :
  @stream letters_env "ftp://host/v" GLOBAL_DEFAULT_TIMEOUT 3 5 tt
  = ([], tt, Raised (ValueError "Invalid URL"))
  /\ @filesize letters_env [] tt "ftp://host/v"
     = ([], tt, [], Raised (ValueError "Invalid URL")).
Proof.
  assert (Hsize : 0 < @range_size letters_env) by (vm_compute; reflexivity).
  assert (Hmax : 0 <= 3) by lia.
  destruct (@invalid_url_never_sent letters_env "ftp://host/v"
              GLOBAL_DEFAULT_TIMEOUT 3 4%nat tt [] eq_refl Hsize Hmax)
    as [Hstream Hsize'].
  split; [exact Hstream | exact (Hsize' eq_refl)].
Defined.

(** A POST with a list for its body: the caller's [User-Agent] replaces
    the default, its last [Content-Type] wins, the default
    [accept-language] stays, and the body goes out as its JSON text. *)
Lemma request_headers_merge_witness :
  exists req,
    fst (fst (@_execute_request letters_env SiteHead tt "https://host/v"
                (Some "POST")
                [("Content-Type", "text/plain"); ("User-Agent", "mine");
                 ("Content-Type", "application/json")]
                (Some (Object true (Ok (bytes_of "[1, 2]"))))
                GLOBAL_DEFAULT_TIMEOUT))
    = [EvRequest SiteHead req]
    /\ req_data req = Some (Bytes (bytes_of "[1, 2]"))
    /\ NoDup (map fst (req_headers req))
    /\ dict_get (req_headers req) "User-Agent" = Some "mine"
    /\ dict_get (req_headers req) "Content-Type" = Some "application/json"
    /\ dict_get (req_headers req) "accept-language" = Some "en-US,en".
Proof.
  destruct (@request_headers_merge letters_env SiteHead tt "https://host/v"
              (Some "POST")
              [("Content-Type", "text/plain"); ("User-Agent", "mine");
               ("Content-Type", "application/json")]
              (Some (Object true (Ok (bytes_of "[1, 2]"))))
              GLOBAL_DEFAULT_TIMEOUT eq_refl)
    as [_ Hsent].
  destruct Hsent as (req & Hevs & _ & _ & _ & Hdata & Hnd & Hget);
    [discriminate|].
  exists req. split; [exact Hevs|]. split; [exact Hdata|].
  split; [exact Hnd|].
  split; [|split]; rewrite Hget; reflexivity.
Defined.

(** The second request for a chunk of the letters comes after ten bytes
    have been yielded, and asks for a window that starts at byte 10. *)
Lemma requests_resume_where_yields_end_witness :
  let evs := fst (fst (@stream letters_env "https://host/v"
                         GLOBAL_DEFAULT_TIMEOUT 0 5 tt)) in
  exists r stop_pos,
    nth_error evs 3 = Some (EvRequest SiteChunk r)
    /\ req_url r = range_url "https://host/v" (len (yielded (firstn 3 evs)))
                     stop_pos
    /\ len (yielded (firstn 3 evs)) = 10
    /\ 10 <= stop_pos < 20.
Proof.
  intros evs.
  pose (r := {| req_url := "https://host/v&range=10-19";
                req_method := Some "GET";
                req_headers := [("User-Agent", List.hd "" user_agents);
                                ("accept-language", "en-US,en")];
                req_data := None;
                req_timeout := GLOBAL_DEFAULT_TIMEOUT |}).
  assert (Hsplit : fst (fst (@stream letters_env "https://host/v"
                               GLOBAL_DEFAULT_TIMEOUT 0 5 tt))
                   = firstn 3 evs ++ EvRequest SiteChunk r :: skipn 4 evs)
    by (vm_compute; reflexivity).
  destruct (@requests_resume_where_yields_end letters_env "https://host/v"
              GLOBAL_DEFAULT_TIMEOUT 0 5%nat tt (firstn 3 evs) (skipn 4 evs)
              r Hsplit) as (stop_pos & Hurl & Hwin).
  assert (Hlen : len (yielded (firstn 3 evs)) = 10)
    by (vm_compute; reflexivity).
  exists r, stop_pos. split; [vm_compute; reflexivity|].
  split; [exact Hurl|]. split; [exact Hlen|].
  rewrite Hlen in Hwin. exact Hwin.
Defined.

(** The probe for [https://host/c] times out: the run ends there with
    five retries allowed, and the ten bytes already answered are not
    yielded. *)
Lemma probe_failure_is_fatal_witness :
  exists evs,
    @stream_loop odd_answers_env "https://host/c" GLOBAL_DEFAULT_TIMEOUT 5
      4 tt 10 0
    = (evs, tt, Raised (URLError socket_timeout))
    /\ yielded evs = []
    /\ (List.length (requests_at SiteProbe evs) <= 1)%nat.
Proof.
  edestruct (@probe_failure_is_fatal odd_answers_env "https://host/c"
               GLOBAL_DEFAULT_TIMEOUT 5 3%nat tt tt tt 0)
    as (Hrun & _ & _ & Hy & Hn);
    [vm_compute; reflexivity | vm_compute; reflexivity
     | vm_compute; reflexivity | reflexivity |].
  eexists. split; [exact Hrun|]. split; [exact Hy | exact Hn].
Defined.

(** The answer to the probe for [https://host/d] has no
    [Content-Length]: a [TypeError]. *)
Lemma probe_without_content_length_witness :
  exists evs msg,
    @stream_loop odd_answers_env "https://host/d" GLOBAL_DEFAULT_TIMEOUT 0
      4 tt 10 0
    = (evs, tt, Raised (TypeError msg))
    /\ yielded evs = [].
Proof.
  edestruct (@probe_without_content_length odd_answers_env "https://host/d"
               GLOBAL_DEFAULT_TIMEOUT 0 3%nat tt tt tt 0)
    as (msg & Hrun & Hy);
    [vm_compute; reflexivity | vm_compute; reflexivity
     | vm_compute; reflexivity | reflexivity |].
  eexists _, msg. split; [exact Hrun | exact Hy].
Defined.

(** The reads for [https://host/a] give four bytes, two bytes, and then
    raise [StopIteration]: the six bytes are yielded and the run returns,
    with a size of a hundred reported. *)
Lemma stop_iteration_ends_stream_witness :
  exists evs,
    @stream_loop odd_answers_env "https://host/a" GLOBAL_DEFAULT_TIMEOUT 0
      4 tt 10 0
    = (evs, tt, Returned tt)
    /\ chunks evs = [bytes_of "abcd"; bytes_of "ef"]
    /\ List.length (requests evs) = 2%nat.
Proof.
  edestruct (@stop_iteration_ends_stream odd_answers_env "https://host/a"
               GLOBAL_DEFAULT_TIMEOUT 0 3%nat tt tt tt 10 100 0)
    with (pieces := [bytes_of "abcd"; bytes_of "ef"]) (rest := @nil (result bytes))
    as (ys & Hrun & Hch & Hreq);
    [lia | vm_compute; reflexivity | vm_compute; reflexivity
     | reflexivity | repeat constructor; discriminate |].
  eexists. split; [exact Hrun|].
  rewrite !chunks_app, !requests_app, !length_app, Hch, Hreq.
  split; reflexivity.
Defined.

(** The reads for [https://host/b] give four bytes and then raise
    [IncompleteRead]: the error is raised though five retries are
    allowed, after the four bytes have been yielded. *)
Lemma read_errors_are_not_retried_witness :
  exists evs,
    @stream_loop odd_answers_env "https://host/b" GLOBAL_DEFAULT_TIMEOUT 5
      4 tt 10 0
    = (evs, tt, Raised IncompleteRead)
    /\ chunks evs = [bytes_of "abcd"]
    /\ List.length (requests evs) = 2%nat.
Proof.
  edestruct (@read_errors_are_not_retried odd_answers_env "https://host/b"
               GLOBAL_DEFAULT_TIMEOUT 5 3%nat tt tt tt 10 100 0)
    with (pieces := [bytes_of "abcd"]) (rest := @nil (result bytes))
    as (ys & Hrun & Hch & Hreq);
    [lia | vm_compute; reflexivity | vm_compute; reflexivity
     | reflexivity | repeat constructor; discriminate | discriminate |].
  eexists. split; [exact Hrun|].
  rewrite !chunks_app, !requests_app, !length_app, Hch, Hreq.
  split; reflexivity.
Defined.

(** Against the server that sends no bytes, seven turns are seven
    requests for the first chunk, and the run is not over. *)
Lemma empty_answers_never_end_witness :
  exists evs w',
    @stream silent_env "https://host/v" GLOBAL_DEFAULT_TIMEOUT 0 7 tt
    = (evs, w', OutOfFuel)
    /\ yielded evs = []
    /\ List.length (requests_at SiteChunk evs) = 7%nat.
Proof.
  assert (Hsilent : @answers_nothing silent_env).
  { intros w r. eexists _, _. split; [reflexivity|].
    split; [left; reflexivity|].
    exists "5", 5. split; [reflexivity|]. split; [reflexivity | lia]. }
  assert (Hsize : 0 < @range_size silent_env) by (vm_compute; reflexivity).
  assert (Hmax : 0 <= 0) by lia.
  exact (@empty_answers_never_end silent_env "https://host/v"
           GLOBAL_DEFAULT_TIMEOUT 0 Hsilent eq_refl Hsize Hmax 7%nat tt).
Defined.




(** Of the two lengths the server gives, [head] keeps the second, under
    the lower-case name, and that is the size. *)
Lemma head_keeps_last_field_witness :
  exists evs headers,
    @head two_lengths_env tt "https://host/h" = (evs, tt, Ok headers)
    /\ map fst headers = ["content-length"; "etag"]
    /\ @head_content_length two_lengths_env tt "https://host/h"
       = (evs, tt, Ok 12).
Proof.
  edestruct (@head_keeps_last_field two_lengths_env tt tt "https://host/h")
    as (headers & req & Hhead & _ & _ & _ & _ & _ & _ & _ & r & Hlen & Hr);
    [vm_compute; reflexivity|].
  change (r = Ok 12) in Hr. subst r.
  eexists _, headers. split; [exact Hhead|]. split; [|exact Hlen].
  assert (Hsame : Ok headers
                  = snd (@head two_lengths_env tt "https://host/h"))
    by now rewrite Hhead.
  vm_compute in Hsame. injection Hsame as ->. reflexivity.
Defined.

(** A URL the server does not know: [filesize] raises and the cache
    stays empty. *)
Lemma failures_are_not_cached_witness :
  exists evs e,
    @filesize letters_env [] tt "https://host/missing"
    = (evs, tt, [], Raised e)
    /\ cache_lookup [] "https://host/missing" = None.
Proof.
  pose (r := @filesize letters_env [] tt "https://host/missing").
  pose (evs := fst (fst (fst r))).
  assert (Hcall : @filesize letters_env [] tt "https://host/missing"
                  = (evs, tt, [],
                     Raised (URLError
                               (other_reason "HTTP Error 404: Not Found"))))
    by (vm_compute; reflexivity).
  destruct (@failures_are_not_cached letters_env [] [] tt tt
              "https://host/missing" evs
              (URLError (other_reason "HTTP Error 404: Not Found"))
              (or_introl Hcall)) as (_ & Hmiss & _).
  exists evs, (URLError (other_reason "HTTP Error 404: Not Found")).
  split; [exact Hcall | exact Hmiss].
Defined.

(** After a lookup of the letters with one other size remembered, the
    cache is still in order. *)
Lemma cache_stays_bounded_witness :
  exists evs c1,
    @filesize letters_env [("https://host/w", 7)] tt "https://host/v"
    = (evs, tt, c1, Returned 25)
    /\ cache_ok c1.
Proof.
  pose (r := @filesize letters_env [("https://host/w", 7)] tt
               "https://host/v").
  pose (evs := fst (fst (fst r))).
  assert (Hcall : @filesize letters_env [("https://host/w", 7)] tt
                    "https://host/v"
                  = (evs, tt, [("https://host/v", 25); ("https://host/w", 7)],
                     Returned 25))
    by (vm_compute; reflexivity).
  assert (Hok : cache_ok [("https://host/w", 7)]).
  { split; [|vm_compute; lia].
    repeat constructor. intros []. }
  exists evs, [("https://host/v", 25); ("https://host/w", 7)].
  split; [exact Hcall|].
  exact (@cache_stays_bounded letters_env _ _ tt tt "https://host/v" evs
           (Returned 25) Hok (or_introl Hcall)).
Defined.

(** With 128 sizes remembered, [https://host/oldest] used longest ago
    and [https://host/older] next: the size of the letters takes the
    place of the first, unless that one is looked up before, and then
    it takes the place of the second. *)
Lemma full_cache_evicts_oldest_witness :
  let c := many_sizes ++ [("https://host/older", 8);
                          ("https://host/oldest", 7)] in
  exists evs,
    (@filesize letters_env c tt "https://host/v"
     = (evs, tt,
        ("https://host/v", 25) :: many_sizes ++ [("https://host/older", 8)],
        Returned 25))
    /\ @filesize letters_env c tt "https://host/oldest"
       = ([], tt,
          ("https://host/oldest", 7)
            :: many_sizes ++ [("https://host/older", 8)],
          Returned 7)
    /\ @filesize letters_env
         (("https://host/oldest", 7)
            :: many_sizes ++ [("https://host/older", 8)])
         tt "https://host/v"
       = (evs, tt,
          ("https://host/v", 25) :: ("https://host/oldest", 7) :: many_sizes,
          Returned 25).
Proof.
  intros c.
  pose (evs := fst (fst (@filesize_wrapped letters_env tt "https://host/v"))).
  assert (Hf : @filesize_wrapped letters_env tt "https://host/v"
               = (evs, tt, Returned 25)) by (vm_compute; reflexivity).
  assert (Hlen : List.length c = lru_maxsize) by (vm_compute; reflexivity).
  assert (Hok : cache_ok c).
  { split; [|rewrite Hlen; apply Nat.le_refl].
    assert (Hkeys : nodup string_dec (map fst c) = map fst c)
      by (vm_compute; reflexivity).
    rewrite <- Hkeys. apply NoDup_nodup. }
  assert (Hmiss : cache_lookup c "https://host/v" = None)
    by (vm_compute; reflexivity).
  destruct (@full_cache_evicts_oldest letters_env many_sizes
              "https://host/oldest" "https://host/older" "https://host/v"
              7 8 25 tt tt evs Hok Hlen Hmiss Hf)
    as ((Hcall & _) & Hhit & Hnext & _).
  exists evs. split; [exact Hcall|]. split; [exact Hhit | exact Hnext].
Defined.
